(** * Distributed task queue: job store, rate limiter, admission, worker

    A shallow embedding of the coordination layer of the job queue:

    - [internal/models]              the Go structs [Job], [CreateJobRequest];
    - [internal/repository]          the SQLite repository (tables [jobs] and
                                     [dead_letter_jobs], lease transaction,
                                     dead-letter move);
    - [internal/service]             the rate limiter, [JobService.CreateJob],
                                     the worker's [processJob] and
                                     [handleJobFailure];
    - [internal/metrics]             the four process-local counters.

    Go code that returns [(value, error)] is written in a state-and-error
    monad [M] over a [World]: the two tables, the open transaction, the
    in-process limiter and counters, and three oracles standing for what the
    code asks of its environment (the wall clock, the SQLite driver's
    failures, and [uuid.New]).  [log.Printf] calls have no effect on any of
    these and are left out. *)

From Stdlib Require Import ZArith String List Bool Lia Sorted Permutation.
From stdpp Require Import base gmap strings list pretty.

Open Scope Z_scope.

(** ** Go integers *)

(** Go's [int] (on 64-bit targets) and [int64]: arithmetic wraps around. *)
Definition int64_wrap (z : Z) : Z := (z + 2 ^ 63) mod 2 ^ 64 - 2 ^ 63.

(** [x++] on an [int] / [int64]. *)
Definition int64_inc (x : Z) : Z := int64_wrap (x + 1).

(** ** Package [time] *)

Module time.

(** A [time.Time] as nanoseconds since the Unix epoch, a [time.Duration]
    as a number of nanoseconds. *)
Definition Time := Z.
Definition Duration := Z.

Definition Second : Duration := 1000000000.
Definition Minute : Duration := 60 * Second.

(** [t.Add(d)] *)
Definition Add (t : Time) (d : Duration) : Time := t + d.

(** [t.After(u)]: strictly later. *)
Definition After (t u : Time) : bool := u <? t.

(** [t.Unix()]: whole seconds since the epoch, rounded down. *)
Definition Unix (t : Time) : Z := t `div` Second.

(** [time.Unix(sec, 0)] *)
Definition FromUnix (sec : Z) : Time := sec * Second.

End time.

(** ** Package [strings] *)

(** [strings.Contains(s, substr)] *)
Fixpoint strings_Contains (s substr : string) : bool :=
  String.prefix substr s ||
  match s with
  | EmptyString => false
  | String _ s' => strings_Contains s' substr
  end.

(** ** Package [models] *)

(** [type JobStatus string] with its four constants; the column
    [jobs.status] only ever receives these. *)
Inductive JobStatus : Set :=
| StatusPending
| StatusRunning
| StatusDone
| StatusFailed.

Definition JobStatus_eqb (a b : JobStatus) : bool :=
  match a, b with
  | StatusPending, StatusPending
  | StatusRunning, StatusRunning
  | StatusDone, StatusDone
  | StatusFailed, StatusFailed => true
  | _, _ => false
  end.

(** [models.Job]; the two lease fields are [*time.Time]. *)
Record Job := mkJob {
  ID : string;
  TenantID : string;
  IdempotencyKey : string;
  Payload : string;
  Status : JobStatus;
  MaxRetries : Z;
  RetryCount : Z;
  LeasedAt : option time.Time;
  LeaseExpiresAt : option time.Time;
  CreatedAt : time.Time;
  UpdatedAt : time.Time
}.

(** [models.CreateJobRequest]; [MaxRetries] is [*int]. *)
Record CreateJobRequest := mkCreateJobRequest {
  ReqTenantID : string;
  ReqIdempotencyKey : string;
  ReqPayload : string;
  ReqMaxRetries : option Z
}.

(** ** The schema of [initSchema] *)

(** A row of table [jobs].  [idempotency_key], [leased_at] and
    [lease_expires_at] are nullable; timestamps are integer seconds. *)
Record jobs_row := mkJobsRow {
  j_id : string;
  j_tenant_id : string;
  j_idempotency_key : option string;
  j_payload : string;
  j_status : JobStatus;
  j_max_retries : Z;
  j_retry_count : Z;
  j_leased_at : option Z;
  j_lease_expires_at : option Z;
  j_created_at : Z;
  j_updated_at : Z
}.

(** A row of table [dead_letter_jobs]. *)
Record dead_letter_jobs_row := mkDeadLetterRow {
  d_id : string;
  d_job_id : string;
  d_tenant_id : string;
  d_payload : string;
  d_failure_reason : string;
  d_failed_at : Z
}.

(** ** Errors *)

(** The Go [error] values the modelled code produces. *)
Inductive error : Type :=
| ErrDuplicateIdempotencyKey (tenantID idempotencyKey : string)
    (* *repository.ErrDuplicateIdempotencyKey *)
| ErrRateLimitExceeded                      (* service.ErrRateLimitExceeded *)
| sqlite3_Error (msg : string)              (* an error of the driver *)
| fmt_Errorf (msg : string)                 (* fmt.Errorf without %w *)
| fmt_Errorf_w (msg : string) (err : error) (* fmt.Errorf("msg: %w", err) *).

(** [err.Error()] *)
Fixpoint Error (e : error) : string :=
  match e with
  | ErrDuplicateIdempotencyKey t k =>
      "job with idempotency_key " +:+ k +:+ " already exists for tenant " +:+ t
  | ErrRateLimitExceeded => "rate limit exceeded"
  | sqlite3_Error msg => msg
  | fmt_Errorf msg => msg
  | fmt_Errorf_w msg err => msg +:+ ": " +:+ Error err
  end.

Inductive result (A : Type) : Type :=
| Ok (a : A)
| Err (e : error).
Arguments Ok {A} a.
Arguments Err {A} e.

(** ** Package [metrics] *)

Record Metrics := mkMetrics {
  totalJobs : Z;
  completedJobs : Z;
  failedJobs : Z;
  retriedJobs : Z
}.

(** [metrics.NewMetrics()] *)
Definition NewMetrics : Metrics := mkMetrics 0 0 0 0.

(** ** The rate limiter's data *)

Record submissionWindow := mkSubmissionWindow {
  count : Z;
  windowEnd : time.Time
}.

Record RateLimiter := mkRateLimiter {
  maxConcurrentRunning : Z;
  maxSubmissionsPerMinute : Z;
  submissionWindows : gmap string submissionWindow
}.

(** [service.NewRateLimiter] *)
Definition NewRateLimiter (maxConcurrentRunning maxSubmissionsPerMinute : Z)
  : RateLimiter :=
  mkRateLimiter maxConcurrentRunning maxSubmissionsPerMinute ∅.

(** ** The world *)

(** Everything the modelled code reads or writes.

    - [jobs], [dead_letter_jobs]: the two tables, rows in insertion order;
    - [tx]: the tables as they were when the open transaction began
      ([None]: no transaction is open);
    - [faults]: the driver's verdict on the coming statements, one entry
      per statement ([true]: the statement fails with an I/O error; an
      exhausted list means no further failure);
    - [clock], [ticks]: the last reading of the wall clock and the amounts
      by which the coming readings advance it;
    - [uuids]: the coming results of [uuid.New().String()];
    - [rl], [metrics]: the process's rate limiter and counters. *)
Record World := mkWorld {
  jobs : list jobs_row;
  dead_letter_jobs : list dead_letter_jobs_row;
  tx : option (list jobs_row * list dead_letter_jobs_row);
  faults : list bool;
  clock : time.Time;
  ticks : list N;
  uuids : list string;
  rl : RateLimiter;
  metrics : Metrics
}.

Definition set_tables (js : list jobs_row) (ds : list dead_letter_jobs_row)
  (w : World) : World :=
  mkWorld js ds (tx w) (faults w) (clock w) (ticks w) (uuids w) (rl w) (metrics w).

Definition set_tx (t : option (list jobs_row * list dead_letter_jobs_row))
  (w : World) : World :=
  mkWorld (jobs w) (dead_letter_jobs w) t (faults w) (clock w) (ticks w)
    (uuids w) (rl w) (metrics w).

Definition set_faults (fs : list bool) (w : World) : World :=
  mkWorld (jobs w) (dead_letter_jobs w) (tx w) fs (clock w) (ticks w)
    (uuids w) (rl w) (metrics w).

Definition set_clock (c : time.Time) (ts : list N) (w : World) : World :=
  mkWorld (jobs w) (dead_letter_jobs w) (tx w) (faults w) c ts
    (uuids w) (rl w) (metrics w).

Definition set_uuids (us : list string) (w : World) : World :=
  mkWorld (jobs w) (dead_letter_jobs w) (tx w) (faults w) (clock w) (ticks w)
    us (rl w) (metrics w).

Definition set_windows (ws : gmap string submissionWindow) (w : World) : World :=
  mkWorld (jobs w) (dead_letter_jobs w) (tx w) (faults w) (clock w) (ticks w)
    (uuids w)
    (mkRateLimiter (maxConcurrentRunning (rl w))
       (maxSubmissionsPerMinute (rl w)) ws)
    (metrics w).

Definition set_metrics (m : Metrics) (w : World) : World :=
  mkWorld (jobs w) (dead_letter_jobs w) (tx w) (faults w) (clock w) (ticks w)
    (uuids w) (rl w) m.

(** ** The monad *)

Definition M (A : Type) : Type := World -> result A * World.

Definition ret {A} (a : A) : M A := fun w => (Ok a, w).

Definition throw {A} (e : error) : M A := fun w => (Err e, w).

Definition bind {A B} (m : M A) (k : A -> M B) : M B :=
  fun w =>
    match m w with
    | (Ok a, w') => k a w'
    | (Err e, w') => (Err e, w')
    end.

(** Run [m] and hand its outcome, error included, to the caller:
    [v, err := m(...)] followed by the caller's own [if err != nil]. *)
Definition try {A} (m : M A) : M (result A) :=
  fun w => let (r, w') := m w in (Ok r, w').

(** [if err != nil { return fmt.Errorf(msg + ": %w", err) }] *)
Definition wrap {A} (msg : string) (m : M A) : M A :=
  fun w =>
    match m w with
    | (Ok a, w') => (Ok a, w')
    | (Err e, w') => (Err (fmt_Errorf_w msg e), w')
    end.

Notation "'let*' x ':=' c 'in' k" := (bind c (fun x => k))
  (at level 10, x name, c at level 100, k at level 200).

Notation "c1 ';;' c2" := (bind c1 (fun _ => c2))
  (at level 100, c2 at level 200, right associativity).

(** ** The environment's oracles *)

(** The next reading of the wall clock. *)
Definition next_now (w : World) : time.Time :=
  clock w + Z.of_N (hd 0%N (ticks w)).

(** [time.Now()] *)
Definition time_Now : M time.Time :=
  fun w => (Ok (next_now w), set_clock (next_now w) (tl (ticks w)) w).

(** [time.Sleep(d)]: the clock has advanced by at least [d]. *)
Definition slept (d : time.Duration) (w : World) : World :=
  set_clock (clock w + Z.max 0 d) (ticks w) w.

Definition time_Sleep (d : time.Duration) : M unit :=
  fun w => (Ok tt, slept d w).

(** [uuid.New().String()] *)
Definition uuid_New : M string :=
  fun w => (Ok (hd "00000000-0000-0000-0000-000000000000"%string (uuids w)),
            set_uuids (tl (uuids w)) w).

(** One round trip to the driver: it fails when the oracle says so. *)
Definition driver : M unit :=
  fun w =>
    if hd false (faults w)
    then (Err (sqlite3_Error "disk I/O error"), set_faults (tl (faults w)) w)
    else (Ok tt, set_faults (tl (faults w)) w).

(** The driver fails none of the coming [n] statements. *)
Definition quiet (n : nat) (w : World) : Prop :=
  forall i, (i < n)%nat -> nth i (faults w) false = false.

(** ** SQLite: the statements the repository runs

    What SQLite does with each statement, as functions on the tables.  A
    [TEXT PRIMARY KEY] and a [UNIQUE] constraint are both unique indexes;
    a violation of either is reported with a message that begins
    [UNIQUE constraint failed: ] followed by the columns.  In a [UNIQUE]
    index NULLs are distinct from each other. *)

Definition idempotency_conflict (r x : jobs_row) : bool :=
  match j_idempotency_key r, j_idempotency_key x with
  | Some k, Some k' => String.eqb (j_tenant_id r) (j_tenant_id x) && String.eqb k k'
  | _, _ => false
  end.

(** [INSERT INTO jobs (...) VALUES (...)]; when the row breaks both
    indexes, SQLite names the one on [(tenant_id, idempotency_key)]. *)
Definition insert_job (r : jobs_row) (t : list jobs_row)
  : result (list jobs_row) :=
  if existsb (idempotency_conflict r) t then
    Err (sqlite3_Error
           "UNIQUE constraint failed: jobs.tenant_id, jobs.idempotency_key")
  else if existsb (fun x => String.eqb (j_id r) (j_id x)) t then
    Err (sqlite3_Error "UNIQUE constraint failed: jobs.id")
  else Ok (t ++ [r]).

(** [WHERE tenant_id = ? AND idempotency_key IS NULL] and
    [WHERE tenant_id = ? AND idempotency_key = ?] *)
Definition tenant_key_is_null (tenantID : string) (x : jobs_row) : bool :=
  String.eqb (j_tenant_id x) tenantID &&
  match j_idempotency_key x with None => true | Some _ => false end.

Definition tenant_key_equals (tenantID key : string) (x : jobs_row) : bool :=
  String.eqb (j_tenant_id x) tenantID &&
  match j_idempotency_key x with None => false | Some k => String.eqb k key end.

(** [WHERE (status = 'PENDING' OR (status = 'RUNNING' AND
    lease_expires_at < ?))]; a comparison with NULL is not true. *)
Definition leasable (nowUnix : Z) (x : jobs_row) : bool :=
  JobStatus_eqb (j_status x) StatusPending ||
  (JobStatus_eqb (j_status x) StatusRunning &&
   match j_lease_expires_at x with
   | Some e => e <? nowUnix
   | None => false
   end).

(** The two terms of that [WHERE] clause. *)
Definition pending (x : jobs_row) : bool :=
  JobStatus_eqb (j_status x) StatusPending.

Definition lease_expired (nowUnix : Z) (x : jobs_row) : bool :=
  JobStatus_eqb (j_status x) StatusRunning &&
  match j_lease_expires_at x with
  | Some e => e <? nowUnix
  | None => false
  end.

(** [ORDER BY created_at ASC LIMIT 1]: the first row of least [created_at]
    in the order the rows are produced in. *)
Fixpoint oldest (t : list jobs_row) : option jobs_row :=
  match t with
  | [] => None
  | x :: t' =>
      match oldest t' with
      | Some y => if j_created_at y <? j_created_at x then Some y else Some x
      | None => Some x
      end
  end.

(** The whole [SELECT] of [LeaseJob].  SQL leaves the choice among rows of
    equal [created_at] open.  SQLite evaluates the [OR] term by term
    through [idx_jobs_status], which produces the [PENDING] rows and then
    the [RUNNING] rows whose lease has run out, each group in the order of
    insertion, and sorts them by [created_at] keeping that order among
    equals. *)
Definition select_leasable (nowUnix : Z) (t : list jobs_row) : option jobs_row :=
  oldest (List.filter pending t ++ List.filter (lease_expired nowUnix) t).

(** The [SET] clauses of the three [UPDATE]s. *)
Definition set_lease (nowUnix expiresAtUnix : Z) (x : jobs_row) : jobs_row :=
  mkJobsRow (j_id x) (j_tenant_id x) (j_idempotency_key x) (j_payload x)
    StatusRunning (j_max_retries x) (j_retry_count x)
    (Some nowUnix) (Some expiresAtUnix) (j_created_at x) nowUnix.

Definition set_status (status : JobStatus) (nowUnix : Z) (x : jobs_row) : jobs_row :=
  mkJobsRow (j_id x) (j_tenant_id x) (j_idempotency_key x) (j_payload x)
    status (j_max_retries x) (j_retry_count x)
    (j_leased_at x) (j_lease_expires_at x) (j_created_at x) nowUnix.

(** [retry_count = retry_count + 1], for [retry_count < 2^63 - 1]: at
    [2^63 - 1] SQLite stores the sum as a REAL, which [jobs_row] has no
    value for.  The one caller increments only below [max_retries], itself
    a Go [int], so below [2^63 - 1]. *)
Definition set_retry (nowUnix : Z) (x : jobs_row) : jobs_row :=
  mkJobsRow (j_id x) (j_tenant_id x) (j_idempotency_key x) (j_payload x)
    (j_status x) (j_max_retries x) (j_retry_count x + 1)
    (j_leased_at x) (j_lease_expires_at x) (j_created_at x) nowUnix.

(** [UPDATE jobs SET ... WHERE id = ?] *)
Definition update_where_id (id : string) (f : jobs_row -> jobs_row)
  (t : list jobs_row) : list jobs_row :=
  map (fun x => if String.eqb (j_id x) id then f x else x) t.

(** [DELETE FROM jobs WHERE id = ?] *)
Definition delete_where_id (id : string) (t : list jobs_row) : list jobs_row :=
  List.filter (fun x => negb (String.eqb (j_id x) id)) t.

(** [SELECT COUNT( * ) FROM jobs WHERE tenant_id = ? AND status = 'RUNNING'] *)
Definition count_running (tenantID : string) (t : list jobs_row) : Z :=
  Z.of_nat (length (List.filter
    (fun x => String.eqb (j_tenant_id x) tenantID &&
              JobStatus_eqb (j_status x) StatusRunning) t)).

(** [INSERT INTO dead_letter_jobs (...) VALUES (...)] *)
Definition insert_dead_letter (r : dead_letter_jobs_row)
  (t : list dead_letter_jobs_row) : result (list dead_letter_jobs_row) :=
  if existsb (fun x => String.eqb (d_id r) (d_id x)) t then
    Err (sqlite3_Error "UNIQUE constraint failed: dead_letter_jobs.id")
  else Ok (t ++ [r]).

(** ** [database/sql]: statements and transactions *)

(** A statement that reads: the driver may fail, else the rows are read. *)
Definition db_Query {A} (q : list jobs_row -> A) : M A :=
  driver ;; fun w => (Ok (q (jobs w)), w).

(** A statement that writes table [jobs]. *)
Definition db_Exec_jobs (q : list jobs_row -> result (list jobs_row)) : M unit :=
  driver ;;
  fun w =>
    match q (jobs w) with
    | Ok js => (Ok tt, set_tables js (dead_letter_jobs w) w)
    | Err e => (Err e, w)
    end.

(** A statement that writes table [dead_letter_jobs]. *)
Definition db_Exec_dlq
  (q : list dead_letter_jobs_row -> result (list dead_letter_jobs_row)) : M unit :=
  driver ;;
  fun w =>
    match q (dead_letter_jobs w) with
    | Ok ds => (Ok tt, set_tables (jobs w) ds w)
    | Err e => (Err e, w)
    end.

(** [r.db.BeginTx(ctx, nil)] *)
Definition BeginTx : M unit :=
  driver ;;
  fun w => (Ok tt, set_tx (Some (jobs w, dead_letter_jobs w)) w).

(** [tx.Commit()]: on success the transaction is over and its writes stay. *)
Definition tx_Commit : M unit :=
  driver ;; fun w => (Ok tt, set_tx None w).

(** [tx.Rollback()]: undoes the writes of a transaction that is still
    open, and does nothing once it was committed. *)
Definition tx_Rollback (w : World) : World :=
  match tx w with
  | Some (js, ds) => set_tx None (set_tables js ds w)
  | None => w
  end.

(** [defer tx.Rollback()], followed by the rest of the function body. *)
Definition defer_Rollback {A} (body : M A) : M A :=
  fun w => let (r, w') := body w in (r, tx_Rollback w').

(** ** Package [repository]: [SQLiteRepository] *)

(** What [Scan] and the lines after it make of a selected row: a NULL
    [idempotency_key] becomes the empty string, the timestamps become
    [time.Time]s. *)
Definition scan_job (x : jobs_row) : Job :=
  mkJob (j_id x) (j_tenant_id x)
    (match j_idempotency_key x with Some k => k | None => "" end)
    (j_payload x) (j_status x) (j_max_retries x) (j_retry_count x)
    (option_map time.FromUnix (j_leased_at x))
    (option_map time.FromUnix (j_lease_expires_at x))
    (time.FromUnix (j_created_at x)) (time.FromUnix (j_updated_at x)).

(** The row [CreateJob] inserts: an empty key goes in as NULL, the lease
    columns are not given and default to NULL. *)
Definition row_of_job (job : Job) : jobs_row :=
  mkJobsRow (ID job) (TenantID job)
    (if String.eqb (IdempotencyKey job) "" then None
     else Some (IdempotencyKey job))
    (Payload job) (Status job) (MaxRetries job) (RetryCount job)
    None None (time.Unix (CreatedAt job)) (time.Unix (UpdatedAt job)).

Definition with_created (now : time.Time) (job : Job) : Job :=
  mkJob (ID job) (TenantID job) (IdempotencyKey job) (Payload job)
    (Status job) (MaxRetries job) (RetryCount job)
    (LeasedAt job) (LeaseExpiresAt job) now now.

(** [func (r *SQLiteRepository) CreateJob]; the job is passed by pointer
    and comes back with [CreatedAt] and [UpdatedAt] set. *)
Definition repo_CreateJob (job : Job) : M Job :=
  let* now := time_Now in
  let job := with_created now job in
  let* r := try (db_Exec_jobs (insert_job (row_of_job job))) in
  match r with
  | Ok _ => ret job
  | Err err =>
      if negb (String.eqb (Error err) "") &&
         strings_Contains (Error err) "UNIQUE constraint failed"
      then
        if negb (String.eqb (IdempotencyKey job) "") then
          throw (ErrDuplicateIdempotencyKey (TenantID job) (IdempotencyKey job))
        else
          throw (fmt_Errorf
            "failed to create job: unique constraint violation (unexpected)")
      else throw (fmt_Errorf_w "failed to create job" err)
  end.

(** [func (r *SQLiteRepository) GetJobByTenantAndIdempotencyKey];
    [QueryRow] keeps the first row of the result and [Scan] reports
    [sql.ErrNoRows] when there is none, which is turned into [nil, nil]. *)
Definition GetJobByTenantAndIdempotencyKey (tenantID idempotencyKey : string)
  : M (option Job) :=
  let query :=
    if String.eqb idempotencyKey "" then tenant_key_is_null tenantID
    else tenant_key_equals tenantID idempotencyKey in
  let* row := wrap "failed to get job" (db_Query (List.find query)) in
  ret (option_map scan_job row).

(** The job [LeaseJob] returns: the selected row with the four fields the
    function assigns after the commit. *)
Definition leased_job (now expiresAt : time.Time) (x : jobs_row) : Job :=
  mkJob (j_id x) (j_tenant_id x)
    (match j_idempotency_key x with Some k => k | None => "" end)
    (j_payload x) StatusRunning (j_max_retries x) (j_retry_count x)
    (Some now) (Some expiresAt)
    (time.FromUnix (j_created_at x)) now.

(** [func (r *SQLiteRepository) LeaseJob] *)
Definition LeaseJob (leaseDuration : time.Duration) : M (option Job) :=
  wrap "failed to begin transaction" BeginTx ;;
  defer_Rollback (
    let* now := time_Now in
    let nowUnix := time.Unix now in
    let expiresAt := time.Add now leaseDuration in
    let expiresAtUnix := time.Unix expiresAt in
    let* row := wrap "failed to find leasable job"
                  (db_Query (select_leasable nowUnix)) in
    match row with
    | None => ret None
    | Some x =>
        wrap "failed to update job lease"
          (db_Exec_jobs (fun t =>
             Ok (update_where_id (j_id x) (set_lease nowUnix expiresAtUnix) t))) ;;
        wrap "failed to commit transaction" tx_Commit ;;
        ret (Some (leased_job now expiresAt x))
    end).

(** [func (r *SQLiteRepository) UpdateJobStatus] *)
Definition UpdateJobStatus (id : string) (status : JobStatus) : M unit :=
  let* now := time_Now in
  wrap "failed to update job status"
    (db_Exec_jobs (fun t =>
       Ok (update_where_id id (set_status status (time.Unix now)) t))).

(** [func (r *SQLiteRepository) IncrementRetryCount] *)
Definition IncrementRetryCount (id : string) : M unit :=
  let* now := time_Now in
  wrap "failed to increment retry count"
    (db_Exec_jobs (fun t =>
       Ok (update_where_id id (set_retry (time.Unix now)) t))).

(** [func (r *SQLiteRepository) GetRunningJobsCountByTenant] *)
Definition GetRunningJobsCountByTenant (tenantID : string) : M Z :=
  wrap "failed to count running jobs" (db_Query (count_running tenantID)).

(** [fmt.Sprintf("dlq_%s_%d", job.ID, unix)] *)
Definition dlqID (jobID : string) (unix : Z) : string :=
  "dlq_" +:+ jobID +:+ "_" +:+ pretty unix.

(** [func (r *SQLiteRepository) MoveToDeadLetterQueue]; the clock is read
    twice, for the record's id and for [failed_at]. *)
Definition MoveToDeadLetterQueue (job : Job) (failureReason : string) : M unit :=
  wrap "failed to begin transaction" BeginTx ;;
  defer_Rollback (
    let* now1 := time_Now in
    let* now2 := time_Now in
    wrap "failed to insert into dead letter queue"
      (db_Exec_dlq (insert_dead_letter
         (mkDeadLetterRow (dlqID (ID job) (time.Unix now1)) (ID job)
            (TenantID job) (Payload job) failureReason (time.Unix now2)))) ;;
    wrap "failed to delete job"
      (db_Exec_jobs (fun t => Ok (delete_where_id (ID job) t))) ;;
    wrap "failed to commit transaction" tx_Commit).

(** ** Package [metrics]: the increments *)

Definition IncrementTotalJobs : M unit :=
  fun w => let m := metrics w in
    (Ok tt, set_metrics (mkMetrics (int64_inc (totalJobs m)) (completedJobs m)
                           (failedJobs m) (retriedJobs m)) w).

Definition IncrementCompletedJobs : M unit :=
  fun w => let m := metrics w in
    (Ok tt, set_metrics (mkMetrics (totalJobs m) (int64_inc (completedJobs m))
                           (failedJobs m) (retriedJobs m)) w).

Definition IncrementFailedJobs : M unit :=
  fun w => let m := metrics w in
    (Ok tt, set_metrics (mkMetrics (totalJobs m) (completedJobs m)
                           (int64_inc (failedJobs m)) (retriedJobs m)) w).

Definition IncrementRetriedJobs : M unit :=
  fun w => let m := metrics w in
    (Ok tt, set_metrics (mkMetrics (totalJobs m) (completedJobs m)
                           (failedJobs m) (int64_inc (retriedJobs m))) w).

(** ** Package [service]: [RateLimiter] *)

(** [func (rl *RateLimiter) CheckConcurrentLimit] *)
Definition CheckConcurrentLimit (tenantID : string) (currentRunning : Z) : M unit :=
  fun w =>
    if maxConcurrentRunning (rl w) <=? currentRunning
    then (Err ErrRateLimitExceeded, w)
    else (Ok tt, w).

(** [func (rl *RateLimiter) CheckSubmissionRate]; the map holds pointers,
    so [window.count++] changes the entry of the map. *)
Definition CheckSubmissionRate (tenantID : string) : M unit :=
  let* now := time_Now in
  fun w =>
    let windows := submissionWindows (rl w) in
    match windows !! tenantID with
    | Some window =>
        if time.After now (windowEnd window) then
          (Ok tt, set_windows
             (<[tenantID := mkSubmissionWindow 1 (time.Add now time.Minute)]> windows) w)
        else if maxSubmissionsPerMinute (rl w) <=? count window then
          (Err ErrRateLimitExceeded, w)
        else
          (Ok tt, set_windows
             (<[tenantID := mkSubmissionWindow (int64_inc (count window))
                              (windowEnd window)]> windows) w)
    | None =>
        (Ok tt, set_windows
           (<[tenantID := mkSubmissionWindow 1 (time.Add now time.Minute)]> windows) w)
    end.

(** ** Package [service]: [JobService] *)

(** [func (s *JobService) CreateJob] *)
Definition CreateJob (req : CreateJobRequest) : M Job :=
  (* Check submission rate limit *)
  CheckSubmissionRate (ReqTenantID req) ;;
  (* Check idempotency *)
  let* existing :=
    (if negb (String.eqb (ReqIdempotencyKey req) "") then
       wrap "failed to check idempotency"
         (GetJobByTenantAndIdempotencyKey (ReqTenantID req) (ReqIdempotencyKey req))
     else ret None) in
  match existing with
  | Some existing => ret existing
  | None =>
      (* Check concurrent running limit *)
      let* runningCount := wrap "failed to get running jobs count"
                             (GetRunningJobsCountByTenant (ReqTenantID req)) in
      CheckConcurrentLimit (ReqTenantID req) runningCount ;;
      (* Create job *)
      let maxRetries :=
        match ReqMaxRetries req with Some m => m | None => 3 end in
      let* id := uuid_New in
      let job := mkJob id (ReqTenantID req) (ReqIdempotencyKey req)
                   (ReqPayload req) StatusPending maxRetries 0 None None 0 0 in
      let* r := try (repo_CreateJob job) in
      match r with
      | Ok job => IncrementTotalJobs ;; ret job
      | Err err =>
          let failed := throw (fmt_Errorf_w "failed to create job" err) in
          match err with
          | ErrDuplicateIdempotencyKey tenantID idempotencyKey =>
              (* Handle duplicate idempotency key (race condition) *)
              let* existing := wrap "failed to fetch existing job"
                (GetJobByTenantAndIdempotencyKey tenantID idempotencyKey) in
              match existing with
              | Some existing => ret existing
              | None => failed
              end
          | _ => failed
          end
      end
  end.

(** ** Package [service]: [WorkerService] *)

(** [func (s *WorkerService) handleJobFailure]; a failing store call is
    logged and the function returns. *)
Definition handleJobFailure (job : Job) (failureReason : string) : M unit :=
  (* Check if we should retry *)
  if RetryCount job <? MaxRetries job then
    let* r := try (IncrementRetryCount (ID job)) in
    match r with
    | Err _ => ret tt
    | Ok _ =>
        let* r := try (UpdateJobStatus (ID job) StatusPending) in
        match r with
        | Err _ => ret tt
        | Ok _ => IncrementRetriedJobs
        end
    end
  else
    (* Max retries exceeded, move to DLQ *)
    let* r := try (MoveToDeadLetterQueue job
                     ("max retries exceeded: " +:+ failureReason)) in
    match r with
    | Err _ => ret tt
    | Ok _ => IncrementFailedJobs
    end.

(** [func (s *WorkerService) processJob] *)
Definition processJob (job : Job) : M unit :=
  (* Simulate processing *)
  time_Sleep (2 * time.Second) ;;
  (* Check if job should fail *)
  if String.eqb (Payload job) "fail" then
    handleJobFailure job "payload is 'fail'"
  else
    let* r := try (UpdateJobStatus (ID job) StatusDone) in
    match r with
    | Err _ => ret tt
    | Ok _ => IncrementCompletedJobs
    end.

(** One turn of the loop of [func (s *WorkerService) ProcessJobs], when the
    context is not done. *)
Definition ProcessJobs_iteration (leaseDuration : time.Duration) : M unit :=
  let* r := try (LeaseJob leaseDuration) in
  match r with
  | Err _ => time_Sleep (1 * time.Second)
  | Ok None => time_Sleep (1 * time.Second)   (* No jobs available *)
  | Ok (Some job) => processJob job
  end.

(** [n] turns of that loop. *)
Fixpoint ProcessJobs_turns (n : nat) (leaseDuration : time.Duration) : M unit :=
  match n with
  | O => ret tt
  | S n' => ProcessJobs_iteration leaseDuration ;;
            ProcessJobs_turns n' leaseDuration
  end.

(** ** Worlds to run the code on *)

(** The API node of [cmd/api] and the worker of [cmd/worker] over a fresh
    database: empty tables, [NewRateLimiter(5, 10)], [NewMetrics()]. *)
Definition fresh_world (start : time.Time) (us : list string) : World :=
  mkWorld [] [] None [] start [] us (NewRateLimiter 5 10) NewMetrics.

(** Tenant ["t1"] has used [count] submissions of a window that ends at
    second 100, and the clock reads [now]. *)
Definition world_in_window (count : Z) (now : time.Time) : World :=
  mkWorld [] [] None [] now [] []
    (mkRateLimiter 5 10
       {[ "t1"%string := mkSubmissionWindow count (time.FromUnix 100) ]})
    NewMetrics.


(** Two rows for the lease: ["a"], pending, created at second 7; ["b"],
    running since second 3 under a lease that ran out at second 33. *)
Definition pending_row_a : jobs_row :=
  mkJobsRow "a" "t1" None "hello" StatusPending 3 0 None None 7 7.

Definition expired_row_b : jobs_row :=
  mkJobsRow "b" "t1" None "fail" StatusRunning 3 1 (Some 3) (Some 33) 3 3.

(** A worker's world at second 50 with these two rows. *)
Definition world_two_rows : World :=
  mkWorld [pending_row_a; expired_row_b] [] None [] (time.FromUnix 50) [] []
    (NewRateLimiter 5 10) NewMetrics.

(** No job id is live in both tables. *)
Definition live_disjoint (w : World) : Prop :=
  forall x d, In x (jobs w) -> In d (dead_letter_jobs w) -> j_id x <> d_job_id d.

(** The second of two successive readings of the clock. *)
Definition next_next_now (w : World) : time.Time :=
  next_now w + Z.of_N (hd 0%N (tl (ticks w))).

(** The job a worker holds after leasing row ["b"] at second 50. *)
Definition job_b : Job :=
  leased_job (time.FromUnix 50) (time.FromUnix 80) expired_row_b.

(** A job of [max_retries = 0] whose payload is ["fail"], as leased at
    second 50, and the worker's world that holds its row. *)
Definition row_no_retry : jobs_row :=
  mkJobsRow "c" "t1" None "fail" StatusRunning 0 0 (Some 50) (Some 80) 40 50.

Definition job_no_retry : Job :=
  leased_job (time.FromUnix 50) (time.FromUnix 80) row_no_retry.

Definition world_no_retry : World :=
  mkWorld [row_no_retry] [] None [] (time.FromUnix 50) [] []
    (NewRateLimiter 5 10) NewMetrics.

(** The columns of a row that tell whose lease it carries. *)
Definition lease_columns (x : jobs_row) : string * option Z * option Z :=
  (j_id x, j_leased_at x, j_lease_expires_at x).

(** A worker's world at second 50 whose only row is pending. *)
Definition world_one_pending : World :=
  mkWorld [pending_row_a] [] None [] (time.FromUnix 50) [] []
    (NewRateLimiter 5 10) NewMetrics.

(** Row ["a"] once leased at second 50 for 30 seconds and completed at
    second 52. *)
Definition done_row_a : jobs_row :=
  mkJobsRow "a" "t1" None "hello" StatusDone 3 0 (Some 50) (Some 80) 7 52.

(** A job with a key of its own whose id is that of row ["a"]. *)
Definition job_same_id : Job :=
  mkJob "a" "t2" "k" "other" StatusPending 3 0 None None 0 0.

(** An operation that leaves a part [f] of the world as it is. *)
Definition keeps {A B : Type} (f : World -> B) (m : M A) : Prop :=
  forall w, f (snd (m w)) = f w.

(** The tables and the coming uuids. *)
Definition store (w : World)
  : list jobs_row * list dead_letter_jobs_row * list string :=
  (jobs w, dead_letter_jobs w, uuids w).

(** The two submissions of the spec's idempotency scenario, and the API
    node's world after the first of them. *)
Definition request_A : CreateJobRequest :=
  mkCreateJobRequest "t1" "k1" "A" None.

Definition request_B : CreateJobRequest :=
  mkCreateJobRequest "t1" "k1" "B" None.

Definition world_after_A : World :=
  snd (CreateJob request_A
         (fresh_world (time.FromUnix 5) ["id-1"; "id-2"]%string)).

(** ** The nodes at work *)

(** The bound on retries. *)
Definition retry_bounded (x : jobs_row) : Prop :=
  0 <= j_retry_count x <= j_max_retries x.

(** A request whose [max_retries] is absent or not negative. *)
Definition nonneg_retries (req : CreateJobRequest) : Prop :=
  match ReqMaxRetries req with
  | Some m => 0 <= m
  | None => True
  end.

(** One step of an API node and a worker over the store: a submission
    (of a request that [allowed] holds of), one turn of the worker's loop,
    or the environment changing anything but the tables. *)
Inductive node_step (allowed : CreateJobRequest -> Prop) : World -> World -> Prop :=
| step_submit (req : CreateJobRequest) (w : World) :
    allowed req -> node_step allowed w (snd (CreateJob req w))
| step_work (leaseDuration : time.Duration) (w : World) :
    node_step allowed w (snd (ProcessJobs_iteration leaseDuration w))
| step_env (w w' : World) :
    jobs w' = jobs w -> dead_letter_jobs w' = dead_letter_jobs w ->
    node_step allowed w w'.

(** The worlds such steps lead to from empty tables. *)
Inductive node_reachable (allowed : CreateJobRequest -> Prop) : World -> Prop :=
| node_start (w : World) :
    jobs w = [] -> dead_letter_jobs w = [] -> node_reachable allowed w
| node_next (w w' : World) :
    node_reachable allowed w -> node_step allowed w w' -> node_reachable allowed w'.

(** The id that the next call of [uuid.New] gives. *)
Definition next_uuid (w : World) : string :=
  hd "00000000-0000-0000-0000-000000000000"%string (uuids w).

(** One operation on the store by any process, in any order: a submission
    (a uuid is new: no dead-letter record is of that job id), or any call
    of the repository that a worker makes, with any argument; or the
    environment changing anything but the tables. *)
Inductive store_step : World -> World -> Prop :=
| store_CreateJob (req : CreateJobRequest) (w : World) :
    (forall d, In d (dead_letter_jobs w) -> d_job_id d <> next_uuid w) ->
    store_step w (snd (CreateJob req w))
| store_LeaseJob (leaseDuration : time.Duration) (w : World) :
    store_step w (snd (LeaseJob leaseDuration w))
| store_UpdateJobStatus (id : string) (status : JobStatus) (w : World) :
    store_step w (snd (UpdateJobStatus id status w))
| store_IncrementRetryCount (id : string) (w : World) :
    store_step w (snd (IncrementRetryCount id w))
| store_MoveToDeadLetterQueue (job : Job) (failureReason : string) (w : World) :
    store_step w (snd (MoveToDeadLetterQueue job failureReason w))
| store_env (w w' : World) :
    jobs w' = jobs w -> dead_letter_jobs w' = dead_letter_jobs w ->
    store_step w w'.

Inductive store_reachable : World -> Prop :=
| store_start (w : World) :
    jobs w = [] -> dead_letter_jobs w = [] -> store_reachable w
| store_next (w w' : World) :
    store_reachable w -> store_step w w' -> store_reachable w'.

(** A submission with [max_retries = -1]. *)
Definition request_negative : CreateJobRequest :=
  mkCreateJobRequest "t1" "" "hello" (Some (-1)).

(** Rows of one id are one row: [id] is the primary key. *)
Definition primary_key (t : list jobs_row) : Prop :=
  forall a b, In a t -> In b t -> j_id a = j_id b -> a = b.

(** The invariant of table [jobs] behind the bound on retries. *)
Definition bounded_table (t : list jobs_row) : Prop :=
  primary_key t /\ forall x, In x t -> retry_bounded x.

(** The API node's world after the submission with [max_retries = -1],
    and the row that submission stores. *)
Definition world_negative : World :=
  snd (CreateJob request_negative (fresh_world (time.FromUnix 5) ["id-1"%string])).

Definition row_negative : jobs_row :=
  mkJobsRow "id-1" "t1" None "hello" StatusPending (-1) 0 None None 5 5.

(** A failing job that may be retried once: the request, and its row
    after the submission at second 5 and one failure handled. *)
Definition request_retry_once : CreateJobRequest :=
  mkCreateJobRequest "t1" "" "fail" (Some 1).

Definition row_retried : jobs_row :=
  mkJobsRow "id-1" "t1" None "fail" StatusPending 1 1 (Some 5) (Some 35) 5 7.

(** The spec's scenario of a retry followed by the dead-letter queue: a
    failing job of [max_retries = 2], and the worker's world after its
    submission and [n] turns of the loop. *)
Definition request_retry_twice : CreateJobRequest :=
  mkCreateJobRequest "t1" "" "fail" (Some 2).

Definition world_after_turns (n : nat) : World :=
  snd (ProcessJobs_turns n (30 * time.Second)
         (snd (CreateJob request_retry_twice
                 (fresh_world (time.FromUnix 5) ["id-1"%string])))).

(** [n] submissions of tenant ["t2"] in a row. *)
Fixpoint submissions (n : nat) (w : World) : list (result unit) * World :=
  match n with
  | O => ([], w)
  | S n' =>
      let (r, w1) := CheckSubmissionRate "t2" w in
      let (rs, w2) := submissions n' w1 in
      (r :: rs, w2)
  end.

(** ** Package [repository]: the queries *)

(** [models.DeadLetterJob] *)
Record DeadLetterJob := mkDeadLetterJob {
  DeadLetterID : string;
  JobID : string;
  DeadLetterTenantID : string;
  DeadLetterPayload : string;
  FailureReason : string;
  FailedAt : time.Time
}.

(** What [Scan] and the line after it make of a dead-letter row. *)
Definition scan_dead_letter (d : dead_letter_jobs_row) : DeadLetterJob :=
  mkDeadLetterJob (d_id d) (d_job_id d) (d_tenant_id d) (d_payload d)
    (d_failure_reason d) (time.FromUnix (d_failed_at d)).

(** [ORDER BY key ASC]: rows by ascending key, rows of equal key in the
    order of the table. *)
Fixpoint insert_by {A : Type} (key : A -> Z) (a : A) (l : list A) : list A :=
  match l with
  | [] => [a]
  | b :: l' => if key a <=? key b then a :: l else b :: insert_by key a l'
  end.

Fixpoint order_by {A : Type} (key : A -> Z) (l : list A) : list A :=
  match l with
  | [] => []
  | a :: l' => insert_by key a (order_by key l')
  end.

(** [SELECT ... FROM jobs WHERE status = ? ORDER BY created_at ASC] *)
Definition select_by_status (status : JobStatus) (t : list jobs_row)
  : list jobs_row :=
  order_by j_created_at
    (List.filter (fun x => JobStatus_eqb (j_status x) status) t).

(** [SELECT ... FROM dead_letter_jobs ORDER BY failed_at DESC] *)
Definition select_dead_letters (t : list dead_letter_jobs_row)
  : list dead_letter_jobs_row :=
  order_by (fun d => - d_failed_at d) t.

(** A statement that reads table [dead_letter_jobs]. *)
Definition db_Query_dlq {A} (q : list dead_letter_jobs_row -> A) : M A :=
  driver ;; fun w => (Ok (q (dead_letter_jobs w)), w).

(** A call that ends in [(value, nil)], in one of the two errors that the
    callers compare by identity, or in any other error. *)
Inductive sentinel : Set :=
| sql_ErrNoRows       (* database/sql: "sql: no rows in result set" *)
| ErrJobNotFound      (* service: "job not found" *).

Inductive outcome (A : Type) : Type :=
| Returned (a : A)
| Sentinel (s : sentinel)
| Failed (e : error).
Arguments Returned {A} a.
Arguments Sentinel {A} s.
Arguments Failed {A} e.

(** [errors.New(msg)] of a sentinel, when it ends up wrapped. *)
Definition sentinel_error (s : sentinel) : error :=
  match s with
  | sql_ErrNoRows => fmt_Errorf "sql: no rows in result set"
  | ErrJobNotFound => fmt_Errorf "job not found"
  end.

(** [func (r *SQLiteRepository) GetJobByID] *)
Definition GetJobByID (id : string) : World -> outcome Job * World :=
  fun w =>
    match db_Query (List.find (fun x => String.eqb (j_id x) id)) w with
    | (Ok (Some x), w') => (Returned (scan_job x), w')
    | (Ok None, w') => (Sentinel sql_ErrNoRows, w')
    | (Err e, w') => (Failed (fmt_Errorf_w "failed to get job" e), w')
    end.

(** [func (r *SQLiteRepository) ListJobsByStatus]: the query, the loop over
    the rows, which scans each one, and [rows.Err()]. *)
Definition repo_ListJobsByStatus (status : JobStatus) : M (list Job) :=
  let* rows := wrap "failed to query jobs" (db_Query (select_by_status status)) in
  let jobs := map scan_job rows in
  wrap "failed to iterate jobs" driver ;;
  ret jobs.

(** [func (r *SQLiteRepository) ListDeadLetterJobs] *)
Definition repo_ListDeadLetterJobs : M (list DeadLetterJob) :=
  let* rows := wrap "failed to query dead letter jobs"
                 (db_Query_dlq select_dead_letters) in
  let dlqJobs := map scan_dead_letter rows in
  wrap "failed to iterate dead letter jobs" driver ;;
  ret dlqJobs.

(** [func (r *SQLiteRepository) GetTotalJobsCount] *)
Definition GetTotalJobsCount : M Z :=
  let* jobsCount := wrap "failed to count jobs"
                      (db_Query (fun t => Z.of_nat (length t))) in
  let* dlqCount := wrap "failed to count DLQ jobs"
                     (db_Query_dlq (fun t => Z.of_nat (length t))) in
  ret (jobsCount + dlqCount).

(** [func (r *SQLiteRepository) GetCompletedJobsCount] *)
Definition GetCompletedJobsCount : M Z :=
  wrap "failed to count completed jobs"
    (db_Query (fun t => Z.of_nat (length
       (List.filter (fun x => JobStatus_eqb (j_status x) StatusDone) t)))).

(** [func (r *SQLiteRepository) GetFailedJobsCount] *)
Definition GetFailedJobsCount : M Z :=
  let* failedCount := wrap "failed to count failed jobs"
    (db_Query (fun t => Z.of_nat (length
       (List.filter (fun x => JobStatus_eqb (j_status x) StatusFailed) t)))) in
  let* dlqCount := wrap "failed to count DLQ jobs"
                     (db_Query_dlq (fun t => Z.of_nat (length t))) in
  ret (failedCount + dlqCount).

(** [func (r *SQLiteRepository) GetDeadLetterQueueCount] *)
Definition GetDeadLetterQueueCount : M Z :=
  wrap "failed to count DLQ jobs"
    (db_Query_dlq (fun t => Z.of_nat (length t))).

(** ** Package [service]: the queries of [JobService] *)

(** [func (s *JobService) GetJob]; [errors.Is(err, sql.ErrNoRows)] holds of
    that sentinel only. *)
Definition GetJob (id : string) : World -> outcome Job * World :=
  fun w =>
    match GetJobByID id w with
    | (Returned job, w') => (Returned job, w')
    | (Sentinel sql_ErrNoRows, w') => (Sentinel ErrJobNotFound, w')
    | (Sentinel s, w') =>
        (Failed (fmt_Errorf_w "failed to get job" (sentinel_error s)), w')
    | (Failed e, w') => (Failed (fmt_Errorf_w "failed to get job" e), w')
    end.

(** [func (s *JobService) ListJobsByStatus] *)
Definition ListJobsByStatus (status : JobStatus) : M (list Job) :=
  wrap "failed to list jobs" (repo_ListJobsByStatus status).

(** [func (s *JobService) ListDeadLetterJobs] *)
Definition ListDeadLetterJobs : M (list DeadLetterJob) :=
  wrap "failed to list dead letter jobs" repo_ListDeadLetterJobs.

(** A store with three jobs of tenant ["t1"], created at seconds 9, 4 and
    6, the second one done, and two dead-letter records, of seconds 20 and
    30. *)
Definition world_listing : World :=
  mkWorld
    [mkJobsRow "j9" "t1" None "p" StatusPending 3 0 None None 9 9;
     mkJobsRow "j4" "t1" None "p" StatusDone 3 0 (Some 5) (Some 35) 4 7;
     mkJobsRow "j6" "t1" (Some "k") "p" StatusPending 3 1 (Some 7) (Some 37) 6 9]
    [mkDeadLetterRow "dlq_a_20" "a" "t1" "fail" "max retries exceeded: x" 20;
     mkDeadLetterRow "dlq_b_30" "b" "t1" "fail" "max retries exceeded: x" 30]
    None [] (time.FromUnix 50) [] [] (NewRateLimiter 5 10) NewMetrics.

(** The tables, the coming uuids and the counters. *)
Definition store_m (w : World)
  : list jobs_row * list dead_letter_jobs_row * list string * Metrics :=
  (jobs w, dead_letter_jobs w, uuids w, metrics w).

(** The job that [CreateJob] builds for a request, under id [id]. *)
Definition new_job (req : CreateJobRequest) (id : string) : Job :=
  mkJob id (ReqTenantID req) (ReqIdempotencyKey req) (ReqPayload req)
    StatusPending
    (match ReqMaxRetries req with Some m => m | None => 3 end)
    0 None None 0 0.

(** No two rows under one id. *)
Definition unique_ids (t : list jobs_row) : Prop := List.NoDup (map j_id t).


(** A job as it reads once stored: the two times cut to whole seconds. *)
Definition stored_job (job : Job) : Job :=
  mkJob (ID job) (TenantID job) (IdempotencyKey job) (Payload job)
    (Status job) (MaxRetries job) (RetryCount job)
    (LeasedAt job) (LeaseExpiresAt job)
    (time.FromUnix (time.Unix (CreatedAt job)))
    (time.FromUnix (time.Unix (UpdatedAt job))).

(** The API node's world at second 5 and a half, over a fresh store. *)
Definition world_api : World :=
  fresh_world (5 * time.Second + 500000000) ["id-1"; "id-2"]%string.

(** The rate limiters that calls of [CheckSubmissionRate], by any tenants
    at any times, lead to from [NewRateLimiter(a, b)]. *)
Inductive limiter_reachable (a b : Z) : RateLimiter -> Prop :=
| limiter_new : limiter_reachable a b (NewRateLimiter a b)
| limiter_check (tenantID : string) (w : World) :
    limiter_reachable a b (rl w) ->
    limiter_reachable a b (rl (snd (CheckSubmissionRate tenantID w))).

(** A worker's world half a second after second 80, with one row whose
    lease ended at second 80. *)
Definition row_lease_ended : jobs_row :=
  mkJobsRow "b" "t1" None "fail" StatusRunning 3 1 (Some 50) (Some 80) 3 50.

Definition world_lease_just_ended : World :=
  mkWorld [row_lease_ended] [] None [] (80 * time.Second + 500000000) [] []
    (NewRateLimiter 5 10) NewMetrics.

(** ** Several workers

    The store with the jobs that workers hold: a worker holds the job
    [LeaseJob] returned to it until its [processJob] has run.  Workers
    take their steps in any order; the one schedule left out is a lease of
    a job that another worker still holds, which takes a lease that runs
    out before the holder is done. *)
Inductive fleet_step : World * list Job -> World * list Job -> Prop :=
| fleet_submit (req : CreateJobRequest) (w : World) (held : list Job) :
    nonneg_retries req ->
    fleet_step (w, held) (snd (CreateJob req w), held)
| fleet_lease (leaseDuration : time.Duration) (w w1 : World) (job : Job)
    (held : list Job) :
    LeaseJob leaseDuration w = (Ok (Some job), w1) ->
    (forall h, In h held -> ID h <> ID job) ->
    fleet_step (w, held) (w1, job :: held)
| fleet_idle (leaseDuration : time.Duration) (w : World) (held : list Job) :
    (forall job, fst (LeaseJob leaseDuration w) <> Ok (Some job)) ->
    fleet_step (w, held) (snd (LeaseJob leaseDuration w), held)
| fleet_process (job : Job) (w : World) (held : list Job) :
    In job held ->
    fleet_step (w, held)
      (snd (processJob job w),
       List.filter (fun h => negb (String.eqb (ID h) (ID job))) held)
| fleet_env (w w' : World) (held : list Job) :
    jobs w' = jobs w -> dead_letter_jobs w' = dead_letter_jobs w ->
    fleet_step (w, held) (w', held).

Inductive fleet_reachable : World * list Job -> Prop :=
| fleet_start (w : World) :
    jobs w = [] -> dead_letter_jobs w = [] -> fleet_reachable (w, [])
| fleet_next (s s' : World * list Job) :
    fleet_reachable s -> fleet_step s s' -> fleet_reachable s'.

(** The invariant of the store and the held jobs behind the bound on
    retries: a held job has a row, and the rows of its id have its
    [retry_count] and [max_retries]. *)
Definition held_current (w : World) (held : list Job) : Prop :=
  forall h, In h held ->
    (exists x, In x (jobs w) /\ j_id x = ID h) /\
    forall x, In x (jobs w) -> j_id x = ID h ->
      j_retry_count x = RetryCount h /\ j_max_retries x = MaxRetries h.

(** Two workers on one job.  A failing job of [max_retries = 1] is
    submitted at second 5 and leased by a first worker, for 30 seconds;
    that worker stalls; at second 41 a second worker leases the job again;
    then each of them handles the failure of its copy. *)
Definition world_submitted : World :=
  snd (CreateJob request_retry_once
         (fresh_world (time.FromUnix 5) ["id-1"%string])).

Definition job_first_lease : Job :=
  mkJob "id-1" "t1" "" "fail" StatusRunning 1 0
    (Some (time.FromUnix 5)) (Some (time.FromUnix 35))
    (time.FromUnix 5) (time.FromUnix 5).

Definition world_first_lease : World :=
  snd (LeaseJob (30 * time.Second) world_submitted).

Definition job_second_lease : Job :=
  mkJob "id-1" "t1" "" "fail" StatusRunning 1 0
    (Some (time.FromUnix 41)) (Some (time.FromUnix 71))
    (time.FromUnix 5) (time.FromUnix 41).

Definition world_second_lease : World :=
  snd (LeaseJob (30 * time.Second)
         (slept (36 * time.Second) world_first_lease)).

Definition world_two_workers : World :=
  snd (processJob job_second_lease
         (snd (processJob job_first_lease world_second_lease))).

Definition row_two_workers : jobs_row :=
  mkJobsRow "id-1" "t1" None "fail" StatusPending 1 2 (Some 41) (Some 71) 5 45.

(** An API node whose limiter allows one running job per tenant, over a
    store in which tenant ["t1"] has one running job. *)
Definition world_at_cap : World :=
  mkWorld [row_no_retry] [] None [] (time.FromUnix 60) [] ["id-9"%string]
    (NewRateLimiter 1 10) NewMetrics.

(** * Properties *)

(** ** The spec's scenarios, run *)

(** A failing job of [max_retries = 2] is tried three times: two retries,
    then the dead-letter queue. *)
Example retry_then_dead_letter :
  map j_retry_count (jobs (world_after_turns 1)) = [1] /\
  map j_retry_count (jobs (world_after_turns 2)) = [2] /\
  jobs (world_after_turns 3) = [] /\
  map d_job_id (dead_letter_jobs (world_after_turns 3)) = ["id-1"%string] /\
  metrics (world_after_turns 3) = mkMetrics 1 0 1 2.
Proof. repeat split; vm_compute; reflexivity. Qed.

(** Ten submissions of a tenant within the minute pass, the eleventh is
    refused; 61 seconds later the next one passes. *)
Example eleventh_submission_refused :
  fst (submissions 11 (fresh_world (time.FromUnix 5) []))
  = repeat (Ok tt) 10 ++ [Err ErrRateLimitExceeded] /\
  fst (CheckSubmissionRate "t2"
         (slept (61 * time.Second)
            (snd (submissions 11 (fresh_world (time.FromUnix 5) [])))))
  = Ok tt.
Proof. split; vm_compute; reflexivity. Qed.

(** ** Integers and time *)

Lemma int64_inc_small (x : Z) :
  - 2 ^ 63 <= x < 2 ^ 63 - 1 -> int64_inc x = x + 1.
Proof.
  intros Hx. unfold int64_inc, int64_wrap.
  rewrite Z.mod_small; lia.
Qed.

Lemma After_spec (t u : time.Time) : time.After t u = true <-> u < t.
Proof. unfold time.After. apply Z.ltb_lt. Qed.

Lemma After_false (t u : time.Time) : time.After t u = false <-> t <= u.
Proof. unfold time.After. apply Z.ltb_ge. Qed.

(** ** The rate limiter *)

Section CheckSubmissionRate.

Variable tenantID : string.
Variable w : World.

Lemma CheckSubmissionRate_first :
  submissionWindows (rl w) !! tenantID = None ->
  CheckSubmissionRate tenantID w =
    (Ok tt,
     set_windows
       (<[tenantID := mkSubmissionWindow 1 (time.Add (next_now w) time.Minute)]>
          (submissionWindows (rl w)))
       (set_clock (next_now w) (tl (ticks w)) w)).
Proof.
  unfold CheckSubmissionRate, bind, time_Now; simpl.
  intros ->. reflexivity.
Qed.

Lemma CheckSubmissionRate_elapsed (win : submissionWindow) :
  submissionWindows (rl w) !! tenantID = Some win ->
  windowEnd win < next_now w ->
  CheckSubmissionRate tenantID w =
    (Ok tt,
     set_windows
       (<[tenantID := mkSubmissionWindow 1 (time.Add (next_now w) time.Minute)]>
          (submissionWindows (rl w)))
       (set_clock (next_now w) (tl (ticks w)) w)).
Proof.
  unfold CheckSubmissionRate, bind, time_Now; simpl.
  intros -> Hlt. apply After_spec in Hlt. rewrite Hlt. reflexivity.
Qed.

Lemma CheckSubmissionRate_full (win : submissionWindow) :
  submissionWindows (rl w) !! tenantID = Some win ->
  next_now w <= windowEnd win ->
  maxSubmissionsPerMinute (rl w) <= count win ->
  CheckSubmissionRate tenantID w =
    (Err ErrRateLimitExceeded, set_clock (next_now w) (tl (ticks w)) w).
Proof.
  unfold CheckSubmissionRate, bind, time_Now; simpl.
  intros -> Hle Hmax. apply After_false in Hle. rewrite Hle.
  apply Z.leb_le in Hmax. rewrite Hmax. reflexivity.
Qed.

Lemma CheckSubmissionRate_room (win : submissionWindow) :
  submissionWindows (rl w) !! tenantID = Some win ->
  next_now w <= windowEnd win ->
  count win < maxSubmissionsPerMinute (rl w) ->
  CheckSubmissionRate tenantID w =
    (Ok tt,
     set_windows
       (<[tenantID := mkSubmissionWindow (int64_inc (count win))
                        (windowEnd win)]>
          (submissionWindows (rl w)))
       (set_clock (next_now w) (tl (ticks w)) w)).
Proof.
  unfold CheckSubmissionRate, bind, time_Now; simpl.
  intros -> Hle Hmax. apply After_false in Hle. rewrite Hle.
  apply Z.leb_gt in Hmax. rewrite Hmax. reflexivity.
Qed.

End CheckSubmissionRate.

(** C5, as the code has it.  [CheckSubmissionRate] keeps a fixed window of
    one minute per tenant.  Without a window, or when the clock reads
    strictly later than the window's end, it opens a window that ends one
    minute after the reading, with count 1, and succeeds.  Up to and
    including the instant of the window's end the window is still the
    current one: the call fails with [ErrRateLimitExceeded] and changes
    no window when the count has reached [maxSubmissionsPerMinute], and
    otherwise it increments the count, keeps the window's end and
    succeeds. *)
Theorem CheckSubmissionRate_fixed_window (tenantID : string) (w : World) :
  let now := next_now w in
  let windows := submissionWindows (rl w) in
  let res := CheckSubmissionRate tenantID w in
  let windows' := submissionWindows (rl (snd res)) in
  ((windows !! tenantID = None \/
    exists win, windows !! tenantID = Some win /\ windowEnd win < now) ->
   fst res = Ok tt /\
   windows' = <[tenantID := mkSubmissionWindow 1 (now + 60 * 1000000000)]> windows)
  /\
  (forall win, windows !! tenantID = Some win -> now <= windowEnd win ->
     (maxSubmissionsPerMinute (rl w) <= count win ->
      fst res = Err ErrRateLimitExceeded /\ windows' = windows) /\
     (count win < maxSubmissionsPerMinute (rl w) ->
      fst res = Ok tt /\
      windows' = <[tenantID := mkSubmissionWindow (int64_inc (count win))
                                 (windowEnd win)]> windows)).
Proof.
  cbv zeta. split.
  - intros [Hnone | [win [Hsome Hlt]]].
    + rewrite (CheckSubmissionRate_first _ _ Hnone). split; reflexivity.
    + rewrite (CheckSubmissionRate_elapsed _ _ _ Hsome Hlt). split; reflexivity.
  - intros win Hsome Hle. split; intros Hcount.
    + rewrite (CheckSubmissionRate_full _ _ _ Hsome Hle Hcount).
      split; reflexivity.
    + rewrite (CheckSubmissionRate_room _ _ _ Hsome Hle Hcount).
      split; reflexivity.
Qed.

(** The theorem at the instant of the window's end, with room left: the
    ninth submission of the window is counted in the same window. *)
Lemma CheckSubmissionRate_fixed_window_witness :
  fst (CheckSubmissionRate "t1" (world_in_window 8 (time.FromUnix 100))) = Ok tt /\
  submissionWindows
    (rl (snd (CheckSubmissionRate "t1" (world_in_window 8 (time.FromUnix 100)))))
  = <["t1"%string := mkSubmissionWindow (int64_inc 8) (time.FromUnix 100)]>
      (submissionWindows (rl (world_in_window 8 (time.FromUnix 100)))).
Proof.
  refine (proj2
    (proj2 (CheckSubmissionRate_fixed_window "t1"
              (world_in_window 8 (time.FromUnix 100)))
       (mkSubmissionWindow 8 (time.FromUnix 100)) _ _) _).
  - reflexivity.
  - vm_compute. discriminate.
  - simpl. lia.
Defined.

(** C5, the boundary as the claim has it, fails: a call at the very
    instant of the window's end, the limit of 10 being used up, is
    rejected and no new window is opened. *)
Lemma CheckSubmissionRate_at_window_end_rejected :
  submissionWindows (rl (world_in_window 10 (time.FromUnix 100))) !! "t1"%string
    = Some (mkSubmissionWindow 10 (time.FromUnix 100)) /\
  next_now (world_in_window 10 (time.FromUnix 100)) = time.FromUnix 100 /\
  fst (CheckSubmissionRate "t1" (world_in_window 10 (time.FromUnix 100)))
    = Err ErrRateLimitExceeded /\
  submissionWindows
    (rl (snd (CheckSubmissionRate "t1" (world_in_window 10 (time.FromUnix 100)))))
    !! "t1"%string = Some (mkSubmissionWindow 10 (time.FromUnix 100)).
Proof. repeat split; vm_compute; reflexivity. Qed.

(** ** The driver's oracle *)

Lemma quiet_1 (w : World) : quiet 1 w -> hd false (faults w) = false.
Proof.
  intros H. specialize (H 0%nat ltac:(lia)).
  destruct (faults w); exact H.
Qed.

Lemma quiet_2 (w : World) : quiet 2 w -> hd false (tl (faults w)) = false.
Proof.
  intros H. specialize (H 1%nat ltac:(lia)).
  destruct (faults w) as [|? [|? ?]]; exact H.
Qed.

Lemma quiet_3 (w : World) : quiet 3 w -> hd false (tl (tl (faults w))) = false.
Proof.
  intros H. specialize (H 2%nat ltac:(lia)).
  destruct (faults w) as [|? [|? [|? ?]]]; exact H.
Qed.

Lemma quiet_4 (w : World) :
  quiet 4 w -> hd false (tl (tl (tl (faults w)))) = false.
Proof.
  intros H. specialize (H 3%nat ltac:(lia)).
  destruct (faults w) as [|? [|? [|? [|? ?]]]]; exact H.
Qed.

Lemma quiet_le (n m : nat) (w : World) : (m <= n)%nat -> quiet n w -> quiet m w.
Proof. intros Hle H i Hi. apply H. lia. Qed.

Lemma quiet_nil (n : nat) (w : World) : faults w = [] -> quiet n w.
Proof. intros H i _. rewrite H. destruct i; reflexivity. Qed.

(** ** Selecting the row to lease *)

Lemma oldest_In (t : list jobs_row) (x : jobs_row) :
  oldest t = Some x -> In x t.
Proof.
  revert x. induction t as [|a t IH]; simpl; intros x H; [discriminate|].
  destruct (oldest t) as [y|].
  - destruct (j_created_at y <? j_created_at a); inversion H; subst; auto.
  - inversion H; auto.
Qed.

Lemma oldest_least (t : list jobs_row) (x : jobs_row) :
  oldest t = Some x -> forall y, In y t -> j_created_at x <= j_created_at y.
Proof.
  revert x. induction t as [|a t IH]; simpl; intros x H y Hy; [contradiction|].
  destruct (oldest t) as [z|] eqn:Hz.
  - specialize (IH z eq_refl).
    destruct (j_created_at z <? j_created_at a) eqn:Hlt;
      inversion H; subst; clear H.
    + apply Z.ltb_lt in Hlt. destruct Hy as [<-|Hy]; [lia | auto].
    + apply Z.ltb_ge in Hlt. destruct Hy as [<-|Hy]; [lia|].
      specialize (IH y Hy). lia.
  - inversion H; subst. destruct Hy as [<-|Hy]; [lia|].
    destruct t; [contradiction | simpl in Hz].
    destruct (oldest t); [destruct (_ <? _)|]; discriminate.
Qed.

Lemma oldest_None (t : list jobs_row) : oldest t = None -> t = [].
Proof.
  destruct t as [|a t]; simpl; [reflexivity|].
  destruct (oldest t); [destruct (_ <? _)|]; discriminate.
Qed.

Lemma produced_In (nowUnix : Z) (t : list jobs_row) (y : jobs_row) :
  In y (List.filter pending t ++ List.filter (lease_expired nowUnix) t) <->
  In y t /\ leasable nowUnix y = true.
Proof.
  change (leasable nowUnix y) with (pending y || lease_expired nowUnix y).
  rewrite in_app_iff, !filter_In, orb_true_iff. tauto.
Qed.

Lemma select_leasable_Some (nowUnix : Z) (t : list jobs_row) (x : jobs_row) :
  select_leasable nowUnix t = Some x ->
  In x t /\ leasable nowUnix x = true /\
  forall y, In y t -> leasable nowUnix y = true ->
            j_created_at x <= j_created_at y.
Proof.
  unfold select_leasable. intros H.
  pose proof (oldest_In _ _ H) as Hin. apply produced_In in Hin.
  destruct Hin as [Hin Hl]. repeat split; trivial.
  intros y Hy Hly. apply (oldest_least _ _ H). apply produced_In. auto.
Qed.

Lemma select_leasable_None (nowUnix : Z) (t : list jobs_row) :
  select_leasable nowUnix t = None ->
  forall y, In y t -> leasable nowUnix y = false.
Proof.
  unfold select_leasable. intros H y Hy.
  apply oldest_None in H.
  destruct (leasable nowUnix y) eqn:Hl; [|reflexivity].
  assert (In y (List.filter pending t ++ List.filter (lease_expired nowUnix) t))
    as Hf by (apply produced_In; auto).
  rewrite H in Hf. contradiction.
Qed.

(** The [WHERE] clause of [LeaseJob], spelled out. *)
Lemma leasable_iff (nowUnix : Z) (y : jobs_row) :
  leasable nowUnix y = true <->
  j_status y = StatusPending \/
  (j_status y = StatusRunning /\
   exists e, j_lease_expires_at y = Some e /\ e < nowUnix).
Proof.
  unfold leasable. split.
  - destruct (j_status y); simpl; try discriminate; [left; reflexivity|].
    destruct (j_lease_expires_at y) as [e|]; [|discriminate].
    intros H. apply Z.ltb_lt in H. right. eauto.
  - intros [-> | (-> & e & -> & He)]; [reflexivity|].
    simpl. apply Z.ltb_lt. exact He.
Qed.


Lemma update_where_id_In (id : string) (f : jobs_row -> jobs_row)
  (t : list jobs_row) (x : jobs_row) :
  In x t -> j_id x = id -> In (f x) (update_where_id id f t).
Proof.
  intros Hin Hid. unfold update_where_id.
  apply in_map_iff. exists x. split; [|assumption].
  rewrite Hid, String.eqb_refl. reflexivity.
Qed.

Lemma update_where_id_other (id : string) (f : jobs_row -> jobs_row)
  (t : list jobs_row) (x : jobs_row) :
  In x t -> j_id x <> id -> In x (update_where_id id f t).
Proof.
  intros Hin Hid. unfold update_where_id.
  apply in_map_iff. exists x. split; [|assumption].
  apply String.eqb_neq in Hid. rewrite Hid. reflexivity.
Qed.

Lemma update_where_id_absent (id : string) (f : jobs_row -> jobs_row)
  (t : list jobs_row) :
  (forall x, In x t -> j_id x <> id) -> update_where_id id f t = t.
Proof.
  intros H. unfold update_where_id.
  induction t as [|a t IH]; simpl; [reflexivity|].
  rewrite IH by (intros x Hx; apply H; right; exact Hx).
  assert (j_id a <> id) as Ha by (apply H; left; reflexivity).
  apply String.eqb_neq in Ha. rewrite Ha. reflexivity.
Qed.

(** ** [LeaseJob] *)

Arguments time.Unix : simpl never.
Arguments time.Add : simpl never.
Arguments time.FromUnix : simpl never.
Arguments update_where_id : simpl never.
Arguments delete_where_id : simpl never.
Arguments select_leasable : simpl never.
Arguments next_now : simpl never.
Arguments dlqID : simpl never.
Arguments int64_inc : simpl never.
Arguments insert_dead_letter : simpl never.
Arguments insert_job : simpl never.

Lemma LeaseJob_quiet (leaseDuration : time.Duration) (w : World) :
  quiet 4 w ->
  LeaseJob leaseDuration w =
    match select_leasable (time.Unix (next_now w)) (jobs w) with
    | Some x =>
        (Ok (Some (leased_job (next_now w)
                     (time.Add (next_now w) leaseDuration) x)),
         mkWorld
           (update_where_id (j_id x)
              (set_lease (time.Unix (next_now w))
                 (time.Unix (time.Add (next_now w) leaseDuration))) (jobs w))
           (dead_letter_jobs w) None (tl (tl (tl (tl (faults w)))))
           (next_now w) (tl (ticks w)) (uuids w) (rl w) (metrics w))
    | None =>
        (Ok None,
         mkWorld (jobs w) (dead_letter_jobs w) None (tl (tl (faults w)))
           (next_now w) (tl (ticks w)) (uuids w) (rl w) (metrics w))
    end.
Proof.
  intros Hq.
  pose proof (quiet_1 w (quiet_le 4 1 w ltac:(lia) Hq)) as Q1.
  pose proof (quiet_2 w (quiet_le 4 2 w ltac:(lia) Hq)) as Q2.
  pose proof (quiet_3 w (quiet_le 4 3 w ltac:(lia) Hq)) as Q3.
  pose proof (quiet_4 w Hq) as Q4.
  unfold LeaseJob, defer_Rollback, bind, wrap, BeginTx, time_Now, db_Query,
    db_Exec_jobs, tx_Commit, driver, ret, bind.
  simpl. rewrite Q1. simpl. rewrite Q2. simpl.
  destruct (select_leasable _ _) as [x|]; simpl.
  - rewrite Q3. simpl. rewrite Q4. simpl. reflexivity.
  - reflexivity.
Qed.

(** C1, as the code has it.  A call of [LeaseJob(leaseDuration)] that the
    driver does not fail, the clock reading [now].  The table holds and
    compares whole seconds: a row qualifies when it is [PENDING], or
    [RUNNING] with [lease_expires_at < now.Unix()], so a lease that ended
    in second [e] can be taken again from second [e + 1] on.  If some row
    qualifies, the call returns a qualifying row of least [created_at]:
    the returned job has [Status = RUNNING], [LeasedAt = now],
    [LeaseExpiresAt = now + leaseDuration], [UpdatedAt = now] and the row's
    other fields, and in the table exactly the rows of that id are updated
    to [status = RUNNING], [leased_at = now.Unix()], [lease_expires_at =
    (now + leaseDuration).Unix()], [updated_at = now.Unix()].  If no row
    qualifies the call returns [nil] and both tables are as before. *)
Theorem LeaseJob_oldest_leasable (leaseDuration : time.Duration) (w : World) :
  quiet 4 w ->
  let now := next_now w in
  let expiresAt := now + leaseDuration in
  let qualifies := fun y : jobs_row =>
    j_status y = StatusPending \/
    (j_status y = StatusRunning /\
     exists e, j_lease_expires_at y = Some e /\ e < time.Unix now) in
  let res := LeaseJob leaseDuration w in
  ((exists y, In y (jobs w) /\ qualifies y) ->
   exists (x : jobs_row) (job : Job),
     fst res = Ok (Some job) /\
     (* the row chosen *)
     In x (jobs w) /\
     qualifies x /\
     (forall y, In y (jobs w) -> qualifies y ->
                j_created_at x <= j_created_at y) /\
     (* the job returned *)
     ID job = j_id x /\ TenantID job = j_tenant_id x /\
     Payload job = j_payload x /\
     MaxRetries job = j_max_retries x /\ RetryCount job = j_retry_count x /\
     CreatedAt job = time.FromUnix (j_created_at x) /\
     Status job = StatusRunning /\
     LeasedAt job = Some now /\
     LeaseExpiresAt job = Some expiresAt /\
     UpdatedAt job = now /\
     (* the table *)
     jobs (snd res) =
       update_where_id (j_id x)
         (set_lease (time.Unix now) (time.Unix expiresAt)) (jobs w) /\
     In (mkJobsRow (j_id x) (j_tenant_id x) (j_idempotency_key x) (j_payload x)
           StatusRunning (j_max_retries x) (j_retry_count x)
           (Some (time.Unix now)) (Some (time.Unix expiresAt))
           (j_created_at x) (time.Unix now))
        (jobs (snd res)) /\
     (forall y, In y (jobs w) -> j_id y <> j_id x -> In y (jobs (snd res))) /\
     dead_letter_jobs (snd res) = dead_letter_jobs w)
  /\
  ((forall y, In y (jobs w) -> ~ qualifies y) ->
   fst res = Ok None /\
   jobs (snd res) = jobs w /\
   dead_letter_jobs (snd res) = dead_letter_jobs w).
Proof.
  intros Hq. cbv zeta. rewrite (LeaseJob_quiet _ _ Hq).
  destruct (select_leasable (time.Unix (next_now w)) (jobs w)) as [x|] eqn:Hsel.
  - apply select_leasable_Some in Hsel. destruct Hsel as (Hin & Hl & Hleast).
    split.
    + intros _. exists x, (leased_job (next_now w)
                            (time.Add (next_now w) leaseDuration) x).
      simpl. split; [reflexivity|]. split; [exact Hin|].
      split; [apply leasable_iff; exact Hl|].
      split; [intros y Hy Hqy; apply Hleast; [exact Hy|];
              apply leasable_iff; exact Hqy|].
      repeat (split; [reflexivity|]).
      split.
      { apply (update_where_id_In (j_id x)
                 (set_lease (time.Unix (next_now w))
                    (time.Unix (time.Add (next_now w) leaseDuration)))
                 (jobs w) x Hin eq_refl). }
      split; [|reflexivity].
      intros y Hy Hne. apply update_where_id_other; assumption.
    + intros Hnone. apply leasable_iff in Hl. destruct (Hnone x Hin Hl).
  - split.
    + intros [y [Hy Hqy]]. apply leasable_iff in Hqy.
      rewrite (select_leasable_None _ _ Hsel y Hy) in Hqy. discriminate.
    + intros _. simpl. repeat split; reflexivity.
Qed.

(** The theorem in a world with a pending row created at second 7 and a
    row whose lease ran out, created at second 3: the older one is leased
    again. *)
Lemma LeaseJob_oldest_leasable_witness :
  exists (x : jobs_row) (job : Job),
    fst (LeaseJob (30 * time.Second) world_two_rows) = Ok (Some job) /\
    In x (jobs world_two_rows) /\ j_id x = "b"%string /\
    Status job = StatusRunning /\
    LeasedAt job = Some (time.FromUnix 50) /\
    LeaseExpiresAt job = Some (time.FromUnix 80).
Proof.
  destruct (proj1 (LeaseJob_oldest_leasable (30 * time.Second) world_two_rows
                     (quiet_nil 4 world_two_rows eq_refl))) as (x & job & H).
  - exists pending_row_a. split; [left; reflexivity | left; reflexivity].
  - exists x, job.
    destruct H as (Hres & Hin & _ & Hleast & _ & _ & _ & _ & _ & _ &
                   Hst & Hl & He & _).
    repeat split; try assumption.
    assert (j_created_at x <= j_created_at expired_row_b) as Hle.
    { apply Hleast; [right; left; reflexivity|].
      right. split; [reflexivity|]. exists 33. split; [reflexivity|].
      vm_compute. reflexivity. }
    destruct Hin as [<- | [<- | []]]; [simpl in Hle; lia | reflexivity].
Defined.

(** C1 as claimed fails within the second in which a lease ends: half a
    second after second 80 the lease that ended at second 80 has
    [lease_expires_at < now], and [LeaseJob] returns [nil]. *)
Lemma LeaseJob_in_second_of_expiry_returns_nil :
  jobs world_lease_just_ended = [row_lease_ended] /\
  j_status row_lease_ended = StatusRunning /\
  j_lease_expires_at row_lease_ended = Some 80 /\
  time.FromUnix 80 < next_now world_lease_just_ended /\
  fst (LeaseJob (30 * time.Second) world_lease_just_ended) = Ok None /\
  jobs (snd (LeaseJob (30 * time.Second) world_lease_just_ended))
    = [row_lease_ended].
Proof. repeat split; vm_compute; reflexivity. Qed.

(** ** [MoveToDeadLetterQueue] *)

Lemma delete_where_id_In (id : string) (t : list jobs_row) (x : jobs_row) :
  In x (delete_where_id id t) <-> In x t /\ j_id x <> id.
Proof.
  unfold delete_where_id. rewrite filter_In.
  rewrite negb_true_iff, String.eqb_neq. reflexivity.
Qed.

Lemma insert_dead_letter_Ok (r : dead_letter_jobs_row)
  (t t' : list dead_letter_jobs_row) :
  insert_dead_letter r t = Ok t' -> t' = t ++ [r].
Proof.
  unfold insert_dead_letter. destruct (existsb _ t); congruence.
Qed.

Lemma insert_dead_letter_fresh (r : dead_letter_jobs_row)
  (t : list dead_letter_jobs_row) :
  (forall d, In d t -> d_id d <> d_id r) ->
  insert_dead_letter r t = Ok (t ++ [r]).
Proof.
  intros H. unfold insert_dead_letter.
  destruct (existsb _ t) eqn:E; [|reflexivity].
  apply existsb_exists in E. destruct E as (d & Hd & Heq).
  apply String.eqb_eq in Heq. symmetry in Heq. destruct (H d Hd Heq).
Qed.

(** Unfold a repository operation down to the oracles. *)
Ltac run_repo :=
  cbv beta iota zeta delta
    [LeaseJob MoveToDeadLetterQueue UpdateJobStatus IncrementRetryCount
     GetRunningJobsCountByTenant GetJobByTenantAndIdempotencyKey
     defer_Rollback bind wrap try BeginTx time_Now db_Query
     db_Exec_jobs db_Exec_dlq tx_Commit tx_Rollback driver ret throw];
  simpl.

(** Decide the driver's next verdict. *)
Ltac next_verdict :=
  match goal with
  | |- context [if hd false ?l then _ else _] =>
      let F := fresh "F" in destruct (hd false l) eqn:F; simpl
  end.


(** What a call of [MoveToDeadLetterQueue] can do to the tables. *)
Lemma MoveToDeadLetterQueue_cases
  (job : Job) (failureReason : string) (w : World) :
  let res := MoveToDeadLetterQueue job failureReason w in
  let record :=
    mkDeadLetterRow (dlqID (ID job) (time.Unix (next_now w))) (ID job)
      (TenantID job) (Payload job) failureReason
      (time.Unix (next_next_now w)) in
  (fst res = Ok tt /\
   dead_letter_jobs (snd res) = dead_letter_jobs w ++ [record] /\
   jobs (snd res) = delete_where_id (ID job) (jobs w))
  \/
  (exists e, fst res = Err e /\
   jobs (snd res) = jobs w /\
   dead_letter_jobs (snd res) = dead_letter_jobs w).
Proof.
  cbv zeta. run_repo. unfold next_next_now, next_now. simpl.
  next_verdict; [right; eexists; repeat split; reflexivity|].
  next_verdict; [right; eexists; repeat split; reflexivity|].
  destruct (insert_dead_letter _ _) as [ds|e] eqn:Hins; simpl;
    [|right; eexists; repeat split; reflexivity].
  next_verdict; [right; eexists; repeat split; reflexivity|].
  next_verdict; [right; eexists; repeat split; reflexivity|].
  left. apply insert_dead_letter_Ok in Hins. subst ds.
  repeat split; reflexivity.
Qed.

Lemma MoveToDeadLetterQueue_quiet
  (job : Job) (failureReason : string) (w : World) :
  quiet 4 w ->
  (forall d, In d (dead_letter_jobs w) ->
             d_id d <> dlqID (ID job) (time.Unix (next_now w))) ->
  MoveToDeadLetterQueue job failureReason w =
    (Ok tt,
     mkWorld (delete_where_id (ID job) (jobs w))
       (dead_letter_jobs w ++
        [mkDeadLetterRow (dlqID (ID job) (time.Unix (next_now w))) (ID job)
           (TenantID job) (Payload job) failureReason
           (time.Unix (next_next_now w))])
       None (tl (tl (tl (tl (faults w)))))
       (next_next_now w) (tl (tl (ticks w))) (uuids w) (rl w) (metrics w)).
Proof.
  intros Hq Hfresh.
  pose proof (quiet_1 w (quiet_le 4 1 w ltac:(lia) Hq)) as Q1.
  pose proof (quiet_2 w (quiet_le 4 2 w ltac:(lia) Hq)) as Q2.
  pose proof (quiet_3 w (quiet_le 4 3 w ltac:(lia) Hq)) as Q3.
  pose proof (quiet_4 w Hq) as Q4.
  run_repo. unfold next_next_now, next_now in *. simpl.
  rewrite Q1; simpl. rewrite Q2; simpl.
  rewrite insert_dead_letter_fresh by exact Hfresh. simpl.
  rewrite Q3; simpl. rewrite Q4; simpl. reflexivity.
Qed.

(** ** [UpdateJobStatus] and [IncrementRetryCount] *)

Lemma UpdateJobStatus_eq (id : string) (status : JobStatus) (w : World) :
  UpdateJobStatus id status w =
    if hd false (faults w) then
      (Err (fmt_Errorf_w "failed to update job status"
              (sqlite3_Error "disk I/O error")),
       mkWorld (jobs w) (dead_letter_jobs w) (tx w) (tl (faults w))
         (next_now w) (tl (ticks w)) (uuids w) (rl w) (metrics w))
    else
      (Ok tt,
       mkWorld
         (update_where_id id (set_status status (time.Unix (next_now w)))
            (jobs w))
         (dead_letter_jobs w) (tx w) (tl (faults w))
         (next_now w) (tl (ticks w)) (uuids w) (rl w) (metrics w)).
Proof. run_repo. destruct (hd false (faults w)); reflexivity. Qed.

Lemma IncrementRetryCount_eq (id : string) (w : World) :
  IncrementRetryCount id w =
    if hd false (faults w) then
      (Err (fmt_Errorf_w "failed to increment retry count"
              (sqlite3_Error "disk I/O error")),
       mkWorld (jobs w) (dead_letter_jobs w) (tx w) (tl (faults w))
         (next_now w) (tl (ticks w)) (uuids w) (rl w) (metrics w))
    else
      (Ok tt,
       mkWorld
         (update_where_id id (set_retry (time.Unix (next_now w))) (jobs w))
         (dead_letter_jobs w) (tx w) (tl (faults w))
         (next_now w) (tl (ticks w)) (uuids w) (rl w) (metrics w)).
Proof. run_repo. destruct (hd false (faults w)); reflexivity. Qed.

Lemma absent_id_writes (id : string) (status : JobStatus) (w : World) :
  (forall x, In x (jobs w) -> j_id x <> id) ->
  (quiet 1 w ->
   fst (UpdateJobStatus id status w) = Ok tt /\
   fst (IncrementRetryCount id w) = Ok tt) /\
  jobs (snd (UpdateJobStatus id status w)) = jobs w /\
  dead_letter_jobs (snd (UpdateJobStatus id status w)) = dead_letter_jobs w /\
  jobs (snd (IncrementRetryCount id w)) = jobs w /\
  dead_letter_jobs (snd (IncrementRetryCount id w)) = dead_letter_jobs w.
Proof.
  intros Habsent.
  rewrite UpdateJobStatus_eq, IncrementRetryCount_eq.
  split; [|repeat split].
  - intros Hq. rewrite (quiet_1 w Hq). split; reflexivity.
  - destruct (hd false (faults w)); simpl; [reflexivity|].
    apply update_where_id_absent. exact Habsent.
  - destruct (hd false (faults w)); reflexivity.
  - destruct (hd false (faults w)); simpl; [reflexivity|].
    apply update_where_id_absent. exact Habsent.
  - destruct (hd false (faults w)); reflexivity.
Qed.

(** C9.  For an id that no row of table [jobs] carries,
    [UpdateJobStatus(id, status)] and [IncrementRetryCount(id)] leave both
    tables as they are and, the driver not failing the statement, return
    no error: neither looks whether a row was matched, nor at the lease.
    In particular, once [MoveToDeadLetterQueue] has moved a job, a late
    write for its id succeeds and changes nothing. *)
Theorem writes_to_absent_id_succeed
  (id : string) (status : JobStatus) (w : World) :
  let unchanged :=
    (quiet 1 w ->
     fst (UpdateJobStatus id status w) = Ok tt /\
     fst (IncrementRetryCount id w) = Ok tt) /\
    jobs (snd (UpdateJobStatus id status w)) = jobs w /\
    dead_letter_jobs (snd (UpdateJobStatus id status w)) = dead_letter_jobs w /\
    jobs (snd (IncrementRetryCount id w)) = jobs w /\
    dead_letter_jobs (snd (IncrementRetryCount id w)) = dead_letter_jobs w in
  ((forall x, In x (jobs w) -> j_id x <> id) -> unchanged) /\
  (forall (job : Job) (failureReason : string) (w0 : World),
     ID job = id ->
     MoveToDeadLetterQueue job failureReason w0 = (Ok tt, w) ->
     unchanged).
Proof.
  cbv zeta. split; [apply absent_id_writes|].
  intros job failureReason w0 Hid Hmove.
  apply absent_id_writes. intros x Hx.
  destruct (MoveToDeadLetterQueue_cases job failureReason w0)
    as [(_ & _ & Hj) | (e & He & _)];
    rewrite Hmove in *; simpl in *; [|discriminate].
  rewrite Hj in Hx. apply delete_where_id_In in Hx. subst id. tauto.
Qed.

(** The theorem for id ["gone"], which no row of the two-row world has. *)
Lemma writes_to_absent_id_succeed_witness :
  fst (UpdateJobStatus "gone" StatusDone world_two_rows) = Ok tt /\
  fst (IncrementRetryCount "gone" world_two_rows) = Ok tt /\
  jobs (snd (UpdateJobStatus "gone" StatusDone world_two_rows))
    = jobs world_two_rows /\
  jobs (snd (IncrementRetryCount "gone" world_two_rows))
    = jobs world_two_rows.
Proof.
  destruct (proj1 (writes_to_absent_id_succeed "gone" StatusDone
                     world_two_rows))
    as (Hok & Hj1 & _ & Hj2 & _).
  - intros x [<- | [<- | []]]; simpl; discriminate.
  - destruct (Hok (quiet_nil 1 world_two_rows eq_refl)) as [H1 H2].
    repeat split; assumption.
Defined.

(** ** The worker: [processJob] and [handleJobFailure] *)

Ltac run_worker :=
  cbv beta iota zeta delta
    [processJob handleJobFailure time_Sleep IncrementCompletedJobs
     IncrementFailedJobs IncrementRetriedJobs bind try ret].

Lemma set_status_rows (id : string) (status : JobStatus) (t : Z)
  (rows : list jobs_row) (x : jobs_row) :
  In x (update_where_id id (set_status status t) rows) ->
  j_id x = id -> j_status x = status /\ j_updated_at x = t.
Proof.
  unfold update_where_id. intros Hin Hid. apply in_map_iff in Hin.
  destruct Hin as (y & Hy & _).
  destruct (String.eqb (j_id y) id) eqn:E; subst x.
  - split; reflexivity.
  - apply String.eqb_neq in E. contradiction.
Qed.

Lemma handleJobFailure_retry (job : Job) (failureReason : string) (w : World) :
  RetryCount job < MaxRetries job ->
  quiet 2 w ->
  handleJobFailure job failureReason w =
    (Ok tt,
     mkWorld
       (update_where_id (ID job)
          (set_status StatusPending (time.Unix (next_next_now w)))
          (update_where_id (ID job) (set_retry (time.Unix (next_now w)))
             (jobs w)))
       (dead_letter_jobs w) (tx w) (tl (tl (faults w)))
       (next_next_now w) (tl (tl (ticks w))) (uuids w) (rl w)
       (mkMetrics (totalJobs (metrics w)) (completedJobs (metrics w))
          (failedJobs (metrics w)) (int64_inc (retriedJobs (metrics w))))).
Proof.
  intros Hlt Hq. run_worker. apply Z.ltb_lt in Hlt. rewrite Hlt.
  rewrite IncrementRetryCount_eq, (quiet_1 w (quiet_le 2 1 w ltac:(lia) Hq)).
  rewrite UpdateJobStatus_eq. simpl. rewrite (quiet_2 w Hq). reflexivity.
Qed.

Lemma handleJobFailure_exhausted
  (job : Job) (failureReason : string) (w : World) :
  MaxRetries job <= RetryCount job ->
  quiet 4 w ->
  (forall d, In d (dead_letter_jobs w) ->
             d_id d <> dlqID (ID job) (time.Unix (next_now w))) ->
  handleJobFailure job failureReason w =
    (Ok tt,
     mkWorld (delete_where_id (ID job) (jobs w))
       (dead_letter_jobs w ++
        [mkDeadLetterRow (dlqID (ID job) (time.Unix (next_now w))) (ID job)
           (TenantID job) (Payload job)
           ("max retries exceeded: " +:+ failureReason)
           (time.Unix (next_next_now w))])
       None (tl (tl (tl (tl (faults w)))))
       (next_next_now w) (tl (tl (ticks w))) (uuids w) (rl w)
       (mkMetrics (totalJobs (metrics w)) (completedJobs (metrics w))
          (int64_inc (failedJobs (metrics w))) (retriedJobs (metrics w)))).
Proof.
  intros Hge Hq Hfresh. run_worker. apply Z.ltb_ge in Hge. rewrite Hge.
  rewrite (MoveToDeadLetterQueue_quiet _ _ _ Hq Hfresh). reflexivity.
Qed.

Lemma processJob_success (job : Job) (w : World) :
  Payload job <> "fail"%string ->
  quiet 1 w ->
  processJob job w =
    (Ok tt,
     mkWorld
       (update_where_id (ID job)
          (set_status StatusDone
             (time.Unix (next_now (slept (2 * time.Second) w))))
          (jobs w))
       (dead_letter_jobs w) (tx w) (tl (faults w))
       (next_now (slept (2 * time.Second) w)) (tl (ticks w)) (uuids w) (rl w)
       (mkMetrics (totalJobs (metrics w))
          (int64_inc (completedJobs (metrics w)))
          (failedJobs (metrics w)) (retriedJobs (metrics w)))).
Proof.
  intros Hne Hq. run_worker. apply String.eqb_neq in Hne. rewrite Hne.
  rewrite UpdateJobStatus_eq. simpl. rewrite (quiet_1 w Hq). reflexivity.
Qed.

Lemma processJob_fail (job : Job) (w : World) :
  Payload job = "fail"%string ->
  processJob job w =
    handleJobFailure job "payload is 'fail'" (slept (2 * time.Second) w).
Proof.
  intros Heq. cbv beta iota zeta delta [processJob time_Sleep bind].
  rewrite Heq. reflexivity.
Qed.

(** C3.  What the worker does with a leased job, the store calls not
    failing.  On success of the handler (any payload but ["fail"]) every
    row of the job's id gets [status = DONE] and [completed_jobs] is
    incremented.  The one failing payload, ["fail"], is handed to
    [handleJobFailure] with a reason; there, with [retry_count <
    max_retries], [retry_count] of the job's rows is incremented first and
    their status then set to [PENDING], and [retried_jobs] is incremented;
    with [retry_count >= max_retries] the job is moved to the dead-letter
    queue with [failure_reason = "max retries exceeded: " + reason], no row
    of its id stays in table [jobs] (so none is reset to [PENDING]), and
    [failed_jobs] is incremented. *)
Theorem processJob_outcome_policy (job : Job) (w : World) :
  (Payload job <> "fail"%string -> quiet 1 w ->
   let w' := snd (processJob job w) in
   (exists t, jobs w' =
              update_where_id (ID job) (set_status StatusDone t) (jobs w)) /\
   (forall x, In x (jobs w') -> j_id x = ID job -> j_status x = StatusDone) /\
   dead_letter_jobs w' = dead_letter_jobs w /\
   metrics w' =
     mkMetrics (totalJobs (metrics w)) (int64_inc (completedJobs (metrics w)))
       (failedJobs (metrics w)) (retriedJobs (metrics w)))
  /\
  (Payload job = "fail"%string ->
   processJob job w =
     handleJobFailure job "payload is 'fail'" (slept (2 * time.Second) w))
  /\
  (forall reason : string,
   RetryCount job < MaxRetries job -> quiet 2 w ->
   let w' := snd (handleJobFailure job reason w) in
   (exists t1 t2,
      jobs w' =
        update_where_id (ID job) (set_status StatusPending t2)
          (update_where_id (ID job) (set_retry t1) (jobs w)) /\
      forall x, In x (jobs w) -> j_id x = ID job ->
        In (mkJobsRow (j_id x) (j_tenant_id x) (j_idempotency_key x)
              (j_payload x) StatusPending (j_max_retries x)
              (j_retry_count x + 1) (j_leased_at x) (j_lease_expires_at x)
              (j_created_at x) t2)
           (jobs w')) /\
   (forall x, In x (jobs w') -> j_id x = ID job -> j_status x = StatusPending) /\
   dead_letter_jobs w' = dead_letter_jobs w /\
   metrics w' =
     mkMetrics (totalJobs (metrics w)) (completedJobs (metrics w))
       (failedJobs (metrics w)) (int64_inc (retriedJobs (metrics w))))
  /\
  (forall reason : string,
   MaxRetries job <= RetryCount job -> quiet 4 w ->
   (forall d, In d (dead_letter_jobs w) ->
              d_id d <> dlqID (ID job) (time.Unix (next_now w))) ->
   let w' := snd (handleJobFailure job reason w) in
   dead_letter_jobs w' =
     dead_letter_jobs w ++
     [mkDeadLetterRow (dlqID (ID job) (time.Unix (next_now w))) (ID job)
        (TenantID job) (Payload job) ("max retries exceeded: " +:+ reason)
        (time.Unix (next_next_now w))] /\
   jobs w' = delete_where_id (ID job) (jobs w) /\
   (forall x, In x (jobs w') -> j_id x <> ID job) /\
   metrics w' =
     mkMetrics (totalJobs (metrics w)) (completedJobs (metrics w))
       (int64_inc (failedJobs (metrics w))) (retriedJobs (metrics w))).
Proof.
  split; [|split; [|split]].
  - intros Hne Hq. rewrite (processJob_success _ _ Hne Hq). cbv zeta. simpl.
    split; [eexists; reflexivity|]. split; [|split; reflexivity].
    intros x Hx Hid. apply (set_status_rows _ _ _ _ _ Hx Hid).
  - apply processJob_fail.
  - intros reason Hlt Hq. rewrite (handleJobFailure_retry _ _ _ Hlt Hq).
    cbv zeta. simpl. split; [|split; [|split; reflexivity]].
    + exists (time.Unix (next_now w)), (time.Unix (next_next_now w)).
      split; [reflexivity|]. intros x Hx Hid.
      apply (update_where_id_In (ID job)
               (set_status StatusPending (time.Unix (next_next_now w))) _
               (set_retry (time.Unix (next_now w)) x)); [|exact Hid].
      apply update_where_id_In; assumption.
    + intros x Hx Hid. apply (set_status_rows _ _ _ _ _ Hx Hid).
  - intros reason Hge Hq Hfresh.
    rewrite (handleJobFailure_exhausted _ _ _ Hge Hq Hfresh).
    cbv zeta. simpl. split; [reflexivity|]. split; [reflexivity|].
    split; [|reflexivity].
    intros x Hx. apply delete_where_id_In in Hx. tauto.
Qed.

(** The theorem for a failing job of [max_retries = 0]: its first failure
    takes it to the dead-letter queue and leaves no row behind. *)
Lemma processJob_outcome_policy_witness :
  dead_letter_jobs
    (snd (handleJobFailure job_no_retry "payload is 'fail'" world_no_retry))
  = [mkDeadLetterRow "dlq_c_50" "c" "t1" "fail"
       "max retries exceeded: payload is 'fail'" 50] /\
  jobs (snd (handleJobFailure job_no_retry "payload is 'fail'" world_no_retry))
  = [] /\
  failedJobs
    (metrics
       (snd (handleJobFailure job_no_retry "payload is 'fail'" world_no_retry)))
  = 1.
Proof.
  destruct (proj2 (proj2 (proj2
             (processJob_outcome_policy job_no_retry world_no_retry)))
             "payload is 'fail'"%string)
    as (Hd & Hj & _ & Hm).
  - simpl. lia.
  - apply quiet_nil. reflexivity.
  - intros d [].
  - rewrite Hd, Hj, Hm. repeat split.
Defined.

(** ** Lease timestamps *)

Lemma quiet_after_4 (n : nat) (w w' : World) :
  faults w' = tl (tl (tl (tl (faults w)))) -> quiet (4 + n) w -> quiet n w'.
Proof.
  unfold quiet. intros -> H i Hi. specialize (H (4 + i)%nat ltac:(lia)).
  destruct (faults w) as [|? [|? [|? [|? ?]]]]; simpl in *;
    try exact H; destruct i; reflexivity.
Qed.

Lemma update_where_id_inv (id : string) (f : jobs_row -> jobs_row)
  (t : list jobs_row) (x' : jobs_row) :
  (forall y, j_id (f y) = j_id y) ->
  In x' (update_where_id id f t) ->
  (exists y, In y t /\ j_id y = id /\ x' = f y) \/ (In x' t /\ j_id x' <> id).
Proof.
  intros Hf Hin. unfold update_where_id in Hin. apply in_map_iff in Hin.
  destruct Hin as (y & Hy & Hin).
  destruct (String.eqb (j_id y) id) eqn:E.
  - apply String.eqb_eq in E. left. exists y. auto.
  - apply String.eqb_neq in E. right. subst x'. auto.
Qed.

Lemma update_where_id_lease_columns (id : string) (f : jobs_row -> jobs_row)
  (t : list jobs_row) :
  (forall y, lease_columns (f y) = lease_columns y) ->
  map lease_columns (update_where_id id f t) = map lease_columns t.
Proof.
  intros Hf. unfold update_where_id. rewrite map_map.
  apply map_ext. intros y. destruct (String.eqb (j_id y) id); auto.
Qed.

Lemma UpdateJobStatus_lease_columns (id : string) (status : JobStatus)
  (w : World) :
  map lease_columns (jobs (snd (UpdateJobStatus id status w)))
  = map lease_columns (jobs w).
Proof.
  rewrite UpdateJobStatus_eq. destruct (hd false (faults w)); simpl;
    [reflexivity|].
  apply update_where_id_lease_columns. reflexivity.
Qed.

Lemma IncrementRetryCount_lease_columns (id : string) (w : World) :
  map lease_columns (jobs (snd (IncrementRetryCount id w)))
  = map lease_columns (jobs w).
Proof.
  rewrite IncrementRetryCount_eq. destruct (hd false (faults w)); simpl;
    [reflexivity|].
  apply update_where_id_lease_columns. reflexivity.
Qed.

Lemma LeaseJob_Some_quiet (leaseDuration : time.Duration) (w w1 : World)
  (job : Job) :
  quiet 4 w ->
  LeaseJob leaseDuration w = (Ok (Some job), w1) ->
  exists x,
    In x (jobs w) /\
    job = leased_job (next_now w) (time.Add (next_now w) leaseDuration) x /\
    jobs w1 =
      update_where_id (j_id x)
        (set_lease (time.Unix (next_now w))
           (time.Unix (time.Add (next_now w) leaseDuration))) (jobs w) /\
    dead_letter_jobs w1 = dead_letter_jobs w /\
    faults w1 = tl (tl (tl (tl (faults w)))) /\
    metrics w1 = metrics w.
Proof.
  intros Hq. rewrite (LeaseJob_quiet _ _ Hq).
  destruct (select_leasable _ _) as [x|] eqn:Hsel; intros H;
    inversion H; subst; clear H.
  exists x. apply select_leasable_Some in Hsel.
  destruct Hsel as (Hin & _). simpl. repeat split; trivial.
Qed.

Lemma leased_rows_after_status (id : string) (status : JobStatus)
  (t now expires : Z) (rows : list jobs_row) (x' : jobs_row) :
  In x' (update_where_id id (set_status status t)
           (update_where_id id (set_lease now expires) rows)) ->
  j_id x' = id ->
  j_status x' = status /\
  j_leased_at x' = Some now /\ j_lease_expires_at x' = Some expires.
Proof.
  intros Hin Hid.
  apply update_where_id_inv in Hin; [|reflexivity].
  destruct Hin as [(y & Hy & Hyid & ->) | (_ & Hne)]; [|contradiction].
  apply update_where_id_inv in Hy; [|reflexivity].
  destruct Hy as [(z & _ & _ & ->) | (_ & Hne)]; [|contradiction].
  repeat split.
Qed.

Lemma leased_rows_after_retry (id : string) (t1 t2 now expires : Z)
  (rows : list jobs_row) (x' : jobs_row) :
  In x' (update_where_id id (set_status StatusPending t2)
           (update_where_id id (set_retry t1)
              (update_where_id id (set_lease now expires) rows))) ->
  j_id x' = id ->
  j_status x' = StatusPending /\
  j_leased_at x' = Some now /\ j_lease_expires_at x' = Some expires.
Proof.
  intros Hin Hid.
  apply update_where_id_inv in Hin; [|reflexivity].
  destruct Hin as [(y & Hy & Hyid & ->) | (_ & Hne)]; [|contradiction].
  apply update_where_id_inv in Hy; [|reflexivity].
  destruct Hy as [(z & Hz & Hzid & ->) | (_ & Hne)]; [|contradiction].
  apply update_where_id_inv in Hz; [|reflexivity].
  destruct Hz as [(u & _ & _ & ->) | (_ & Hne)]; [|contradiction].
  repeat split.
Qed.

(** ** The repository's [CreateJob] *)

Lemma repo_CreateJob_eq (job : Job) (w : World) :
  repo_CreateJob job w =
    let job' := with_created (next_now w) job in
    let w1 := mkWorld (jobs w) (dead_letter_jobs w) (tx w) (tl (faults w))
                (next_now w) (tl (ticks w)) (uuids w) (rl w) (metrics w) in
    let constraint :=
      if negb (String.eqb (IdempotencyKey job) "")
      then Err (ErrDuplicateIdempotencyKey (TenantID job) (IdempotencyKey job))
      else Err (fmt_Errorf
             "failed to create job: unique constraint violation (unexpected)") in
    if hd false (faults w) then
      (Err (fmt_Errorf_w "failed to create job"
              (sqlite3_Error "disk I/O error")), w1)
    else if existsb (fun x => String.eqb (ID job) (j_id x)) (jobs w) then
      (constraint, w1)
    else if existsb (idempotency_conflict (row_of_job job')) (jobs w) then
      (constraint, w1)
    else
      (Ok job',
       mkWorld (jobs w ++ [row_of_job job']) (dead_letter_jobs w) (tx w)
         (tl (faults w)) (next_now w) (tl (ticks w)) (uuids w) (rl w)
         (metrics w)).
Proof.
  cbv beta iota zeta delta
    [repo_CreateJob bind try db_Exec_jobs driver time_Now ret throw insert_job].
  simpl. destruct (hd false (faults w)); simpl; [reflexivity|].
  destruct (existsb (idempotency_conflict _) (jobs w));
    destruct (existsb (fun x => String.eqb (ID job) (j_id x)) (jobs w));
    simpl; try reflexivity;
    destruct (negb (String.eqb (IdempotencyKey job) "")); reflexivity.
Qed.

Lemma idempotency_conflict_spec (job : Job) (x : jobs_row) :
  idempotency_conflict (row_of_job job) x = true <->
  IdempotencyKey job <> ""%string /\
  j_tenant_id x = TenantID job /\
  j_idempotency_key x = Some (IdempotencyKey job).
Proof.
  unfold idempotency_conflict, row_of_job. simpl.
  destruct (String.eqb (IdempotencyKey job) "") eqn:E.
  - apply String.eqb_eq in E. split; [discriminate | tauto].
  - apply String.eqb_neq in E.
    destruct (j_idempotency_key x) as [k|].
    + rewrite andb_true_iff, !String.eqb_eq. split.
      * intros [Ht Hk]. subst k. auto.
      * intros (_ & -> & H). inversion H. auto.
    + split; [discriminate | intros (_ & _ & H); discriminate].
Qed.

(** A job without a key is never refused as a duplicate key, and is stored
    with a NULL key. *)
Lemma repo_CreateJob_keyless (job : Job) (w : World) :
  IdempotencyKey job = ""%string ->
  (forall t k,
     fst (repo_CreateJob job w) <> Err (ErrDuplicateIdempotencyKey t k)) /\
  (quiet 1 w -> (forall x, In x (jobs w) -> j_id x <> ID job) ->
   exists job' x,
     repo_CreateJob job w = (Ok job', set_tables (jobs w ++ [x])
       (dead_letter_jobs w)
       (set_faults (tl (faults w)) (set_clock (next_now w) (tl (ticks w)) w)))
     /\ j_id x = ID job /\ j_idempotency_key x = None).
Proof.
  intros Hkey. rewrite repo_CreateJob_eq. cbv zeta.
  assert (existsb (idempotency_conflict
                     (row_of_job (with_created (next_now w) job))) (jobs w)
          = false) as Hnc.
  { destruct (existsb _ _) eqn:E; [|reflexivity].
    apply existsb_exists in E. destruct E as (x & _ & Hx).
    apply idempotency_conflict_spec in Hx. simpl in Hx. tauto. }
  rewrite Hnc, Hkey. clear Hnc. simpl. split.
  - intros t k. destruct (hd false (faults w)); simpl; [congruence|].
    destruct (existsb _ _); simpl; congruence.
  - intros Hq Hfresh. rewrite (quiet_1 w Hq).
    destruct (existsb _ _) eqn:E.
    + apply existsb_exists in E. destruct E as (x & Hx & Heq).
      apply String.eqb_eq in Heq. symmetry in Heq. destruct (Hfresh x Hx Heq).
    + eexists _, _. split; [reflexivity|].
      unfold row_of_job. simpl. rewrite Hkey. split; reflexivity.
Qed.

(** When the id is new, the refusal as a duplicate key is exact. *)
Lemma repo_CreateJob_duplicate_iff (job : Job) (w : World) :
  quiet 1 w ->
  (forall x, In x (jobs w) -> j_id x <> ID job) ->
  (fst (repo_CreateJob job w)
     = Err (ErrDuplicateIdempotencyKey (TenantID job) (IdempotencyKey job))
   <->
   IdempotencyKey job <> ""%string /\
   exists x, In x (jobs w) /\ j_tenant_id x = TenantID job /\
             j_idempotency_key x = Some (IdempotencyKey job)).
Proof.
  intros Hq Hfresh. rewrite repo_CreateJob_eq. cbv zeta.
  rewrite (quiet_1 w Hq).
  destruct (existsb (fun x => String.eqb (ID job) (j_id x)) (jobs w)) eqn:E.
  { apply existsb_exists in E. destruct E as (x & Hx & Heq).
    apply String.eqb_eq in Heq. symmetry in Heq. destruct (Hfresh x Hx Heq). }
  clear E.
  destruct (existsb (idempotency_conflict
                       (row_of_job (with_created (next_now w) job)))
              (jobs w)) eqn:Ec.
  - apply existsb_exists in Ec. destruct Ec as (x & Hx & Hc).
    apply idempotency_conflict_spec in Hc. simpl in Hc.
    destruct Hc as (Hk & Ht & Hkey).
    apply String.eqb_neq in Hk. rewrite Hk. simpl.
    apply String.eqb_neq in Hk. split; [|reflexivity].
    intros _. split; [exact Hk|]. exists x. auto.
  - simpl. split; [discriminate|].
    intros (Hk & x & Hx & Ht & Hkey).
    assert (existsb (idempotency_conflict
                       (row_of_job (with_created (next_now w) job))) (jobs w)
            = true) as Hyes.
    { apply existsb_exists. exists x. split; [exact Hx|].
      apply idempotency_conflict_spec. simpl. auto. }
    rewrite Hyes in Ec. discriminate.
Qed.

(** C7.  The store's [CreateJob], called with a job whose id is not in
    table [jobs] (the service passes a new uuid).  Whatever the driver
    does, it fails with [ErrDuplicateIdempotencyKey(tenant, key)] only for
    the job's own tenant and key, the key not empty, when a row of that
    tenant has that key, and then it stores nothing; when the driver does
    not fail the statement, it fails so exactly then.  A job with an empty
    key never gets that error: when the driver does not fail the statement
    it is stored, with a NULL key, after the rows that were there, however
    many of them are rows of its tenant without a key. *)
Theorem CreateJob_duplicate_key_exact (job : Job) (w : World) :
  (forall x, In x (jobs w) -> j_id x <> ID job) ->
  let res := repo_CreateJob job w in
  let duplicate :=
    IdempotencyKey job <> ""%string /\
    exists x, In x (jobs w) /\ j_tenant_id x = TenantID job /\
              j_idempotency_key x = Some (IdempotencyKey job) in
  (forall tenantID key,
     fst res = Err (ErrDuplicateIdempotencyKey tenantID key) ->
     tenantID = TenantID job /\ key = IdempotencyKey job /\ duplicate /\
     jobs (snd res) = jobs w)
  /\
  (quiet 1 w ->
   (fst res = Err (ErrDuplicateIdempotencyKey (TenantID job) (IdempotencyKey job))
    <-> duplicate))
  /\
  (IdempotencyKey job = ""%string ->
   (forall tenantID key,
      fst res <> Err (ErrDuplicateIdempotencyKey tenantID key)) /\
   (quiet 1 w ->
    exists job' x,
      fst res = Ok job' /\ jobs (snd res) = jobs w ++ [x] /\
      j_id x = ID job /\ j_tenant_id x = TenantID job /\
      j_idempotency_key x = None)).
Proof.
  intros Hfresh. cbv zeta. split; [|split].
  - intros tenantID key. rewrite repo_CreateJob_eq. cbv zeta.
    destruct (hd false (faults w)); simpl; [discriminate|].
    destruct (existsb (fun x => String.eqb (ID job) (j_id x)) (jobs w)) eqn:E.
    { apply existsb_exists in E. destruct E as (x & Hx & Heq).
      apply String.eqb_eq in Heq. symmetry in Heq. destruct (Hfresh x Hx Heq). }
    destruct (existsb (idempotency_conflict
                         (row_of_job (with_created (next_now w) job)))
                (jobs w)) eqn:Ec; simpl; [|discriminate].
    apply existsb_exists in Ec. destruct Ec as (x & Hx & Hc).
    apply idempotency_conflict_spec in Hc. simpl in Hc.
    destruct Hc as (Hk & Ht & Hkey).
    destruct (negb (String.eqb (IdempotencyKey job) "")); simpl;
      [|discriminate].
    intros H. inversion H; subst. eauto 10.
  - intros Hq. apply (repo_CreateJob_duplicate_iff job w Hq Hfresh).
  - intros Hkey. destruct (repo_CreateJob_keyless job w Hkey) as [Hno Hok].
    split; [exact Hno|]. intros Hq.
    destruct (Hok Hq Hfresh) as (job' & x & Hres & Hid & Hnull).
    exists job', x. rewrite Hres. simpl. repeat split; trivial.
    rewrite repo_CreateJob_eq in Hres. cbv zeta in Hres.
    rewrite (quiet_1 w Hq) in Hres.
    destruct (existsb (fun x => String.eqb (ID job) (j_id x)) (jobs w));
      [destruct (negb _); discriminate|].
    destruct (existsb _ (jobs w)); [destruct (negb _); discriminate|].
    inversion Hres as [[Hj Hrow]]. apply app_inv_head in Hrow.
    inversion Hrow. reflexivity.
Qed.

(** The theorem for a second job of tenant ["t1"] with key ["k1"], under
    the new id ["id-2"], in the store that holds the first one. *)
Lemma CreateJob_duplicate_key_exact_witness :
  fst (repo_CreateJob (new_job request_B "id-2") world_after_A)
  = Err (ErrDuplicateIdempotencyKey "t1" "k1").
Proof.
  apply (proj1 (proj2 (CreateJob_duplicate_key_exact
                         (new_job request_B "id-2") world_after_A
                         ltac:(intros x [<- | []] H; discriminate H)))).
  - apply quiet_nil. vm_compute. reflexivity.
  - split; [intros H; discriminate H|].
    eexists. split; [left; reflexivity|]. split; reflexivity.
Defined.

(** The hypothesis on the id is needed: a job of tenant ["t2"] with key
    ["k"] under the id of a stored row breaks the primary key, which
    SQLite reports as [UNIQUE constraint failed] too, and gets
    [ErrDuplicateIdempotencyKey("t2", "k")] although no row of tenant
    ["t2"] has key ["k"]. *)
Example taken_id_reported_as_duplicate_key :
  fst (repo_CreateJob job_same_id world_one_pending)
    = Err (ErrDuplicateIdempotencyKey "t2" "k") /\
  jobs (snd (repo_CreateJob job_same_id world_one_pending))
    = jobs world_one_pending /\
  (forall x, In x (jobs world_one_pending) ->
     ~ (j_tenant_id x = TenantID job_same_id /\
        j_idempotency_key x = Some (IdempotencyKey job_same_id))).
Proof.
  split; [vm_compute; reflexivity|]. split; [vm_compute; reflexivity|].
  intros x [<- | []] [H _]. discriminate H.
Qed.

(** ** [JobService.CreateJob] *)

Lemma GetJobByTenantAndIdempotencyKey_eq (tenantID key : string) (w : World) :
  GetJobByTenantAndIdempotencyKey tenantID key w =
    let w1 := set_faults (tl (faults w)) w in
    if hd false (faults w) then
      (Err (fmt_Errorf_w "failed to get job" (sqlite3_Error "disk I/O error")),
       w1)
    else
      (Ok (option_map scan_job
             (List.find
                (if String.eqb key "" then tenant_key_is_null tenantID
                 else tenant_key_equals tenantID key) (jobs w))),
       w1).
Proof. run_repo. destruct (hd false (faults w)); reflexivity. Qed.

Lemma CheckSubmissionRate_frame (tenantID : string) (w : World) :
  jobs (snd (CheckSubmissionRate tenantID w)) = jobs w /\
  dead_letter_jobs (snd (CheckSubmissionRate tenantID w)) = dead_letter_jobs w /\
  metrics (snd (CheckSubmissionRate tenantID w)) = metrics w /\
  faults (snd (CheckSubmissionRate tenantID w)) = faults w.
Proof.
  unfold CheckSubmissionRate, bind, time_Now. simpl.
  destruct (submissionWindows (rl w) !! tenantID) as [win|]; simpl;
    [|repeat split].
  destruct (time.After _ _); simpl; [repeat split|].
  destruct (_ <=? _); simpl; repeat split.
Qed.

(** C6.  A request with a non-empty idempotency key that passes the
    submission-rate check and for which [GetJobByTenantAndIdempotencyKey]
    returns a job: [CreateJob] returns that job, which is the stored row of
    that tenant and key (its id and payload, not the request's); both
    tables are as before the call, and no counter, [total_jobs] included,
    has moved. *)
Theorem CreateJob_returns_existing
  (req : CreateJobRequest) (existing : Job) (w w1 w2 : World) :
  ReqIdempotencyKey req <> ""%string ->
  CheckSubmissionRate (ReqTenantID req) w = (Ok tt, w1) ->
  GetJobByTenantAndIdempotencyKey (ReqTenantID req) (ReqIdempotencyKey req) w1
    = (Ok (Some existing), w2) ->
  CreateJob req w = (Ok existing, w2) /\
  jobs w2 = jobs w /\
  dead_letter_jobs w2 = dead_letter_jobs w /\
  metrics w2 = metrics w /\
  totalJobs (metrics w2) = totalJobs (metrics w) /\
  exists x,
    In x (jobs w) /\
    j_tenant_id x = ReqTenantID req /\
    j_idempotency_key x = Some (ReqIdempotencyKey req) /\
    ID existing = j_id x /\ Payload existing = j_payload x /\
    existing = scan_job x.
Proof.
  intros Hkey Hrate Hget.
  destruct (CheckSubmissionRate_frame (ReqTenantID req) w)
    as (Hj & Hd & Hm & _).
  rewrite Hrate in Hj, Hd, Hm. simpl in Hj, Hd, Hm.
  split.
  - unfold CreateJob. unfold bind at 1. rewrite Hrate.
    apply String.eqb_neq in Hkey. rewrite Hkey. simpl.
    unfold bind at 1. unfold wrap. rewrite Hget. reflexivity.
  - rewrite GetJobByTenantAndIdempotencyKey_eq in Hget. cbv zeta in Hget.
    apply String.eqb_neq in Hkey. rewrite Hkey in Hget.
    destruct (hd false (faults w1)); [discriminate|].
    inversion Hget as [[Hfind Hw2]]. clear Hget. simpl.
    rewrite Hj, Hd, Hm. repeat (split; [reflexivity|]).
    destruct (List.find _ (jobs w1)) as [x|] eqn:Hx; [|discriminate].
    inversion Hfind; subst existing. apply find_some in Hx.
    destruct Hx as [Hin Hq]. unfold tenant_key_equals in Hq.
    apply andb_true_iff in Hq. destruct Hq as [Ht Hk].
    apply String.eqb_eq in Ht.
    destruct (j_idempotency_key x) as [k|] eqn:Hkx; [|discriminate].
    apply String.eqb_eq in Hk. subst k.
    exists x. rewrite <- Hj. repeat split; assumption.
Qed.

(** The theorem for the second submission of the idempotency scenario:
    key ["k1"] again, payload ["B"]; the job of payload ["A"] comes back. *)
Lemma CreateJob_returns_existing_witness :
  fst (CreateJob request_B world_after_A)
    = Ok (mkJob "id-1" "t1" "k1" "A" StatusPending 3 0 None None
            (time.FromUnix 5) (time.FromUnix 5)) /\
  jobs (snd (CreateJob request_B world_after_A)) = jobs world_after_A /\
  totalJobs (metrics (snd (CreateJob request_B world_after_A))) = 1.
Proof.
  destruct (CreateJob_returns_existing request_B
              (mkJob "id-1" "t1" "k1" "A" StatusPending 3 0 None None
                 (time.FromUnix 5) (time.FromUnix 5))
              world_after_A
              (snd (CheckSubmissionRate "t1" world_after_A))
              (snd (GetJobByTenantAndIdempotencyKey "t1" "k1"
                      (snd (CheckSubmissionRate "t1" world_after_A)))))
    as (Hres & Hj & _ & _ & Ht & _).
  - simpl. discriminate.
  - vm_compute. reflexivity.
  - vm_compute. reflexivity.
  - rewrite Hres. simpl. split; [reflexivity|]. split; [exact Hj|].
    rewrite Ht. vm_compute. reflexivity.
Defined.

(** *** What an operation leaves alone *)

Section Keeps.

Context {B : Type} (f : World -> B).

Hypothesis f_faults : forall fs w, f (set_faults fs w) = f w.
Hypothesis f_clock : forall c ts w, f (set_clock c ts w) = f w.
Hypothesis f_tables : forall js ds w, f (set_tables js ds w) = f w.
Hypothesis f_uuids : forall us w, f (set_uuids us w) = f w.
Hypothesis f_metrics : forall m w, f (set_metrics m w) = f w.
Hypothesis f_windows : forall ws w, f (set_windows ws w) = f w.

Lemma keeps_ret {A} (a : A) : keeps f (ret a).
Proof. intros w. reflexivity. Qed.

Lemma keeps_throw {A} (e : error) : keeps f (@throw A e).
Proof. intros w. reflexivity. Qed.

Lemma keeps_bind {A C} (m : M A) (k : A -> M C) :
  keeps f m -> (forall a, keeps f (k a)) -> keeps f (bind m k).
Proof.
  intros Hm Hk w. unfold bind. specialize (Hm w).
  destruct (m w) as [[a|e] w1]; simpl in *; [|exact Hm].
  rewrite (Hk a w1). exact Hm.
Qed.

Lemma keeps_wrap {A} (msg : string) (m : M A) :
  keeps f m -> keeps f (wrap msg m).
Proof.
  intros Hm w. unfold wrap. specialize (Hm w).
  destruct (m w) as [[a|e] w1]; exact Hm.
Qed.

Lemma keeps_try {A} (m : M A) : keeps f m -> keeps f (try m).
Proof.
  intros Hm w. unfold try. specialize (Hm w).
  destruct (m w) as [r w1]; exact Hm.
Qed.

Lemma keeps_driver : keeps f driver.
Proof.
  intros w. unfold driver. destruct (hd false (faults w)); apply f_faults.
Qed.

Lemma keeps_time_Now : keeps f time_Now.
Proof. intros w. apply f_clock. Qed.

Lemma keeps_uuid_New : keeps f uuid_New.
Proof. intros w. apply f_uuids. Qed.

Lemma keeps_db_Query {A} (q : list jobs_row -> A) : keeps f (db_Query q).
Proof.
  unfold db_Query. apply keeps_bind; [apply keeps_driver|].
  intros _ w. reflexivity.
Qed.

Lemma keeps_db_Exec_jobs (q : list jobs_row -> result (list jobs_row)) :
  keeps f (db_Exec_jobs q).
Proof.
  unfold db_Exec_jobs. apply keeps_bind; [apply keeps_driver|].
  intros _ w. destruct (q (jobs w)); [apply f_tables | reflexivity].
Qed.

Lemma keeps_CheckConcurrentLimit (tenantID : string) (n : Z) :
  keeps f (CheckConcurrentLimit tenantID n).
Proof.
  intros w. unfold CheckConcurrentLimit. destruct (_ <=? _); reflexivity.
Qed.

Lemma keeps_IncrementTotalJobs : keeps f IncrementTotalJobs.
Proof. intros w. apply f_metrics. Qed.

Lemma keeps_CheckSubmissionRate (tenantID : string) :
  keeps f (CheckSubmissionRate tenantID).
Proof.
  intros w. unfold CheckSubmissionRate, bind, time_Now. simpl.
  destruct (submissionWindows _ !! tenantID) as [win|]; simpl.
  - destruct (time.After _ _); simpl; [rewrite f_windows; apply f_clock|].
    destruct (_ <=? _); simpl; [|rewrite f_windows]; apply f_clock.
  - rewrite f_windows. apply f_clock.
Qed.

End Keeps.

(** The rate limiter is out of reach of the oracles, the tables and the
    counters; the tables and the uuids are out of reach of the clock, the
    driver's verdicts, the counters and the limiter's windows. *)
Ltac keeps_base :=
  first
    [ apply keeps_ret | apply keeps_throw
    | apply keeps_driver | apply keeps_time_Now | apply keeps_uuid_New
    | apply keeps_db_Query | apply keeps_db_Exec_jobs
    | apply keeps_CheckConcurrentLimit | apply keeps_IncrementTotalJobs
    | apply keeps_CheckSubmissionRate ];
  solve [intros; reflexivity].

(** Walk down a monadic term, one combinator or case at a time. *)
Ltac keeps_walk :=
  repeat (intros;
    match goal with
    | |- keeps _ (bind _ _) => apply keeps_bind
    | |- keeps _ (wrap _ _) => apply keeps_wrap
    | |- keeps _ (try _) => apply keeps_try
    | |- keeps _ (match ?x with _ => _ end) => destruct x
    | |- keeps _ _ => keeps_base
    end).

Lemma keeps_rl_GetJobByTenantAndIdempotencyKey (tenantID key : string) :
  keeps rl (GetJobByTenantAndIdempotencyKey tenantID key).
Proof. unfold GetJobByTenantAndIdempotencyKey. keeps_walk. Qed.

Lemma keeps_rl_GetRunningJobsCountByTenant (tenantID : string) :
  keeps rl (GetRunningJobsCountByTenant tenantID).
Proof. unfold GetRunningJobsCountByTenant. keeps_walk. Qed.

Lemma keeps_rl_repo_CreateJob (job : Job) : keeps rl (repo_CreateJob job).
Proof. unfold repo_CreateJob. keeps_walk. Qed.

Lemma keeps_store_GetJobByTenantAndIdempotencyKey (tenantID key : string) :
  keeps store (GetJobByTenantAndIdempotencyKey tenantID key).
Proof. unfold GetJobByTenantAndIdempotencyKey. keeps_walk. Qed.

Lemma keeps_store_GetRunningJobsCountByTenant (tenantID : string) :
  keeps store (GetRunningJobsCountByTenant tenantID).
Proof. unfold GetRunningJobsCountByTenant. keeps_walk. Qed.

(** [CreateJob] is the submission-rate check followed by steps that leave
    the rate limiter alone. *)
Lemma CreateJob_after_check (req : CreateJobRequest) (w : World) :
  match CheckSubmissionRate (ReqTenantID req) w with
  | (Ok _, w1) => rl (snd (CreateJob req w)) = rl w1
  | (Err e, w1) => CreateJob req w = (Err e, w1)
  end.
Proof.
  destruct (CheckSubmissionRate (ReqTenantID req) w) as [[[]|e] w1] eqn:Hc;
    unfold CreateJob; unfold bind at 1; rewrite Hc; [|reflexivity].
  match goal with |- rl (snd (?rest w1)) = rl w1 =>
    enough (keeps rl rest) as H by apply H end.
  repeat (intros;
    match goal with
    | |- keeps _ (GetJobByTenantAndIdempotencyKey _ _) =>
        apply keeps_rl_GetJobByTenantAndIdempotencyKey
    | |- keeps _ (GetRunningJobsCountByTenant _) =>
        apply keeps_rl_GetRunningJobsCountByTenant
    | |- keeps _ (repo_CreateJob _) => apply keeps_rl_repo_CreateJob
    | |- keeps _ (bind _ _) => apply keeps_bind
    | |- keeps _ (wrap _ _) => apply keeps_wrap
    | |- keeps _ (try _) => apply keeps_try
    | |- keeps _ (match ?x with _ => _ end) => destruct x
    | |- keeps _ _ => keeps_base
    end).
Qed.

Lemma CheckSubmissionRate_count (tenantID : string) (w w1 : World) :
  CheckSubmissionRate tenantID w = (Ok tt, w1) ->
  exists win',
    submissionWindows (rl w1) !! tenantID = Some win' /\
    count win' =
      match submissionWindows (rl w) !! tenantID with
      | Some win =>
          if time.After (next_now w) (windowEnd win) then 1
          else int64_inc (count win)
      | None => 1
      end.
Proof.
  unfold CheckSubmissionRate, bind, time_Now. simpl.
  destruct (submissionWindows (rl w) !! tenantID) as [win|]; simpl.
  - destruct (time.After _ _); simpl.
    + intros H; inversion H; subst; simpl. eexists.
      rewrite lookup_insert_eq. split; reflexivity.
    + destruct (_ <=? _); simpl; intros H; inversion H; subst; simpl.
      eexists. rewrite lookup_insert_eq. split; reflexivity.
  - intros H; inversion H; subst; simpl. eexists.
    rewrite lookup_insert_eq. split; reflexivity.
Qed.

(** C10.  [CreateJob] runs [CheckSubmissionRate] first.  When that check
    rejects the call, [CreateJob] returns its error and does nothing more.
    When it lets the call through, then whatever follows (an existing job
    returned for the idempotency key, a rejection by the cap on running
    jobs, a store error, or a new job) the rate limiter is left as the
    check left it: the tenant's window counts this call, as 1 in a window
    just opened and else as one more than before. *)
Theorem CreateJob_consumes_submission_slot (req : CreateJobRequest) (w : World) :
  let checked := CheckSubmissionRate (ReqTenantID req) w in
  let res := CreateJob req w in
  (forall e, fst checked = Err e -> res = (Err e, snd checked))
  /\
  (fst checked = Ok tt ->
   rl (snd res) = rl (snd checked) /\
   exists win',
     submissionWindows (rl (snd res)) !! ReqTenantID req = Some win' /\
     count win' =
       match submissionWindows (rl w) !! ReqTenantID req with
       | Some win =>
           if time.After (next_now w) (windowEnd win) then 1
           else int64_inc (count win)
       | None => 1
       end).
Proof.
  cbv zeta. pose proof (CreateJob_after_check req w) as H.
  destruct (CheckSubmissionRate (ReqTenantID req) w) as [[[]|e] w1] eqn:Hc;
    simpl; split.
  - intros e He. discriminate He.
  - intros _. split; [exact H|]. rewrite H.
    apply (CheckSubmissionRate_count _ _ _ Hc).
  - intros e' He. inversion He; subst. exact H.
  - intros He. discriminate He.
Qed.

(** The theorem for the second submission of the idempotency scenario: no
    job is created, and the window of tenant ["t1"] goes from 1 to 2. *)
Lemma CreateJob_consumes_submission_slot_witness :
  length (jobs (snd (CreateJob request_B world_after_A))) = 1%nat /\
  exists win',
    submissionWindows (rl (snd (CreateJob request_B world_after_A)))
      !! "t1"%string = Some win' /\
    count win' = 2.
Proof.
  split; [vm_compute; reflexivity|].
  destruct (proj2 (CreateJob_consumes_submission_slot request_B world_after_A))
    as (_ & win' & Hwin & Hcount).
  - vm_compute. reflexivity.
  - exists win'. split; [exact Hwin|]. rewrite Hcount.
    vm_compute. reflexivity.
Defined.

(** ** Reachable worlds *)

Lemma store_eq (w w' : World) :
  store w' = store w ->
  jobs w' = jobs w /\ dead_letter_jobs w' = dead_letter_jobs w /\
  uuids w' = uuids w.
Proof. unfold store. intros H. inversion H. auto. Qed.

Lemma keeps_store_lookup (req : CreateJobRequest) :
  keeps store
    (if negb (String.eqb (ReqIdempotencyKey req) "") then
       wrap "failed to check idempotency"
         (GetJobByTenantAndIdempotencyKey (ReqTenantID req)
            (ReqIdempotencyKey req))
     else ret None).
Proof.
  destruct (negb _); [apply keeps_wrap|keeps_walk].
  apply keeps_store_GetJobByTenantAndIdempotencyKey.
Qed.

(** What [repo_CreateJob] can do to the tables. *)
Lemma repo_CreateJob_tables (job : Job) (w : World) :
  let res := repo_CreateJob job w in
  dead_letter_jobs (snd res) = dead_letter_jobs w /\
  uuids (snd res) = uuids w /\
  match fst res with
  | Ok job' =>
      jobs (snd res) = jobs w ++ [row_of_job job'] /\
      ID job' = ID job /\ RetryCount job' = RetryCount job /\
      MaxRetries job' = MaxRetries job /\
      (forall x, In x (jobs w) -> j_id x <> ID job)
  | Err _ => jobs (snd res) = jobs w
  end.
Proof.
  cbv zeta. rewrite repo_CreateJob_eq. cbv zeta.
  destruct (hd false (faults w)); simpl; [auto|].
  destruct (existsb (fun x => String.eqb (ID job) (j_id x)) (jobs w)) eqn:E;
    simpl; [destruct (negb _); simpl; auto|].
  destruct (existsb (idempotency_conflict
                       (row_of_job (with_created (next_now w) job)))
              (jobs w));
    simpl; [destruct (negb _); simpl; auto|].
  do 6 (split; [reflexivity|]). intros x Hx Heq.
  assert (existsb (fun x => String.eqb (ID job) (j_id x)) (jobs w) = true)
    as Hyes.
  { apply existsb_exists. exists x. split; [exact Hx|].
    apply String.eqb_eq. auto. }
  rewrite Hyes in E. discriminate.
Qed.

(** What [CreateJob] can do to the tables: nothing, or one new row under
    the next uuid, with [retry_count = 0] and [max_retries] as requested,
    3 when not requested.  Stated for any property [Q] of the world after
    the call. *)
Lemma CreateJob_tables_cases (req : CreateJobRequest) (w : World)
  (Q : World -> Prop) :
  (forall w',
     dead_letter_jobs w' = dead_letter_jobs w -> jobs w' = jobs w -> Q w') ->
  (forall w' job,
     dead_letter_jobs w' = dead_letter_jobs w ->
     jobs w' = jobs w ++ [row_of_job job] ->
     ID job = next_uuid w ->
     RetryCount job = 0 ->
     MaxRetries job = match ReqMaxRetries req with Some m => m | None => 3 end ->
     (forall x, In x (jobs w) -> j_id x <> ID job) ->
     Q w') ->
  Q (snd (CreateJob req w)).
Proof.
  intros Hsame Hnew. unfold CreateJob.
  (* the submission-rate check *)
  unfold bind at 1.
  pose proof (keeps_CheckSubmissionRate store
                ltac:(intros; reflexivity) ltac:(intros; reflexivity)
                (ReqTenantID req) w) as K1.
  destruct (CheckSubmissionRate (ReqTenantID req) w) as [[[]|e1] w1];
    apply store_eq in K1; destruct K1 as (Kj1 & Kd1 & Ku1); simpl in *;
    [|apply Hsame; assumption].
  (* the idempotency lookup *)
  unfold bind at 1.
  pose proof (keeps_store_lookup req w1) as K2.
  match type of K2 with
  | store (snd ?t) = _ => destruct t as [[existing|e2] w2]
  end;
    apply store_eq in K2; destruct K2 as (Kj2 & Kd2 & Ku2); simpl in *;
    [|apply Hsame; congruence].
  destruct existing as [existing|]; [simpl; apply Hsame; congruence|].
  (* the cap on running jobs *)
  unfold bind at 1.
  pose proof (keeps_wrap store "failed to get running jobs count" _
                (keeps_store_GetRunningJobsCountByTenant (ReqTenantID req)) w2)
    as K3.
  destruct (wrap _ _ w2) as [[n|e3] w3];
    apply store_eq in K3; destruct K3 as (Kj3 & Kd3 & Ku3); simpl in *;
    [|apply Hsame; congruence].
  unfold bind at 1.
  pose proof (keeps_CheckConcurrentLimit store (ReqTenantID req) n w3) as K4.
  destruct (CheckConcurrentLimit _ _ w3) as [[[]|e4] w4];
    apply store_eq in K4; destruct K4 as (Kj4 & Kd4 & Ku4); simpl in *;
    [|apply Hsame; congruence].
  (* the new job *)
  unfold bind at 1. unfold uuid_New at 1. unfold bind at 1. unfold try at 1.
  match goal with |- context [repo_CreateJob ?j ?w5] =>
    pose proof (repo_CreateJob_tables j w5) as K6; cbv zeta in K6;
    destruct (repo_CreateJob j w5) as [[job'|err] w6]
  end.
  - simpl in *. destruct K6 as (Kd6 & Ku6 & Kj6 & Hid & Hrc & Hmr & Hfresh).
    apply (Hnew _ job'); simpl; try congruence.
    + unfold next_uuid. congruence.
    + rewrite Hid. rewrite <- Kj1, <- Kj2, <- Kj3, <- Kj4. exact Hfresh.
  - simpl in K6. destruct K6 as (Kd6 & Ku6 & Kj6). simpl in *.
    assert (forall w7 : World, store w7 = store w6 -> Q w7) as Hsame'.
    { intros w7 K7. apply store_eq in K7. destruct K7 as (Kj7 & Kd7 & _).
      apply Hsame; congruence. }
    destruct err; try (apply Hsame'; reflexivity).
    unfold bind at 1.
    pose proof (keeps_wrap store "failed to fetch existing job" _
                  (keeps_store_GetJobByTenantAndIdempotencyKey
                     tenantID idempotencyKey) w6) as K7.
    destruct (wrap _ _ w6) as [[[existing|]|e7] w7]; simpl;
      apply Hsame'; exact K7.
Qed.

(** *** The lease timestamps *)

(** C4, as the code has it.  A row that [CreateJob] adds has neither
    [leased_at] nor [lease_expires_at]; [LeaseJob] sets both; and nothing
    clears them when a job leaves [RUNNING]: [UpdateJobStatus] and
    [IncrementRetryCount], the only writes of those transitions, leave
    [leased_at] and [lease_expires_at] of every row as they are.  So when
    a worker has leased a job at [now] and takes it to [DONE] (success) or
    back to [PENDING] (retry), the store calls not failing, the row is
    left with [leased_at = now] and [lease_expires_at = now +
    leaseDuration], both present. *)
Theorem lease_timestamps_outlive_running
  (leaseDuration : time.Duration) (w : World) :
  (forall req x,
     In x (jobs (snd (CreateJob req w))) -> ~ In x (jobs w) ->
     j_leased_at x = None /\ j_lease_expires_at x = None)
  /\
  (forall id status,
     map lease_columns (jobs (snd (UpdateJobStatus id status w)))
     = map lease_columns (jobs w))
  /\
  (forall id,
     map lease_columns (jobs (snd (IncrementRetryCount id w)))
     = map lease_columns (jobs w))
  /\
  (forall (job : Job) (w1 : World),
     quiet 6 w ->
     LeaseJob leaseDuration w = (Ok (Some job), w1) ->
     Payload job <> "fail"%string \/ RetryCount job < MaxRetries job ->
     forall x', In x' (jobs (snd (processJob job w1))) -> j_id x' = ID job ->
       (j_status x' = StatusDone \/ j_status x' = StatusPending) /\
       j_leased_at x' = Some (time.Unix (next_now w)) /\
       j_lease_expires_at x' =
         Some (time.Unix (next_now w + leaseDuration))).
Proof.
  split; [|split; [|split]].
  - intros req x. apply CreateJob_tables_cases.
    + intros w' _ -> Hx Hnx. contradiction.
    + intros w' job _ -> _ _ _ _ Hx Hnx.
      apply in_app_or in Hx. destruct Hx as [Hx | [<- | []]];
        [contradiction|].
      split; reflexivity.
  - intros. apply UpdateJobStatus_lease_columns.
  - intros. apply IncrementRetryCount_lease_columns.
  - intros job w1 Hq Hlease Hleaves x' Hin Hid.
    destruct (LeaseJob_Some_quiet _ _ _ _ (quiet_le 6 4 w ltac:(lia) Hq) Hlease)
      as (x & _ & Hjob & Hjobs & _ & Hf & _).
    assert (quiet 2 w1) as Hq1 by (apply (quiet_after_4 2 w w1 Hf Hq)).
    assert (ID job = j_id x) as Hjid by (rewrite Hjob; reflexivity).
    destruct (String.eqb (Payload job) "fail") eqn:Hp.
    + apply String.eqb_eq in Hp.
      destruct Hleaves as [Hne | Hlt]; [contradiction|].
      rewrite (processJob_fail _ _ Hp) in Hin.
      rewrite (handleJobFailure_retry job _ (slept (2 * time.Second) w1) Hlt)
        in Hin by exact Hq1.
      simpl in Hin. rewrite Hjobs, Hjid in Hin. rewrite Hjid in Hid.
      destruct (leased_rows_after_retry _ _ _ _ _ _ _ Hin Hid) as (Hs & Hl & He).
      auto.
    + apply String.eqb_neq in Hp.
      rewrite (processJob_success _ _ Hp (quiet_le 2 1 w1 ltac:(lia) Hq1)) in Hin.
      simpl in Hin. rewrite Hjobs, Hjid in Hin. rewrite Hjid in Hid.
      destruct (leased_rows_after_status _ _ _ _ _ _ _ Hin Hid) as (Hs & Hl & He).
      auto.
Qed.

(** The theorem for the pending row leased at second 50 for 30 seconds
    and processed with success. *)
Lemma lease_timestamps_outlive_running_witness :
  (j_status done_row_a = StatusDone \/ j_status done_row_a = StatusPending) /\
  j_leased_at done_row_a = Some 50 /\ j_lease_expires_at done_row_a = Some 80.
Proof.
  exact (proj2 (proj2 (proj2 (lease_timestamps_outlive_running
                                (30 * time.Second) world_one_pending)))
           (leased_job (time.FromUnix 50) (time.FromUnix 80) pending_row_a)
           (snd (LeaseJob (30 * time.Second) world_one_pending))
           (quiet_nil 6 world_one_pending eq_refl)
           eq_refl
           (or_introl (fun H : "hello"%string = "fail"%string =>
                         ltac:(discriminate H)))
           done_row_a (or_introl eq_refl) eq_refl).
Defined.

(** C4 as claimed fails: the pending row, leased at second 50 and
    completed, is [DONE] and still carries [leased_at = 50] and
    [lease_expires_at = 80]; the row leased again after its lease ran out
    and sent back for a retry is [PENDING] and carries them too. *)
Lemma lease_timestamps_present_after_running :
  jobs (snd (ProcessJobs_iteration (30 * time.Second) world_one_pending))
  = [done_row_a] /\
  j_status done_row_a = StatusDone /\
  j_leased_at done_row_a = Some 50 /\
  j_lease_expires_at done_row_a = Some 80
  /\
  jobs (snd (ProcessJobs_iteration (30 * time.Second) world_two_rows))
  = [pending_row_a;
     mkJobsRow "b" "t1" None "fail" StatusPending 3 2 (Some 50) (Some 80) 3 52].
Proof. repeat split; vm_compute; reflexivity. Qed.

Lemma update_where_id_ids (id : string) (f : jobs_row -> jobs_row)
  (t : list jobs_row) :
  (forall y, j_id (f y) = j_id y) ->
  map j_id (update_where_id id f t) = map j_id t.
Proof.
  intros Hf. unfold update_where_id. rewrite map_map. apply map_ext.
  intros y. destruct (String.eqb (j_id y) id); auto.
Qed.

Lemma update_where_id_primary_key (id : string) (f : jobs_row -> jobs_row)
  (t : list jobs_row) :
  (forall y, j_id (f y) = j_id y) ->
  primary_key t -> primary_key (update_where_id id f t).
Proof.
  intros Hf Hpk a b Ha Hb Hab. unfold update_where_id in *.
  apply in_map_iff in Ha. destruct Ha as (a0 & <- & Ha0).
  apply in_map_iff in Hb. destruct Hb as (b0 & <- & Hb0).
  assert (a0 = b0) as ->; [|reflexivity].
  apply Hpk; trivial.
  destruct (String.eqb (j_id a0) id), (String.eqb (j_id b0) id);
    rewrite ?Hf in Hab; exact Hab.
Qed.

Lemma update_where_id_bounded (id : string) (f : jobs_row -> jobs_row)
  (t : list jobs_row) :
  (forall y, In y t -> j_id y = id -> retry_bounded y -> retry_bounded (f y)) ->
  (forall x, In x t -> retry_bounded x) ->
  forall x, In x (update_where_id id f t) -> retry_bounded x.
Proof.
  intros Hf Hb x Hx. unfold update_where_id in Hx.
  apply in_map_iff in Hx. destruct Hx as (y & <- & Hy).
  destruct (String.eqb (j_id y) id) eqn:E; [|auto].
  apply String.eqb_eq in E. auto.
Qed.

Lemma delete_where_id_bounded_table (id : string) (t : list jobs_row) :
  bounded_table t -> bounded_table (delete_where_id id t).
Proof.
  intros [Hpk Hb]. split.
  - intros a b Ha Hb' Hab. apply delete_where_id_In in Ha, Hb'.
    apply Hpk; tauto.
  - intros x Hx. apply delete_where_id_In in Hx. apply Hb. tauto.
Qed.

Lemma set_status_bounded_table (id : string) (status : JobStatus) (t : Z)
  (rows : list jobs_row) :
  bounded_table rows ->
  bounded_table (update_where_id id (set_status status t) rows).
Proof.
  intros [Hpk Hb]. split.
  - apply update_where_id_primary_key; [reflexivity | exact Hpk].
  - apply update_where_id_bounded; [|exact Hb]. intros y _ _ H. exact H.
Qed.

Lemma set_lease_bounded_table (id : string) (now expires : Z)
  (rows : list jobs_row) :
  bounded_table rows ->
  bounded_table (update_where_id id (set_lease now expires) rows).
Proof.
  intros [Hpk Hb]. split.
  - apply update_where_id_primary_key; [reflexivity | exact Hpk].
  - apply update_where_id_bounded; [|exact Hb]. intros y _ _ H. exact H.
Qed.

(** Incrementing [retry_count] keeps the bound when every row of that id
    is below its [max_retries]. *)
Lemma set_retry_bounded_table (id : string) (t : Z) (rows : list jobs_row) :
  (forall y, In y rows -> j_id y = id -> j_retry_count y < j_max_retries y) ->
  bounded_table rows ->
  bounded_table (update_where_id id (set_retry t) rows).
Proof.
  intros Hlt [Hpk Hb]. split.
  - apply update_where_id_primary_key; [reflexivity | exact Hpk].
  - apply update_where_id_bounded; [|exact Hb].
    intros y Hy Hid [H0 _]. specialize (Hlt y Hy Hid).
    unfold retry_bounded. simpl. lia.
Qed.

(** What a call of [LeaseJob] can do to the tables. *)
Lemma LeaseJob_cases (leaseDuration : time.Duration) (w : World) :
  let res := LeaseJob leaseDuration w in
  dead_letter_jobs (snd res) = dead_letter_jobs w /\
  ((jobs (snd res) = jobs w /\ forall job, fst res <> Ok (Some job)) \/
   (exists x now expires,
      In x (jobs w) /\
      fst res = Ok (Some (leased_job now expires x)) /\
      jobs (snd res)
        = update_where_id (j_id x)
            (set_lease (time.Unix now) (time.Unix expires)) (jobs w))).
Proof.
  cbv zeta. run_repo.
  next_verdict; [split; [reflexivity|]; left; split; [reflexivity|congruence]|].
  next_verdict; [split; [reflexivity|]; left; split; [reflexivity|congruence]|].
  destruct (select_leasable _ _) as [x|] eqn:Hsel; simpl;
    [|split; [reflexivity|]; left; split; [reflexivity|congruence]].
  apply select_leasable_Some in Hsel. destruct Hsel as (Hin & _).
  next_verdict; [split; [reflexivity|]; left; split; [reflexivity|congruence]|].
  next_verdict; [split; [reflexivity|]; left; split; [reflexivity|congruence]|].
  split; [reflexivity|]. right. eexists x, _, _.
  split; [exact Hin|]. split; reflexivity.
Qed.

(** What [processJob] can do to the tables. *)
Lemma processJob_cases (job : Job) (w : World) :
  let w' := snd (processJob job w) in
  (dead_letter_jobs w' = dead_letter_jobs w /\
   (jobs w' = jobs w \/
    (exists status t,
       jobs w' = update_where_id (ID job) (set_status status t) (jobs w)) \/
    (RetryCount job < MaxRetries job /\
     exists t, jobs w' = update_where_id (ID job) (set_retry t) (jobs w)) \/
    (RetryCount job < MaxRetries job /\
     exists t1 t2,
       jobs w' = update_where_id (ID job) (set_status StatusPending t2)
                   (update_where_id (ID job) (set_retry t1) (jobs w)))))
  \/
  (MaxRetries job <= RetryCount job /\
   jobs w' = delete_where_id (ID job) (jobs w) /\
   exists record,
     dead_letter_jobs w' = dead_letter_jobs w ++ [record] /\
     d_job_id record = ID job).
Proof.
  cbv zeta. run_worker.
  destruct (String.eqb (Payload job) "fail").
  - destruct (RetryCount job <? MaxRetries job) eqn:Hlt.
    + apply Z.ltb_lt in Hlt. left.
      rewrite IncrementRetryCount_eq. simpl.
      destruct (hd false (faults w)); simpl; [auto|].
      rewrite UpdateJobStatus_eq. simpl.
      destruct (hd false (tl (faults w))); simpl.
      * split; [reflexivity|]. right. right. left. eauto.
      * split; [reflexivity|]. right. right. right. eauto.
    + apply Z.ltb_ge in Hlt.
      destruct (MoveToDeadLetterQueue_cases job
                  ("max retries exceeded: " +:+ "payload is 'fail'")
                  (slept (2 * time.Second) w))
        as [(Hok & Hd & Hj) | (e & He & Hj & Hd)].
      * right.
        destruct (MoveToDeadLetterQueue _ _ _) as [r w1]. simpl in *.
        subst r. simpl. split; [exact Hlt|]. split; [exact Hj|].
        eexists. split; [exact Hd | reflexivity].
      * left.
        destruct (MoveToDeadLetterQueue _ _ _) as [r w1]. simpl in *.
        subst r. simpl. auto.
  - left. rewrite UpdateJobStatus_eq. simpl.
    destruct (hd false (faults w)); simpl; [auto|].
    split; [reflexivity|]. right. left. eauto.
Qed.

(** *** The bound on retries *)

Lemma submit_bounded (req : CreateJobRequest) (w : World) :
  nonneg_retries req ->
  bounded_table (jobs w) -> bounded_table (jobs (snd (CreateJob req w))).
Proof.
  intros Hreq [Hpk Hb]. apply CreateJob_tables_cases.
  - intros w' _ ->. split; assumption.
  - intros w' job _ -> _ Hrc Hmr Hfresh. split.
    + intros a b Ha Hb' Hab.
      apply in_app_or in Ha. apply in_app_or in Hb'.
      destruct Ha as [Ha | [<- | []]], Hb' as [Hb' | [<- | []]].
      * apply Hpk; assumption.
      * destruct (Hfresh a Ha Hab).
      * symmetry in Hab. destruct (Hfresh b Hb' Hab).
      * reflexivity.
    + intros x Hx. apply in_app_or in Hx. destruct Hx as [Hx | [<- | []]];
        [apply Hb; exact Hx|].
      unfold retry_bounded, row_of_job. simpl. rewrite Hrc, Hmr.
      unfold nonneg_retries in Hreq. destruct (ReqMaxRetries req); lia.
Qed.

Lemma work_bounded (leaseDuration : time.Duration) (w : World) :
  bounded_table (jobs w) ->
  bounded_table (jobs (snd (ProcessJobs_iteration leaseDuration w))).
Proof.
  intros Hbt. unfold ProcessJobs_iteration, bind, try.
  pose proof (LeaseJob_cases leaseDuration w) as Hl. cbv zeta in Hl.
  destruct (LeaseJob leaseDuration w) as [r w1]. simpl in Hl.
  destruct Hl as [_ [[Hj Hnone] | (x & now & expires & Hin & -> & Hj)]].
  - destruct r as [[job|]|e]; [destruct (Hnone job eq_refl)| |];
      unfold time_Sleep; simpl; rewrite Hj; exact Hbt.
  - assert (bounded_table (jobs w1)) as Hbt1
      by (rewrite Hj; apply set_lease_bounded_table; exact Hbt).
    assert (forall y, In y (jobs w1) -> j_id y = j_id x ->
                      j_retry_count y = j_retry_count x /\
                      j_max_retries y = j_max_retries x) as Hrow.
    { intros y Hy Hid. rewrite Hj in Hy.
      apply update_where_id_inv in Hy; [|reflexivity].
      destruct Hy as [(y0 & Hy0 & Hid0 & ->) | (_ & Hne)]; [|contradiction].
      destruct Hbt as [Hpk _]. rewrite (Hpk y0 x Hy0 Hin Hid0).
      split; reflexivity. }
    pose proof (processJob_cases (leased_job now expires x) w1) as Hp.
    cbv zeta in Hp. simpl in Hp.
    destruct Hp as [(_ & [Hp | [(s & t & Hp) | [(Hlt & t & Hp) |
                                (Hlt & t1 & t2 & Hp)]]]) | (_ & Hp & _)];
      simpl; rewrite Hp.
    + exact Hbt1.
    + apply set_status_bounded_table. exact Hbt1.
    + apply set_retry_bounded_table; [|exact Hbt1].
      intros y Hy Hid. destruct (Hrow y Hy Hid) as [-> ->]. exact Hlt.
    + apply set_status_bounded_table.
      apply set_retry_bounded_table; [|exact Hbt1].
      intros y Hy Hid. destruct (Hrow y Hy Hid) as [-> ->]. exact Hlt.
    + apply delete_where_id_bounded_table. exact Hbt1.
Qed.

Lemma node_reachable_bounded (w : World) :
  node_reachable nonneg_retries w -> bounded_table (jobs w).
Proof.
  induction 1 as [w Hj _ | w w' _ IH Hstep].
  - rewrite Hj. split; [intros a b []|intros x []].
  - destruct Hstep as [req w Hreq | d w | w w' Hj _].
    + apply submit_bounded; assumption.
    + apply work_bounded; assumption.
    + rewrite Hj. exact IH.
Qed.

(** *** Several workers *)

Lemma update_where_id_elsewhere (id : string) (f : jobs_row -> jobs_row)
  (t : list jobs_row) (x : jobs_row) :
  (forall y, j_id (f y) = j_id y) ->
  j_id x <> id -> (In x (update_where_id id f t) <-> In x t).
Proof.
  intros Hf Hne. split.
  - intros Hx. apply update_where_id_inv in Hx; [|exact Hf].
    destruct Hx as [(y & _ & Hy & ->) | [Hx _]]; [|exact Hx].
    rewrite Hf in Hne. contradiction.
  - intros Hx. apply update_where_id_other; assumption.
Qed.

Lemma delete_where_id_elsewhere (id : string) (t : list jobs_row)
  (x : jobs_row) :
  j_id x <> id -> (In x (delete_where_id id t) <-> In x t).
Proof. intros Hne. rewrite delete_where_id_In. tauto. Qed.

(** What [processJob] does to the rows of other ids: nothing. *)
Lemma processJob_elsewhere (job : Job) (w : World) (x : jobs_row) :
  j_id x <> ID job ->
  (In x (jobs (snd (processJob job w))) <-> In x (jobs w)).
Proof.
  intros Hne. pose proof (processJob_cases job w) as Hp. cbv zeta in Hp.
  destruct Hp as [(_ & [Hp | [(s & t & Hp) | [(_ & t & Hp) |
                              (_ & t1 & t2 & Hp)]]]) | (_ & Hp & _)];
    rewrite Hp.
  - reflexivity.
  - apply update_where_id_elsewhere; [reflexivity | exact Hne].
  - apply update_where_id_elsewhere; [reflexivity | exact Hne].
  - rewrite update_where_id_elsewhere by (reflexivity || exact Hne).
    apply update_where_id_elsewhere; [reflexivity | exact Hne].
  - apply delete_where_id_elsewhere. exact Hne.
Qed.

(** A worker whose job has the [retry_count] and [max_retries] of the
    job's rows keeps the bound. *)
Lemma processJob_current_bounded (job : Job) (w : World) :
  (forall x, In x (jobs w) -> j_id x = ID job ->
     j_retry_count x = RetryCount job /\ j_max_retries x = MaxRetries job) ->
  (forall x, In x (jobs w) -> retry_bounded x) ->
  forall x, In x (jobs (snd (processJob job w))) -> retry_bounded x.
Proof.
  intros Hcur Hb. pose proof (processJob_cases job w) as Hp. cbv zeta in Hp.
  assert (RetryCount job < MaxRetries job ->
          forall y, In y (jobs w) -> j_id y = ID job -> retry_bounded y ->
                    retry_bounded (set_retry 0 y)) as Hstep.
  { intros Hlt y Hy Hid [H0 _]. destruct (Hcur y Hy Hid) as [Hr Hm].
    unfold retry_bounded. simpl. lia. }
  destruct Hp as [(_ & [Hp | [(s & t & Hp) | [(Hlt & t & Hp) |
                              (Hlt & t1 & t2 & Hp)]]]) | (_ & Hp & _)];
    rewrite Hp.
  - exact Hb.
  - apply update_where_id_bounded; [|exact Hb]. intros y _ _ H. exact H.
  - apply update_where_id_bounded; [|exact Hb].
    intros y Hy Hid H. apply (Hstep Hlt y Hy Hid H).
  - apply update_where_id_bounded; [intros y _ _ H; exact H|].
    apply update_where_id_bounded; [|exact Hb].
    intros y Hy Hid H. apply (Hstep Hlt y Hy Hid H).
  - intros x Hx. apply delete_where_id_In in Hx. apply Hb. tauto.
Qed.

Lemma held_current_elsewhere (id : string) (w w' : World) (h : Job) :
  (forall x, j_id x <> id -> (In x (jobs w') <-> In x (jobs w))) ->
  ID h <> id ->
  ((exists x, In x (jobs w) /\ j_id x = ID h) /\
   forall x, In x (jobs w) -> j_id x = ID h ->
     j_retry_count x = RetryCount h /\ j_max_retries x = MaxRetries h) ->
  (exists x, In x (jobs w') /\ j_id x = ID h) /\
  forall x, In x (jobs w') -> j_id x = ID h ->
    j_retry_count x = RetryCount h /\ j_max_retries x = MaxRetries h.
Proof.
  intros Hsame Hne [(x0 & Hx0 & Hid0) Hcur]. split.
  - exists x0. split; [|exact Hid0]. apply Hsame; [congruence | exact Hx0].
  - intros x Hx Hid. apply Hcur; [|exact Hid].
    apply Hsame; [congruence | exact Hx].
Qed.

Lemma held_current_same_jobs (w w' : World) (held : list Job) :
  jobs w' = jobs w -> held_current w held -> held_current w' held.
Proof. unfold held_current. intros ->. trivial. Qed.

Lemma fleet_step_bounded (s s' : World * list Job) :
  fleet_step s s' ->
  bounded_table (jobs (fst s)) /\ held_current (fst s) (snd s) ->
  bounded_table (jobs (fst s')) /\ held_current (fst s') (snd s').
Proof.
  intros Hstep [Hbt Hheld].
  destruct Hstep as [req w held Hreq | d w w1 job held Hl Hfree
                    | d w held Hnone | job w held Hjob
                    | w w' held Hj _]; simpl in *.
  - (* a submission *)
    split; [apply submit_bounded; assumption|].
    apply CreateJob_tables_cases.
    + intros w' _ Hj. apply (held_current_same_jobs _ _ _ Hj Hheld).
    + intros w' job _ Hj _ _ _ Hfresh h Hh.
      destruct (Hheld h Hh) as [(x0 & Hx0 & Hid0) Hcur]. rewrite Hj. split.
      * exists x0. split; [apply in_or_app; left; exact Hx0 | exact Hid0].
      * intros x Hx Hid. apply in_app_or in Hx.
        destruct Hx as [Hx | [<- | []]]; [apply Hcur; assumption|].
        destruct (Hfresh x0 Hx0). simpl in Hid. congruence.
  - (* a lease *)
    pose proof (LeaseJob_cases d w) as Hc. cbv zeta in Hc.
    rewrite Hl in Hc. simpl in Hc.
    destruct Hc as [_ [[_ Hnone] | (x & now & expires & Hx & Heq & Hj)]];
      [destruct (Hnone job eq_refl)|].
    inversion Heq; subst job; clear Heq. simpl in Hfree.
    split; [rewrite Hj; apply set_lease_bounded_table; exact Hbt|].
    intros h [<- | Hh]; simpl.
    + split.
      * exists (set_lease (time.Unix now) (time.Unix expires) x).
        split; [|reflexivity]. rewrite Hj.
        apply update_where_id_In; [exact Hx | reflexivity].
      * intros x' Hx' Hid. rewrite Hj in Hx'.
        apply update_where_id_inv in Hx'; [|reflexivity].
        destruct Hx' as [(y & Hy & Hyid & ->) | (_ & Hne)]; [|contradiction].
        destruct Hbt as [Hpk _]. rewrite (Hpk y x Hy Hx Hyid).
        split; reflexivity.
    + apply (held_current_elsewhere (j_id x) w w1 h).
      * intros x' Hne. rewrite Hj.
        apply update_where_id_elsewhere; [reflexivity | exact Hne].
      * apply (Hfree h Hh).
      * apply (Hheld h Hh).
  - (* a lease that returns no job *)
    pose proof (LeaseJob_cases d w) as Hc. cbv zeta in Hc.
    destruct Hc as [_ [[Hj _] | (x & now & expires & _ & Heq & _)]];
      [|destruct (Hnone _ Heq)].
    rewrite Hj. split; [exact Hbt|].
    apply (held_current_same_jobs _ _ _ Hj Hheld).
  - (* a held job is processed *)
    destruct (Hheld job Hjob) as [_ Hcur]. destruct Hbt as [Hpk Hb]. split.
    + split; [|apply processJob_current_bounded; assumption].
      pose proof (processJob_cases job w) as Hp. cbv zeta in Hp.
      destruct Hp as [(_ & [Hp | [(s & t & Hp) | [(_ & t & Hp) |
                                  (_ & t1 & t2 & Hp)]]]) | (_ & Hp & _)];
        rewrite Hp.
      * exact Hpk.
      * apply update_where_id_primary_key; [reflexivity | exact Hpk].
      * apply update_where_id_primary_key; [reflexivity | exact Hpk].
      * apply update_where_id_primary_key; [reflexivity|].
        apply update_where_id_primary_key; [reflexivity | exact Hpk].
      * intros a b Ha Hb' Hab. apply delete_where_id_In in Ha, Hb'.
        apply Hpk; tauto.
    + intros h Hh. apply filter_In in Hh. destruct Hh as [Hh Hne].
      apply negb_true_iff, String.eqb_neq in Hne.
      apply (held_current_elsewhere (ID job) w _ h).
      * intros x' Hx'. apply processJob_elsewhere. exact Hx'.
      * exact Hne.
      * apply (Hheld h Hh).
  - rewrite Hj. split; [exact Hbt|].
    apply (held_current_same_jobs _ _ _ Hj Hheld).
Qed.

Lemma fleet_reachable_bounded (s : World * list Job) :
  fleet_reachable s ->
  bounded_table (jobs (fst s)) /\ held_current (fst s) (snd s).
Proof.
  induction 1 as [w Hj _ | s s' _ IH Hstep].
  - simpl. rewrite Hj. split; [split; [intros a b []|intros x []]|].
    intros h [].
  - apply (fleet_step_bounded s s' Hstep IH).
Qed.

(** C2, as the code has it.  [CreateJob] takes [max_retries] from the
    request as it is, and a worker decides on a retry by the
    [retry_count] and [max_retries] of the job as it leased it.  So the
    bound holds under two conditions.  A row that [CreateJob] adds for a
    request that leaves [max_retries] out, or gives one that is not
    negative, has [retry_count = 0 <= max_retries].  A worker that
    processes a job whose rows have the job's [retry_count] and
    [max_retries] leaves every row with [0 <= retry_count <=
    max_retries], whatever the driver fails; on a failure with
    [retry_count >= max_retries] it changes no row (it moves the job to
    the dead-letter queue or, failing that, leaves the table as it is).
    Hence, for such requests, and any number of workers whose leases,
    [processJob]s and the submissions come in any order, only that no job
    is leased again while a worker still holds it: every row of table
    [jobs] has [0 <= retry_count <= max_retries]. *)
Theorem retry_count_bounded :
  (forall req w x,
     nonneg_retries req ->
     In x (jobs (snd (CreateJob req w))) -> ~ In x (jobs w) ->
     j_retry_count x = 0 /\ 0 <= j_max_retries x)
  /\
  (forall job w,
     (forall x, In x (jobs w) -> j_id x = ID job ->
        j_retry_count x = RetryCount job /\ j_max_retries x = MaxRetries job) ->
     (forall x, In x (jobs w) -> 0 <= j_retry_count x <= j_max_retries x) ->
     forall x, In x (jobs (snd (processJob job w))) ->
       0 <= j_retry_count x <= j_max_retries x)
  /\
  (forall job failureReason w,
     MaxRetries job <= RetryCount job ->
     forall x, In x (jobs (snd (handleJobFailure job failureReason w))) ->
               In x (jobs w))
  /\
  (forall w held, fleet_reachable (w, held) ->
     forall x, In x (jobs w) -> 0 <= j_retry_count x <= j_max_retries x).
Proof.
  split; [|split; [|split]].
  - intros req w x Hreq. apply CreateJob_tables_cases.
    + intros w' _ -> Hx Hnx. contradiction.
    + intros w' job _ -> _ Hrc Hmr _ Hx Hnx.
      apply in_app_or in Hx. destruct Hx as [Hx | [<- | []]];
        [contradiction|].
      unfold row_of_job. simpl. rewrite Hrc, Hmr.
      unfold nonneg_retries in Hreq. destruct (ReqMaxRetries req); lia.
  - intros job w Hcur Hb x Hx.
    apply (processJob_current_bounded job w Hcur Hb x Hx).
  - intros job failureReason w Hge x. run_worker.
    apply Z.ltb_ge in Hge. rewrite Hge.
    destruct (MoveToDeadLetterQueue_cases job
                ("max retries exceeded: " +:+ failureReason) w)
      as [(Hok & _ & Hj) | (e & He & Hj & _)];
      destruct (MoveToDeadLetterQueue _ _ _) as [r w1]; simpl in *;
      subst r; simpl; rewrite Hj; [|trivial].
    intros Hx. apply delete_where_id_In in Hx. tauto.
  - intros w held Hr x Hx.
    destruct (fleet_reachable_bounded (w, held) Hr) as [[_ Hb] _].
    apply (Hb x Hx).
Qed.

(** The theorem for a failing job of [max_retries = 1] that one worker
    has leased and processed: [retry_count = 1]. *)
Lemma retry_count_bounded_witness :
  In row_retried (jobs (snd (processJob job_first_lease world_first_lease))) /\
  0 <= j_retry_count row_retried <= j_max_retries row_retried.
Proof.
  assert (In row_retried
            (jobs (snd (processJob job_first_lease world_first_lease))))
    as Hin by (vm_compute; left; reflexivity).
  split; [exact Hin|].
  apply (proj2 (proj2 (proj2 retry_count_bounded))
           (snd (processJob job_first_lease world_first_lease))
           (List.filter
              (fun h => negb (String.eqb (ID h) (ID job_first_lease)))
              [job_first_lease]));
    [|exact Hin].
  apply (fleet_next (world_first_lease, [job_first_lease])).
  - apply (fleet_next (world_submitted, [])).
    + apply (fleet_next (fresh_world (time.FromUnix 5) ["id-1"%string], [])).
      * apply fleet_start; reflexivity.
      * apply (fleet_submit request_retry_once). unfold nonneg_retries.
        simpl. lia.
    + apply (fleet_lease (30 * time.Second)).
      * vm_compute. reflexivity.
      * intros h [].
  - apply fleet_process. left. reflexivity.
Defined.

(** C2 as claimed fails, in two ways.  A request with [max_retries = -1]
    is accepted, and its row has [retry_count = 0 > max_retries].  And
    with [max_retries = 1]: the job is leased at second 5; its lease runs
    out while the worker stalls, a second worker leases it at second 41,
    each of the two jobs has [retry_count = 0 < max_retries], so each
    failure is handled by a retry, and the row is left with [retry_count
    = 2 > max_retries]. *)
Lemma retry_count_exceeds_max_retries :
  (node_reachable (fun _ => True) world_negative /\
   jobs world_negative = [row_negative] /\
   ~ (0 <= j_retry_count row_negative <= j_max_retries row_negative))
  /\
  (nonneg_retries request_retry_once /\
   LeaseJob (30 * time.Second) world_submitted
     = (Ok (Some job_first_lease), world_first_lease) /\
   LeaseJob (30 * time.Second) (slept (36 * time.Second) world_first_lease)
     = (Ok (Some job_second_lease), world_second_lease) /\
   RetryCount job_first_lease < MaxRetries job_first_lease /\
   RetryCount job_second_lease < MaxRetries job_second_lease /\
   jobs (snd (processJob job_second_lease
                (snd (processJob job_first_lease world_second_lease))))
     = [row_two_workers] /\
   ~ (0 <= j_retry_count row_two_workers <= j_max_retries row_two_workers)).
Proof.
  split.
  - split; [|split].
    + apply (node_next _ (fresh_world (time.FromUnix 5) ["id-1"%string])).
      * apply node_start; reflexivity.
      * apply (step_submit (fun _ => True) request_negative). exact I.
    + vm_compute. reflexivity.
    + simpl. lia.
  - split; [unfold nonneg_retries; simpl; lia|].
    split; [vm_compute; reflexivity|]. split; [vm_compute; reflexivity|].
    split; [simpl; lia|]. split; [simpl; lia|].
    split; [vm_compute; reflexivity|]. simpl. lia.
Qed.

(** *** No job id live in both tables *)

Lemma live_disjoint_same_ids (w w' : World) :
  map j_id (jobs w') = map j_id (jobs w) ->
  dead_letter_jobs w' = dead_letter_jobs w ->
  live_disjoint w -> live_disjoint w'.
Proof.
  intros Hids Hd Hdis x d Hx Hdl. rewrite Hd in Hdl.
  assert (In (j_id x) (map j_id (jobs w))) as Hin
    by (rewrite <- Hids; apply in_map; exact Hx).
  apply in_map_iff in Hin. destruct Hin as (x0 & Heq & Hx0).
  rewrite <- Heq. apply Hdis; assumption.
Qed.

Lemma MoveToDeadLetterQueue_live_disjoint
  (job : Job) (failureReason : string) (w : World) :
  live_disjoint w ->
  live_disjoint (snd (MoveToDeadLetterQueue job failureReason w)).
Proof.
  intros Hdis.
  destruct (MoveToDeadLetterQueue_cases job failureReason w)
    as [(_ & Hd & Hj) | (e' & _ & Hj & Hd)];
    unfold live_disjoint; rewrite Hj, Hd; [|exact Hdis].
  intros x d Hx Hdl. apply delete_where_id_In in Hx.
  destruct Hx as [Hx Hne]. apply in_app_or in Hdl.
  destruct Hdl as [Hdl | [<- | []]]; [apply Hdis; assumption | exact Hne].
Qed.

Lemma store_step_live_disjoint (w w' : World) :
  store_step w w' -> live_disjoint w -> live_disjoint w'.
Proof.
  intros Hstep Hdis.
  destruct Hstep as [req w Hnew | d w | id status w | id w
                    | job failureReason w | w w' Hj Hd].
  - apply CreateJob_tables_cases.
    + intros w' Hd Hj.
      apply (live_disjoint_same_ids w w'); [congruence | exact Hd | exact Hdis].
    + intros w' job Hd Hj Hid _ _ _ x d Hx Hdl. rewrite Hd in Hdl.
      rewrite Hj in Hx. apply in_app_or in Hx.
      destruct Hx as [Hx | [<- | []]]; [apply Hdis; assumption|].
      simpl. rewrite Hid. intros Heq. symmetry in Heq.
      destruct (Hnew d Hdl Heq).
  - pose proof (LeaseJob_cases d w) as Hl. cbv zeta in Hl.
    destruct Hl as [Hd [[Hj _] | (x & now & expires & _ & _ & Hj)]];
      apply (live_disjoint_same_ids w); trivial; rewrite Hj;
      [reflexivity | apply update_where_id_ids; reflexivity].
  - apply (live_disjoint_same_ids w); trivial;
      rewrite UpdateJobStatus_eq; destruct (hd false (faults w)); simpl;
      try reflexivity.
    apply update_where_id_ids; reflexivity.
  - apply (live_disjoint_same_ids w); trivial;
      rewrite IncrementRetryCount_eq; destruct (hd false (faults w)); simpl;
      try reflexivity.
    apply update_where_id_ids; reflexivity.
  - apply MoveToDeadLetterQueue_live_disjoint. exact Hdis.
  - apply (live_disjoint_same_ids w); [congruence | exact Hd | exact Hdis].
Qed.

Lemma store_reachable_live_disjoint (w : World) :
  store_reachable w -> live_disjoint w.
Proof.
  induction 1 as [w Hj _ | w w' _ IH Hstep].
  - intros x d Hx. rewrite Hj in Hx. destruct Hx.
  - apply (store_step_live_disjoint w w' Hstep IH).
Qed.

(** C8.  [MoveToDeadLetterQueue(job, reason)] is all or nothing.  When it
    succeeds, table [dead_letter_jobs] has one more row, with [job_id],
    [tenant_id] and [payload] those of the job, [failure_reason = reason]
    and [failed_at = now] (the clock's second reading, in seconds), and
    table [jobs] has lost the rows of the job's id and no other.  When it
    returns an error, both tables are as before.  It succeeds whenever the
    driver fails none of its four statements and the record's id is not
    taken.  Either way no job id is afterwards live in both tables if none
    was before; and in every world that submissions and repository calls
    lead to, in any order and with any failures of the driver, no job id
    is live in both tables. *)
Theorem MoveToDeadLetterQueue_atomic
  (job : Job) (failureReason : string) (w : World) :
  let res := MoveToDeadLetterQueue job failureReason w in
  let record :=
    mkDeadLetterRow (dlqID (ID job) (time.Unix (next_now w))) (ID job)
      (TenantID job) (Payload job) failureReason
      (time.Unix (next_next_now w)) in
  (fst res = Ok tt ->
   dead_letter_jobs (snd res) = dead_letter_jobs w ++ [record] /\
   jobs (snd res) = delete_where_id (ID job) (jobs w) /\
   (forall x, In x (jobs (snd res)) <-> In x (jobs w) /\ j_id x <> ID job))
  /\
  (forall e, fst res = Err e ->
   jobs (snd res) = jobs w /\
   dead_letter_jobs (snd res) = dead_letter_jobs w)
  /\
  (quiet 4 w ->
   (forall d, In d (dead_letter_jobs w) -> d_id d <> d_id record) ->
   fst res = Ok tt)
  /\
  (live_disjoint w -> live_disjoint (snd res))
  /\
  (forall w0, store_reachable w0 -> live_disjoint w0).
Proof.
  cbv zeta.
  pose proof (MoveToDeadLetterQueue_cases job failureReason w) as Hc.
  cbv zeta in Hc.
  split; [|split; [|split; [|split]]].
  - intros Hok. destruct Hc as [(_ & Hd & Hj) | (e & He & _)];
      [|rewrite He in Hok; discriminate].
    split; [exact Hd|]. split; [exact Hj|].
    intros x. rewrite Hj. apply delete_where_id_In.
  - intros e He. destruct Hc as [(Hok & _) | (e' & _ & Hj & Hd)];
      [rewrite Hok in He; discriminate | split; assumption].
  - intros Hq Hfresh.
    rewrite (MoveToDeadLetterQueue_quiet _ _ _ Hq Hfresh). reflexivity.
  - apply MoveToDeadLetterQueue_live_disjoint.
  - apply store_reachable_live_disjoint.
Qed.

(** The theorem for the job leased from row ["b"]: the move succeeds, the
    record is appended and only row ["a"] stays in table [jobs]. *)
Lemma MoveToDeadLetterQueue_atomic_witness :
  fst (MoveToDeadLetterQueue job_b "max retries exceeded: payload is 'fail'"
         world_two_rows) = Ok tt /\
  dead_letter_jobs
    (snd (MoveToDeadLetterQueue job_b "max retries exceeded: payload is 'fail'"
            world_two_rows))
  = [mkDeadLetterRow "dlq_b_50" "b" "t1" "fail"
       "max retries exceeded: payload is 'fail'" 50] /\
  jobs (snd (MoveToDeadLetterQueue job_b
               "max retries exceeded: payload is 'fail'" world_two_rows))
  = [pending_row_a].
Proof.
  destruct (MoveToDeadLetterQueue_atomic job_b
              "max retries exceeded: payload is 'fail'" world_two_rows)
    as (Hmoved & _ & Hsucceeds & _ & _).
  assert (fst (MoveToDeadLetterQueue job_b
                 "max retries exceeded: payload is 'fail'" world_two_rows)
          = Ok tt) as Hok.
  { apply Hsucceeds.
    - apply quiet_nil. reflexivity.
    - intros d []. }
  destruct (Hmoved Hok) as (Hd & Hj & _).
  split; [exact Hok|]. split.
  - rewrite Hd. vm_compute. reflexivity.
  - rewrite Hj. vm_compute. reflexivity.
Defined.


(** * Further properties of the code *)

(** ** Ordered queries *)

Section OrderBy.

Context {A : Type} (key : A -> Z).

Lemma insert_by_Permutation (a : A) (l : list A) :
  Permutation (insert_by key a l) (a :: l).
Proof.
  induction l as [|b l IH]; simpl; [reflexivity|].
  destruct (key a <=? key b); [reflexivity|].
  rewrite IH. apply perm_swap.
Qed.

Lemma order_by_Permutation (l : list A) : Permutation (order_by key l) l.
Proof.
  induction l as [|a l IH]; simpl; [reflexivity|].
  rewrite insert_by_Permutation. apply perm_skip. exact IH.
Qed.

Lemma insert_by_sorted (a : A) (l : list A) :
  StronglySorted (fun x y => key x <= key y) l ->
  StronglySorted (fun x y => key x <= key y) (insert_by key a l).
Proof.
  induction 1 as [|b l Hs IH Hall]; simpl.
  - constructor; constructor.
  - destruct (key a <=? key b) eqn:E.
    + apply Z.leb_le in E. constructor; [constructor; assumption|].
      constructor; [exact E|].
      eapply List.Forall_impl; [|exact Hall]. simpl. intros c Hc. lia.
    + apply Z.leb_gt in E. constructor; [exact IH|].
      apply (Permutation_Forall (Permutation_sym (insert_by_Permutation a l))).
      constructor; [lia | exact Hall].
Qed.

Lemma order_by_sorted (l : list A) :
  StronglySorted (fun x y => key x <= key y) (order_by key l).
Proof.
  induction l as [|a l IH]; simpl; [constructor|].
  apply insert_by_sorted. exact IH.
Qed.

End OrderBy.

Lemma StronglySorted_weaken {A : Type} (R S : A -> A -> Prop) (l : list A) :
  (forall x y, R x y -> S x y) -> StronglySorted R l -> StronglySorted S l.
Proof.
  intros HRS. induction 1 as [|a l Hs IH Hall]; constructor; [exact IH|].
  eapply List.Forall_impl; [|exact Hall]. intros; auto.
Qed.

Lemma StronglySorted_map {A B : Type} (f : A -> B) (R : B -> B -> Prop)
  (l : list A) :
  StronglySorted (fun x y => R (f x) (f y)) l -> StronglySorted R (map f l).
Proof.
  induction 1 as [|a l Hs IH Hall]; simpl; constructor; [exact IH|].
  apply List.Forall_map. exact Hall.
Qed.

Ltac run_query :=
  cbv beta iota zeta delta
    [ListJobsByStatus repo_ListJobsByStatus ListDeadLetterJobs
     repo_ListDeadLetterJobs GetJob GetJobByID GetTotalJobsCount
     GetCompletedJobsCount GetFailedJobsCount GetDeadLetterQueueCount
     bind wrap try db_Query db_Query_dlq driver ret throw];
  simpl.

Arguments select_by_status : simpl never.
Arguments select_dead_letters : simpl never.

Lemma select_by_status_status (status : JobStatus) (t : list jobs_row)
  (x : jobs_row) :
  In x (select_by_status status t) -> j_status x = status.
Proof.
  unfold select_by_status. intros Hin.
  apply (Permutation_in x (order_by_Permutation j_created_at _)) in Hin.
  apply filter_In in Hin. destruct Hin as [_ H].
  destruct (j_status x), status; simpl in H; congruence.
Qed.

(** X1.  [ListJobsByStatus(status)], the driver failing neither the query
    nor the iteration, returns the jobs of exactly the rows of that
    status, each once, oldest [created_at] first; it never changes a
    table. *)
Theorem ListJobsByStatus_sorted (status : JobStatus) (w : World) :
  quiet 2 w ->
  exists rows,
    fst (ListJobsByStatus status w) = Ok (map scan_job rows) /\
    Permutation rows
      (List.filter (fun x => JobStatus_eqb (j_status x) status) (jobs w)) /\
    StronglySorted (fun a b => CreatedAt a <= CreatedAt b) (map scan_job rows) /\
    (forall job, In job (map scan_job rows) -> Status job = status) /\
    jobs (snd (ListJobsByStatus status w)) = jobs w /\
    dead_letter_jobs (snd (ListJobsByStatus status w)) = dead_letter_jobs w.
Proof.
  intros Hq. exists (select_by_status status (jobs w)).
  pose proof (quiet_1 w (quiet_le 2 1 w ltac:(lia) Hq)) as Q1.
  pose proof (quiet_2 w Hq) as Q2.
  run_query. rewrite Q1. simpl. rewrite Q2. simpl.
  split; [reflexivity|]. split; [apply order_by_Permutation|].
  split; [|split; [|split; reflexivity]].
  - apply StronglySorted_map.
    eapply StronglySorted_weaken; [|apply (order_by_sorted j_created_at)].
    unfold scan_job, time.FromUnix, time.Second. simpl. intros a b Hab. lia.
  - intros job Hin. apply in_map_iff in Hin. destruct Hin as (x & <- & Hx).
    simpl. apply (select_by_status_status _ _ _ Hx).
Qed.

(** The theorem for the pending jobs of the listing world, where the job
    created at second 6 is stored after the one created at second 9. *)
Lemma ListJobsByStatus_sorted_witness :
  exists rows,
    fst (ListJobsByStatus StatusPending world_listing) = Ok (map scan_job rows) /\
    Permutation rows
      (List.filter (fun x => JobStatus_eqb (j_status x) StatusPending)
         (jobs world_listing)) /\
    StronglySorted (fun a b => CreatedAt a <= CreatedAt b) (map scan_job rows) /\
    (forall job, In job (map scan_job rows) -> Status job = StatusPending) /\
    jobs (snd (ListJobsByStatus StatusPending world_listing))
      = jobs world_listing /\
    dead_letter_jobs (snd (ListJobsByStatus StatusPending world_listing))
      = dead_letter_jobs world_listing.
Proof.
  exact (ListJobsByStatus_sorted StatusPending world_listing
           (quiet_nil 2 world_listing eq_refl)).
Defined.

Example ListJobsByStatus_pending_of_listing :
  fst (ListJobsByStatus StatusPending world_listing)
  = Ok [scan_job (mkJobsRow "j6" "t1" (Some "k") "p" StatusPending 3 1
                    (Some 7) (Some 37) 6 9);
        scan_job (mkJobsRow "j9" "t1" None "p" StatusPending 3 0
                    None None 9 9)].
Proof. vm_compute. reflexivity. Qed.

(** ** [CreateJob], outcome by outcome *)

Lemma store_m_eq (w w' : World) :
  store_m w' = store_m w ->
  jobs w' = jobs w /\ dead_letter_jobs w' = dead_letter_jobs w /\
  uuids w' = uuids w /\ metrics w' = metrics w.
Proof. unfold store_m. intros H. inversion H. auto. Qed.

Lemma keeps_store_m_GetJobByTenantAndIdempotencyKey (tenantID key : string) :
  keeps store_m (GetJobByTenantAndIdempotencyKey tenantID key).
Proof. unfold GetJobByTenantAndIdempotencyKey. keeps_walk. Qed.

Lemma keeps_store_m_GetRunningJobsCountByTenant (tenantID : string) :
  keeps store_m (GetRunningJobsCountByTenant tenantID).
Proof. unfold GetRunningJobsCountByTenant. keeps_walk. Qed.

(** A job found under a tenant and key is the scan of a row of that
    tenant and key. *)
Lemma GetJobByTenantAndIdempotencyKey_Some
  (tenantID key : string) (w w' : World) (job : Job) :
  key <> ""%string ->
  GetJobByTenantAndIdempotencyKey tenantID key w = (Ok (Some job), w') ->
  exists x, In x (jobs w) /\ job = scan_job x /\
            j_tenant_id x = tenantID /\ j_idempotency_key x = Some key.
Proof.
  intros Hkey. rewrite GetJobByTenantAndIdempotencyKey_eq. cbv zeta.
  apply String.eqb_neq in Hkey. rewrite Hkey.
  destruct (hd false (faults w)); [discriminate|].
  destruct (List.find _ (jobs w)) as [x|] eqn:Hx; [|discriminate].
  intros H. inversion H; subst. apply find_some in Hx.
  destruct Hx as [Hin Hq]. unfold tenant_key_equals in Hq.
  apply andb_true_iff in Hq. destruct Hq as [Ht Hk].
  apply String.eqb_eq in Ht.
  destruct (j_idempotency_key x) as [k|] eqn:Hkx; [|discriminate].
  apply String.eqb_eq in Hk. subst k. exists x. auto.
Qed.

(** A job that [repo_CreateJob] returns went through the INSERT. *)
Lemma repo_CreateJob_Ok (job job' : Job) (w w' : World) :
  repo_CreateJob job w = (Ok job', w') ->
  job' = with_created (next_now w) job /\
  insert_job (row_of_job job') (jobs w) = Ok (jobs w') /\
  jobs w' = jobs w ++ [row_of_job job'] /\
  dead_letter_jobs w' = dead_letter_jobs w /\
  uuids w' = uuids w /\ metrics w' = metrics w.
Proof.
  rewrite repo_CreateJob_eq. cbv zeta. unfold insert_job.
  destruct (hd false (faults w)); [discriminate|].
  destruct (existsb (fun x => String.eqb (ID job) (j_id x)) (jobs w)) eqn:E1;
    [destruct (negb _); discriminate|].
  destruct (existsb (idempotency_conflict
                       (row_of_job (with_created (next_now w) job)))
              (jobs w)) eqn:E2;
    [destruct (negb _); discriminate|].
  intros H. inversion H; subst. simpl. rewrite E1, E2. auto 10.
Qed.

(** What a call of [CreateJob] comes to: an error, with tables and
    counters as before; a job that was there already, with tables and
    counters as before; or a new job, inserted under the next uuid, with
    [total_jobs] incremented. *)
Lemma CreateJob_outcomes (req : CreateJobRequest) (w : World)
  (Q : result Job * World -> Prop) :
  (forall e w',
     jobs w' = jobs w -> dead_letter_jobs w' = dead_letter_jobs w ->
     metrics w' = metrics w -> Q (Err e, w')) ->
  (forall x w',
     In x (jobs w) ->
     jobs w' = jobs w -> dead_letter_jobs w' = dead_letter_jobs w ->
     metrics w' = metrics w -> Q (Ok (scan_job x), w')) ->
  (forall now w',
     let job := with_created now (new_job req (next_uuid w)) in
     insert_job (row_of_job job) (jobs w) = Ok (jobs w') ->
     jobs w' = jobs w ++ [row_of_job job] ->
     dead_letter_jobs w' = dead_letter_jobs w ->
     metrics w' =
       mkMetrics (int64_inc (totalJobs (metrics w))) (completedJobs (metrics w))
         (failedJobs (metrics w)) (retriedJobs (metrics w)) ->
     Q (Ok job, w')) ->
  Q (CreateJob req w).
Proof.
  intros Herr Hexisting Hnew. unfold CreateJob.
  (* the submission-rate check *)
  unfold bind at 1.
  pose proof (keeps_CheckSubmissionRate store_m
                ltac:(intros; reflexivity) ltac:(intros; reflexivity)
                (ReqTenantID req) w) as K1.
  destruct (CheckSubmissionRate (ReqTenantID req) w) as [[[]|e1] w1];
    apply store_m_eq in K1; destruct K1 as (Kj1 & Kd1 & Ku1 & Km1);
    simpl in *; [|apply Herr; assumption].
  (* the idempotency lookup *)
  unfold bind at 1.
  assert (forall (r : result (option Job)) (w2 : World),
            (if negb (String.eqb (ReqIdempotencyKey req) "") then
               wrap "failed to check idempotency"
                 (GetJobByTenantAndIdempotencyKey (ReqTenantID req)
                    (ReqIdempotencyKey req))
             else ret None) w1 = (r, w2) ->
            store_m w2 = store_m w1 /\
            forall job, r = Ok (Some job) ->
                        exists x, In x (jobs w1) /\ job = scan_job x) as Hlook.
  { intros r w2. destruct (negb _) eqn:Hk.
    - apply negb_true_iff, String.eqb_neq in Hk. unfold wrap.
      pose proof (keeps_store_m_GetJobByTenantAndIdempotencyKey
                    (ReqTenantID req) (ReqIdempotencyKey req) w1) as K.
      destruct (GetJobByTenantAndIdempotencyKey _ _ w1) as [[o|e] w'] eqn:Hg;
        intros H; inversion H; subst; (split; [exact K|]);
        intros job Hj; inversion Hj; subst.
      destruct (GetJobByTenantAndIdempotencyKey_Some _ _ _ _ _ Hk Hg)
        as (x & Hx & Hs & _). eauto.
    - intros H. inversion H; subst. split; [reflexivity|].
      intros job Hj. discriminate Hj. }
  match goal with
  | |- context [match ?t w1 with _ => _ end] =>
      destruct (t w1) as [[existing|e2] w2] eqn:Hl
  end;
    destruct (Hlook _ _ eq_refl) as (K2 & Hfound);
    apply store_m_eq in K2; destruct K2 as (Kj2 & Kd2 & Ku2 & Km2);
    [|apply Herr; congruence].
  destruct existing as [existing|].
  { destruct (Hfound existing eq_refl) as (x & Hx & ->).
    simpl. apply Hexisting; congruence. }
  clear Hl Hlook Hfound.
  (* the cap on running jobs *)
  unfold bind at 1.
  pose proof (keeps_wrap store_m "failed to get running jobs count" _
                (keeps_store_m_GetRunningJobsCountByTenant (ReqTenantID req))
                w2) as K3.
  destruct (wrap "failed to get running jobs count"
              (GetRunningJobsCountByTenant (ReqTenantID req)) w2)
    as [[n|e3] w3];
    apply store_m_eq in K3; destruct K3 as (Kj3 & Kd3 & Ku3 & Km3);
    simpl in *; [|apply Herr; congruence].
  unfold bind at 1.
  pose proof (keeps_CheckConcurrentLimit store_m (ReqTenantID req) n w3) as K4.
  destruct (CheckConcurrentLimit _ _ w3) as [[[]|e4] w4];
    apply store_m_eq in K4; destruct K4 as (Kj4 & Kd4 & Ku4 & Km4);
    simpl in *; [|apply Herr; congruence].
  (* the new job *)
  unfold bind at 1. unfold uuid_New at 1. unfold bind at 1. unfold try at 1.
  match goal with |- context [repo_CreateJob ?j ?w5] =>
    pose proof (repo_CreateJob_tables j w5) as K6; cbv zeta in K6;
    destruct (repo_CreateJob j w5) as [[job'|err] w6] eqn:Hc
  end.
  - apply repo_CreateJob_Ok in Hc.
    destruct Hc as (-> & Hins & Hj6 & Hd6 & Hu6 & Hm6). simpl in *.
    unfold IncrementTotalJobs. simpl.
    assert (hd "00000000-0000-0000-0000-000000000000"%string (uuids w4)
            = next_uuid w) as Hid by (unfold next_uuid; congruence).
    assert (jobs w4 = jobs w) as Hj by congruence.
    rewrite Hid in Hins, Hj6 |- *. rewrite Hj in Hins, Hj6.
    apply (Hnew (next_now (set_uuids (tl (uuids w4)) w4))); simpl;
      [exact Hins | exact Hj6 | congruence | congruence].
  - simpl in K6. destruct K6 as (Kd6 & Ku6 & Kj6). simpl in *.
    set (w5 := set_uuids (tl (uuids w4)) w4) in *.
    assert (metrics w6 = metrics w) as Km6.
    { revert Hc. rewrite repo_CreateJob_eq. cbv zeta.
      destruct (hd false (faults w5));
        [intros H; inversion H; subst; simpl; congruence|].
      destruct (existsb _ (jobs w5));
        [intros H; inversion H; subst; simpl; congruence|].
      destruct (existsb _ (jobs w5));
        intros H; inversion H; subst; simpl; congruence. }
    assert (forall e, Q (Err e, w6)) as Herr6
      by (intros e; apply Herr; congruence).
    destruct err; try apply Herr6.
    unfold bind at 1. unfold wrap.
    pose proof (keeps_store_m_GetJobByTenantAndIdempotencyKey
                  tenantID idempotencyKey w6) as K7.
    destruct (GetJobByTenantAndIdempotencyKey tenantID idempotencyKey w6)
      as [[[existing|]|e7] w7] eqn:Hg;
      apply store_m_eq in K7; destruct K7 as (Kj7 & Kd7 & Ku7 & Km7);
      simpl in Kj7, Kd7, Ku7, Km7 |- *; try (apply Herr; congruence).
    revert Hg. rewrite GetJobByTenantAndIdempotencyKey_eq. cbv zeta.
    destruct (hd false (faults w6)); [discriminate|].
    destruct (List.find _ (jobs w6)) as [x|] eqn:Hx; [|discriminate].
    intros H. inversion H; subst. apply find_some in Hx.
    destruct Hx as [Hin _]. apply Hexisting; simpl; congruence.
Qed.

(** X2.  [CreateJob] counts what it inserts.  A call changes nothing in
    the tables and counters, or it appends exactly one row to table [jobs],
    returns the job of that row, and increments [total_jobs] and no other
    counter.  The row is [PENDING] with [retry_count = 0], no lease, the
    next uuid as id, [max_retries] as requested (3 when not requested) and
    a NULL key when the request has none.  Table [dead_letter_jobs] is
    never touched. *)
Theorem CreateJob_counts_insertions (req : CreateJobRequest) (w : World) :
  let res := CreateJob req w in
  dead_letter_jobs (snd res) = dead_letter_jobs w /\
  ((jobs (snd res) = jobs w /\ metrics (snd res) = metrics w) \/
   (exists now,
      let job := with_created now (new_job req (next_uuid w)) in
      fst res = Ok job /\
      jobs (snd res) =
        jobs w ++
        [mkJobsRow (next_uuid w) (ReqTenantID req)
           (if String.eqb (ReqIdempotencyKey req) "" then None
            else Some (ReqIdempotencyKey req))
           (ReqPayload req) StatusPending
           (match ReqMaxRetries req with Some m => m | None => 3 end) 0
           None None (time.Unix now) (time.Unix now)] /\
      metrics (snd res) =
        mkMetrics (int64_inc (totalJobs (metrics w)))
          (completedJobs (metrics w)) (failedJobs (metrics w))
          (retriedJobs (metrics w)))).
Proof.
  cbv zeta.
  apply (CreateJob_outcomes req w
           (fun res =>
              dead_letter_jobs (snd res) = dead_letter_jobs w /\
              ((jobs (snd res) = jobs w /\ metrics (snd res) = metrics w) \/
               (exists now,
                  fst res = Ok (with_created now (new_job req (next_uuid w))) /\
                  jobs (snd res) =
                    jobs w ++
                    [mkJobsRow (next_uuid w) (ReqTenantID req)
                       (if String.eqb (ReqIdempotencyKey req) "" then None
                        else Some (ReqIdempotencyKey req))
                       (ReqPayload req) StatusPending
                       (match ReqMaxRetries req with Some m => m | None => 3 end)
                       0 None None (time.Unix now) (time.Unix now)] /\
                  metrics (snd res) =
                    mkMetrics (int64_inc (totalJobs (metrics w)))
                      (completedJobs (metrics w)) (failedJobs (metrics w))
                      (retriedJobs (metrics w)))))).
  - intros e w' Hj Hd Hm. simpl. auto.
  - intros x w' _ Hj Hd Hm. simpl. auto.
  - intros now w' job _ Hj Hd Hm. simpl. split; [exact Hd|]. right.
    exists now. split; [reflexivity|]. split; [exact Hj | exact Hm].
Qed.

(** ** Reading a job back *)

Lemma unique_ids_inj (t : list jobs_row) (a b : jobs_row) :
  unique_ids t -> In a t -> In b t -> j_id a = j_id b -> a = b.
Proof.
  unfold unique_ids. induction t as [|c t IH]; simpl; [intros _ []|].
  intros Hnd Ha Hb Hab. inversion Hnd as [|? ? Hnotin Hnd']; subst.
  destruct Ha as [<- | Ha], Hb as [<- | Hb].
  - reflexivity.
  - destruct Hnotin. rewrite Hab. apply in_map. exact Hb.
  - destruct Hnotin. rewrite <- Hab. apply in_map. exact Ha.
  - apply IH; assumption.
Qed.

Lemma GetJob_quiet (id : string) (w : World) :
  quiet 1 w ->
  GetJob id w =
    (match List.find (fun x => String.eqb (j_id x) id) (jobs w) with
     | Some x => Returned (scan_job x)
     | None => Sentinel ErrJobNotFound
     end,
     set_faults (tl (faults w)) w).
Proof.
  intros Hq. run_query. rewrite (quiet_1 w Hq). simpl.
  destruct (List.find _ (jobs w)); reflexivity.
Qed.

Lemma find_by_id_In (id : string) (t : list jobs_row) (x : jobs_row) :
  unique_ids t -> In x t -> j_id x = id ->
  List.find (fun y => String.eqb (j_id y) id) t = Some x.
Proof.
  intros Hu Hin Hid.
  destruct (List.find _ t) as [y|] eqn:Hf.
  - apply find_some in Hf. destruct Hf as [Hy Heq].
    apply String.eqb_eq in Heq. f_equal.
    apply (unique_ids_inj t); congruence.
  - pose proof (find_none _ _ Hf x Hin) as Hno. simpl in Hno.
    apply String.eqb_neq in Hno. contradiction.
Qed.

Lemma insert_job_unique_ids (r : jobs_row) (t t' : list jobs_row) :
  insert_job r t = Ok t' -> unique_ids t -> unique_ids t'.
Proof.
  unfold insert_job, unique_ids.
  destruct (existsb (idempotency_conflict r) t); [discriminate|].
  destruct (existsb (fun x => String.eqb (j_id r) (j_id x)) t) eqn:E;
    [discriminate|].
  intros H Hnd. inversion H; subst. rewrite map_app. simpl.
  apply List.NoDup_app; [exact Hnd | |].
  - constructor; [intros [] | constructor].
  - intros id Hin [<- | []]. apply in_map_iff in Hin.
    destruct Hin as (x & Hx & Hin).
    assert (existsb (fun x => String.eqb (j_id r) (j_id x)) t = true) as Hyes.
    { apply existsb_exists. exists x. split; [exact Hin|].
      apply String.eqb_eq. auto. }
    congruence.
Qed.

Lemma Unix_FromUnix (c : Z) : time.Unix (time.FromUnix c) = c.
Proof.
  unfold time.Unix, time.FromUnix, time.Second. apply Z.div_mul. lia.
Qed.

Lemma stored_job_scan (x : jobs_row) : stored_job (scan_job x) = scan_job x.
Proof. unfold stored_job, scan_job. simpl. rewrite !Unix_FromUnix. reflexivity. Qed.

Lemma scan_row_of_job (job : Job) :
  LeasedAt job = None -> LeaseExpiresAt job = None ->
  scan_job (row_of_job job) = stored_job job.
Proof.
  intros Hl He. unfold scan_job, row_of_job, stored_job. simpl.
  rewrite Hl, He. simpl.
  destruct (String.eqb (IdempotencyKey job) "") eqn:E; [|reflexivity].
  apply String.eqb_eq in E. rewrite E. reflexivity.
Qed.

(** X3.  What [CreateJob] returns can be read back.  Over a table of
    distinct ids, when [CreateJob] returns a job (a new one or, for an
    idempotency key seen before, the existing one), [GetJob] of its id,
    the driver not failing the query, returns that job: the same id,
    tenant, key (none stays the empty string), payload, status,
    [max_retries], [retry_count] and lease, and the two times cut to whole
    seconds. *)
Theorem CreateJob_then_GetJob
  (req : CreateJobRequest) (w w1 : World) (job : Job) :
  unique_ids (jobs w) ->
  CreateJob req w = (Ok job, w1) ->
  quiet 1 w1 ->
  fst (GetJob (ID job) w1) = Returned (stored_job job).
Proof.
  intros Hu.
  apply (CreateJob_outcomes req w
           (fun res => res = (Ok job, w1) -> quiet 1 w1 ->
                       fst (GetJob (ID job) w1) = Returned (stored_job job))).
  - intros e w' _ _ _ H. discriminate H.
  - intros x w' Hx Hj _ _ H Hq. inversion H; subst.
    rewrite (GetJob_quiet _ _ Hq). simpl.
    rewrite (find_by_id_In (j_id x) (jobs w1) x); [|congruence|congruence|].
    + rewrite stored_job_scan. reflexivity.
    + reflexivity.
  - intros now w' job0 Hins Hj _ _ H Hq. inversion H; subst.
    rewrite (GetJob_quiet _ _ Hq). simpl.
    rewrite (find_by_id_In (next_uuid w) (jobs w1)
               (row_of_job (with_created now (new_job req (next_uuid w))))).
    + rewrite scan_row_of_job; reflexivity.
    + apply (insert_job_unique_ids _ _ _ Hins Hu).
    + rewrite Hj. apply in_or_app. right. left. reflexivity.
    + reflexivity.
Qed.

(** The theorem for a first submission at second 5 and a half: the job
    reads back with its times at second 5. *)
Lemma CreateJob_then_GetJob_witness :
  fst (GetJob "id-1" (snd (CreateJob request_A world_api)))
  = Returned (mkJob "id-1" "t1" "k1" "A" StatusPending 3 0 None None
                (time.FromUnix 5) (time.FromUnix 5)).
Proof.
  apply (CreateJob_then_GetJob request_A world_api
           (snd (CreateJob request_A world_api))
           (with_created (5 * time.Second + 500000000)
              (new_job request_A "id-1"))).
  - constructor.
  - vm_compute. reflexivity.
  - apply quiet_nil. vm_compute. reflexivity.
Defined.



(** ** Uniqueness of ids and keys *)

Lemma update_where_id_unique_ids (id : string) (f : jobs_row -> jobs_row)
  (t : list jobs_row) :
  (forall y, j_id (f y) = j_id y) ->
  unique_ids t -> unique_ids (update_where_id id f t).
Proof.
  intros Hf. unfold unique_ids. rewrite update_where_id_ids by exact Hf.
  trivial.
Qed.







(** ** The dead-letter queue, listed *)

(** X6.  [ListDeadLetterJobs], the driver failing neither the query nor
    the iteration, returns the records of all rows of table
    [dead_letter_jobs], each once, latest [failed_at] first; it never
    changes a table. *)
Theorem ListDeadLetterJobs_sorted (w : World) :
  quiet 2 w ->
  exists rows,
    fst (ListDeadLetterJobs w) = Ok (map scan_dead_letter rows) /\
    Permutation rows (dead_letter_jobs w) /\
    StronglySorted (fun a b => FailedAt b <= FailedAt a)
      (map scan_dead_letter rows) /\
    jobs (snd (ListDeadLetterJobs w)) = jobs w /\
    dead_letter_jobs (snd (ListDeadLetterJobs w)) = dead_letter_jobs w.
Proof.
  intros Hq. exists (select_dead_letters (dead_letter_jobs w)).
  pose proof (quiet_1 w (quiet_le 2 1 w ltac:(lia) Hq)) as Q1.
  pose proof (quiet_2 w Hq) as Q2.
  run_query. rewrite Q1. simpl. rewrite Q2. simpl.
  split; [reflexivity|]. split; [apply order_by_Permutation|].
  split; [|split; reflexivity].
  apply StronglySorted_map.
  eapply StronglySorted_weaken;
    [|apply (order_by_sorted (fun d => - d_failed_at d))].
  unfold scan_dead_letter, time.FromUnix, time.Second. simpl.
  intros a b Hab. lia.
Qed.

(** The theorem in the listing world, where the record of second 20 is
    stored before the one of second 30. *)
Lemma ListDeadLetterJobs_sorted_witness :
  exists rows,
    fst (ListDeadLetterJobs world_listing) = Ok (map scan_dead_letter rows) /\
    Permutation rows (dead_letter_jobs world_listing) /\
    StronglySorted (fun a b => FailedAt b <= FailedAt a)
      (map scan_dead_letter rows) /\
    jobs (snd (ListDeadLetterJobs world_listing)) = jobs world_listing /\
    dead_letter_jobs (snd (ListDeadLetterJobs world_listing))
      = dead_letter_jobs world_listing.
Proof.
  exact (ListDeadLetterJobs_sorted world_listing
           (quiet_nil 2 world_listing eq_refl)).
Defined.

Example ListDeadLetterJobs_of_listing :
  fst (ListDeadLetterJobs world_listing)
  = Ok [mkDeadLetterJob "dlq_b_30" "b" "t1" "fail" "max retries exceeded: x"
          (time.FromUnix 30);
        mkDeadLetterJob "dlq_a_20" "a" "t1" "fail" "max retries exceeded: x"
          (time.FromUnix 20)].
Proof. vm_compute. reflexivity. Qed.

(** ** The lease *)

(** A job that [LeaseJob] returns is of a row that was leasable at the
    clock's reading, whatever the driver did. *)
Lemma LeaseJob_Some (leaseDuration : time.Duration) (w w1 : World) (job : Job) :
  LeaseJob leaseDuration w = (Ok (Some job), w1) ->
  exists x,
    In x (jobs w) /\ leasable (time.Unix (next_now w)) x = true /\
    job = leased_job (next_now w) (time.Add (next_now w) leaseDuration) x /\
    jobs w1 =
      update_where_id (j_id x)
        (set_lease (time.Unix (next_now w))
           (time.Unix (time.Add (next_now w) leaseDuration))) (jobs w).
Proof.
  run_repo.
  next_verdict; [discriminate|].
  next_verdict; [discriminate|].
  destruct (select_leasable _ _) as [x|] eqn:Hsel; simpl; [|discriminate].
  apply select_leasable_Some in Hsel. destruct Hsel as (Hin & Hl & _).
  next_verdict; [discriminate|].
  next_verdict; [discriminate|].
  intros H. inversion H; subst; clear H. exists x. simpl. auto.
Qed.

(** X7.  A lease excludes.  After [LeaseJob] has returned a job, and as
    long as the rows of that job's id are as that call left them (other
    rows may change), no call of [LeaseJob] whose clock reading is, in
    whole seconds, at or before the job's [LeaseExpiresAt] returns a job
    of that id; this holds whatever the driver fails. *)
Theorem lease_excludes_until_expiry
  (leaseDuration : time.Duration) (w w1 : World) (job : Job) :
  LeaseJob leaseDuration w = (Ok (Some job), w1) ->
  exists expiresAt,
    LeaseExpiresAt job = Some expiresAt /\
    expiresAt = time.Add (next_now w) leaseDuration /\
    forall (d2 : time.Duration) (w2 : World) (job2 : Job),
      (forall y, In y (jobs w2) -> j_id y = ID job -> In y (jobs w1)) ->
      time.Unix (next_now w2) <= time.Unix expiresAt ->
      fst (LeaseJob d2 w2) = Ok (Some job2) ->
      ID job2 <> ID job.
Proof.
  intros Hlease. apply LeaseJob_Some in Hlease.
  destruct Hlease as (x & Hx & _ & -> & Hj1).
  exists (time.Add (next_now w) leaseDuration).
  split; [reflexivity|]. split; [reflexivity|].
  intros d2 w2 job2 Hsame Hnow Hl2. simpl in *.
  destruct (LeaseJob d2 w2) as [r2 w3] eqn:E2. simpl in Hl2. subst r2.
  apply LeaseJob_Some in E2. destruct E2 as (x2 & Hx2 & Hleas & -> & _).
  simpl. intros Hid. specialize (Hsame x2 Hx2 Hid). rewrite Hj1 in Hsame.
  apply update_where_id_inv in Hsame; [|reflexivity].
  destruct Hsame as [(y & _ & _ & ->) | [_ Hne]]; [|congruence].
  unfold leasable in Hleas. simpl in Hleas.
  apply Z.ltb_lt in Hleas. lia.
Qed.

(** The theorem in the world of the two rows: the row whose lease had run
    out is leased, for 30 seconds. *)
Lemma lease_excludes_until_expiry_witness :
  exists expiresAt,
    LeaseExpiresAt job_b = Some expiresAt /\
    expiresAt = time.Add (next_now world_two_rows) (30 * time.Second) /\
    forall (d2 : time.Duration) (w2 : World) (job2 : Job),
      (forall y, In y (jobs w2) -> j_id y = ID job_b ->
                 In y (jobs (snd (LeaseJob (30 * time.Second) world_two_rows)))) ->
      time.Unix (next_now w2) <= time.Unix expiresAt ->
      fst (LeaseJob d2 w2) = Ok (Some job2) ->
      ID job2 <> ID job_b.
Proof.
  apply (lease_excludes_until_expiry (30 * time.Second) world_two_rows
           (snd (LeaseJob (30 * time.Second) world_two_rows)) job_b).
  vm_compute. reflexivity.
Defined.

(** ** The worker's counters *)

Lemma MoveToDeadLetterQueue_metrics
  (job : Job) (failureReason : string) (w : World) :
  metrics (snd (MoveToDeadLetterQueue job failureReason w)) = metrics w.
Proof.
  run_repo.
  next_verdict; [reflexivity|].
  next_verdict; [reflexivity|].
  destruct (insert_dead_letter _ _); simpl; [|reflexivity].
  next_verdict; [reflexivity|].
  next_verdict; reflexivity.
Qed.

Lemma LeaseJob_metrics (leaseDuration : time.Duration) (w : World) :
  metrics (snd (LeaseJob leaseDuration w)) = metrics w.
Proof.
  run_repo.
  next_verdict; [reflexivity|].
  next_verdict; [reflexivity|].
  destruct (select_leasable _ _); simpl; [|reflexivity].
  next_verdict; [reflexivity|].
  next_verdict; reflexivity.
Qed.

(** What [processJob] does to the tables and the counters together,
    whatever the driver fails. *)
Lemma processJob_effects (job : Job) (w : World) :
  let w' := snd (processJob job w) in
  let m := metrics w in
  (jobs w' = jobs w /\ dead_letter_jobs w' = dead_letter_jobs w /\
   metrics w' = m)
  \/
  (Payload job <> "fail"%string /\
   dead_letter_jobs w' = dead_letter_jobs w /\
   (exists t, jobs w' =
                update_where_id (ID job) (set_status StatusDone t) (jobs w)) /\
   metrics w' = mkMetrics (totalJobs m) (int64_inc (completedJobs m))
                  (failedJobs m) (retriedJobs m))
  \/
  (RetryCount job < MaxRetries job /\
   dead_letter_jobs w' = dead_letter_jobs w /\
   (exists t, jobs w' = update_where_id (ID job) (set_retry t) (jobs w)) /\
   metrics w' = m)
  \/
  (RetryCount job < MaxRetries job /\
   dead_letter_jobs w' = dead_letter_jobs w /\
   (exists t1 t2,
      jobs w' = update_where_id (ID job) (set_status StatusPending t2)
                  (update_where_id (ID job) (set_retry t1) (jobs w))) /\
   metrics w' = mkMetrics (totalJobs m) (completedJobs m)
                  (failedJobs m) (int64_inc (retriedJobs m)))
  \/
  (MaxRetries job <= RetryCount job /\
   jobs w' = delete_where_id (ID job) (jobs w) /\
   (exists record,
      dead_letter_jobs w' = dead_letter_jobs w ++ [record] /\
      d_job_id record = ID job) /\
   metrics w' = mkMetrics (totalJobs m) (completedJobs m)
                  (int64_inc (failedJobs m)) (retriedJobs m)).
Proof.
  cbv zeta. run_worker.
  destruct (String.eqb (Payload job) "fail") eqn:Hp.
  - destruct (RetryCount job <? MaxRetries job) eqn:Hlt.
    + apply Z.ltb_lt in Hlt.
      rewrite IncrementRetryCount_eq. simpl.
      destruct (hd false (faults w)); simpl; [auto|].
      rewrite UpdateJobStatus_eq. simpl.
      destruct (hd false (tl (faults w))); simpl.
      * right. right. left. eauto 10.
      * right. right. right. left. eauto 10.
    + apply Z.ltb_ge in Hlt.
      pose proof (MoveToDeadLetterQueue_metrics job
                    ("max retries exceeded: " +:+ "payload is 'fail'")
                    (slept (2 * time.Second) w)) as Hm.
      destruct (MoveToDeadLetterQueue_cases job
                  ("max retries exceeded: " +:+ "payload is 'fail'")
                  (slept (2 * time.Second) w))
        as [(Hok & Hd & Hj) | (e & He & Hj & Hd)].
      * do 4 right.
        destruct (MoveToDeadLetterQueue _ _ _) as [r w1]. simpl in *.
        subst r. simpl. rewrite Hm. split; [exact Hlt|]. split; [exact Hj|].
        split; [|reflexivity]. eexists. split; [exact Hd | reflexivity].
      * left.
        destruct (MoveToDeadLetterQueue _ _ _) as [r w1]. simpl in *.
        subst r. simpl. auto.
  - apply String.eqb_neq in Hp. rewrite UpdateJobStatus_eq. simpl.
    destruct (hd false (faults w)); simpl; [auto|].
    right. left. eauto 10.
Qed.

(** What one turn of the worker's loop does to the tables and the
    counters together, whatever the driver fails: [x] is the leased row. *)
Lemma ProcessJobs_iteration_effects (leaseDuration : time.Duration) (w : World)
  (Q : World -> Prop) :
  (forall w', jobs w' = jobs w -> dead_letter_jobs w' = dead_letter_jobs w ->
              metrics w' = metrics w -> Q w') ->
  (forall x now expires w1,
     In x (jobs w) ->
     jobs w1 = update_where_id (j_id x)
                 (set_lease (time.Unix now) (time.Unix expires)) (jobs w) ->
     dead_letter_jobs w1 = dead_letter_jobs w ->
     metrics w1 = metrics w ->
     Q (snd (processJob (leased_job now expires x) w1))) ->
  Q (snd (ProcessJobs_iteration leaseDuration w)).
Proof.
  intros Hsame Hleased. unfold ProcessJobs_iteration, bind, try.
  pose proof (LeaseJob_cases leaseDuration w) as Hl. cbv zeta in Hl.
  pose proof (LeaseJob_metrics leaseDuration w) as Hm.
  destruct (LeaseJob leaseDuration w) as [r w1]. simpl in Hl, Hm.
  destruct Hl as [Hd [[Hj Hnone] | (x & now & expires & Hin & -> & Hj)]].
  - destruct r as [[job|]|e]; [destruct (Hnone job eq_refl)| |];
      unfold time_Sleep; simpl; apply Hsame; assumption.
  - simpl. apply (Hleased x now expires w1); assumption.
Qed.

(** X8.  The worker's counters follow the store.  In one turn of the
    worker's loop, whatever the driver fails, at most one counter is
    incremented, never [total_jobs], and only after the write it counts:
    [completed_jobs] when the rows of a job's id, of which there is one,
    are [DONE]; [retried_jobs] when they are [PENDING] again;
    [failed_jobs] when one record of a job was appended to table
    [dead_letter_jobs] and no row of that job's id is left in table
    [jobs].  Without an increment, table [dead_letter_jobs] is as
    before. *)
Theorem worker_counters_follow_store
  (leaseDuration : time.Duration) (w : World) :
  let w' := snd (ProcessJobs_iteration leaseDuration w) in
  let m := metrics w in
  (metrics w' = m /\ dead_letter_jobs w' = dead_letter_jobs w)
  \/
  (exists id,
     metrics w' = mkMetrics (totalJobs m) (int64_inc (completedJobs m))
                    (failedJobs m) (retriedJobs m) /\
     dead_letter_jobs w' = dead_letter_jobs w /\
     In id (map j_id (jobs w')) /\
     forall x, In x (jobs w') -> j_id x = id -> j_status x = StatusDone)
  \/
  (exists id,
     metrics w' = mkMetrics (totalJobs m) (completedJobs m)
                    (failedJobs m) (int64_inc (retriedJobs m)) /\
     dead_letter_jobs w' = dead_letter_jobs w /\
     In id (map j_id (jobs w')) /\
     forall x, In x (jobs w') -> j_id x = id -> j_status x = StatusPending)
  \/
  (exists record,
     metrics w' = mkMetrics (totalJobs m) (completedJobs m)
                    (int64_inc (failedJobs m)) (retriedJobs m) /\
     dead_letter_jobs w' = dead_letter_jobs w ++ [record] /\
     forall x, In x (jobs w') -> j_id x <> d_job_id record).
Proof.
  cbv zeta. apply ProcessJobs_iteration_effects.
  - intros w' _ Hd Hm. left. auto.
  - intros x now expires w1 Hx Hj1 Hd1 Hm1.
    assert (In (j_id x) (map j_id (jobs w1))) as Hid1.
    { rewrite Hj1, update_where_id_ids by reflexivity. apply in_map. exact Hx. }
    pose proof (processJob_effects (leased_job now expires x) w1) as Hp.
    cbv zeta in Hp. simpl in Hp. rewrite Hm1, Hd1 in Hp.
    destruct Hp as [(_ & Hd & Hm) | [(_ & Hd & (t & Hj) & Hm)
                   | [(_ & Hd & _ & Hm) | [(_ & Hd & (t1 & t2 & Hj) & Hm)
                   | (_ & Hj & (record & Hd & Hrec) & Hm)]]]].
    + left. auto.
    + right. left. exists (j_id x). split; [exact Hm|]. split; [exact Hd|].
      rewrite Hj. split.
      * rewrite update_where_id_ids by reflexivity. exact Hid1.
      * intros y Hy Hid. apply (set_status_rows _ _ _ _ _ Hy Hid).
    + left. auto.
    + right. right. left. exists (j_id x).
      split; [exact Hm|]. split; [exact Hd|]. rewrite Hj. split.
      * rewrite !update_where_id_ids by reflexivity. exact Hid1.
      * intros y Hy Hid. apply (set_status_rows _ _ _ _ _ Hy Hid).
    + right. right. right. exists record.
      split; [exact Hm|]. split; [exact Hd|]. rewrite Hj, Hrec.
      intros y Hy. apply delete_where_id_In in Hy. tauto.
Qed.

(** ** The status [FAILED] *)

Lemma update_where_id_all (P : jobs_row -> Prop) (id : string)
  (f : jobs_row -> jobs_row) (t : list jobs_row) :
  (forall y, P y -> P (f y)) ->
  (forall x, In x t -> P x) ->
  forall x, In x (update_where_id id f t) -> P x.
Proof.
  intros Hf Ht x Hx. unfold update_where_id in Hx. apply in_map_iff in Hx.
  destruct Hx as (y & <- & Hy).
  destruct (String.eqb (j_id y) id); auto.
Qed.

Lemma node_step_no_failed (allowed : CreateJobRequest -> Prop) (w w' : World) :
  node_step allowed w w' ->
  (forall x, In x (jobs w) -> j_status x <> StatusFailed) ->
  forall x, In x (jobs w') -> j_status x <> StatusFailed.
Proof.
  intros Hstep H. destruct Hstep as [req w _ | d w | w w' Hj _].
  - apply (CreateJob_outcomes req w
             (fun res => forall x, In x (jobs (snd res)) ->
                                   j_status x <> StatusFailed)).
    + intros e w' Hj _ _. simpl. rewrite Hj. exact H.
    + intros x w' _ Hj _ _. simpl. rewrite Hj. exact H.
    + intros now w' job _ Hj _ _. simpl. rewrite Hj. intros y Hy.
      apply in_app_or in Hy. destruct Hy as [Hy | [<- | []]]; [auto|].
      simpl. discriminate.
  - apply ProcessJobs_iteration_effects.
    + intros w' Hj _ _. rewrite Hj. exact H.
    + intros x now expires w1 _ Hj1 _ _.
      assert (forall y, In y (jobs w1) -> j_status y <> StatusFailed) as H1.
      { rewrite Hj1. apply update_where_id_all; [|exact H].
        intros y _. simpl. discriminate. }
      pose proof (processJob_effects (leased_job now expires x) w1) as Hp.
      cbv zeta in Hp.
      destruct Hp as [(Hj & _) | [(_ & _ & (t & Hj) & _)
                     | [(_ & _ & (t & Hj) & _) | [(_ & _ & (t1 & t2 & Hj) & _)
                     | (_ & Hj & _)]]]]; rewrite Hj.
      * exact H1.
      * apply update_where_id_all; [|exact H1]. intros y _. simpl. discriminate.
      * apply update_where_id_all; [|exact H1]. intros y Hy. exact Hy.
      * apply update_where_id_all; [intros y _; simpl; discriminate|].
        apply update_where_id_all; [|exact H1]. intros y Hy. exact Hy.
      * intros y Hy. apply delete_where_id_In in Hy. apply H1. tauto.
  - rewrite Hj. exact H.
Qed.

Lemma filter_status_none (status : JobStatus) (t : list jobs_row) :
  (forall x, In x t -> j_status x <> status) ->
  List.filter (fun x => JobStatus_eqb (j_status x) status) t = [].
Proof.
  intros H. induction t as [|a t IH]; simpl; [reflexivity|].
  assert (JobStatus_eqb (j_status a) status = false) as ->.
  { specialize (H a (or_introl eq_refl)).
    destruct (j_status a), status; simpl; congruence. }
  apply IH. intros x Hx. apply H. right. exact Hx.
Qed.

(** X9.  The API node and the worker never store the status [FAILED]: in
    every world that submissions and turns of the worker's loop lead to
    from empty tables, whatever the driver fails, no row of table [jobs]
    is [FAILED]; a job that fails for good is nowhere but in the
    dead-letter queue.  So [GetFailedJobsCount] counts the dead-letter
    records, as [GetDeadLetterQueueCount] does, and the list of [FAILED]
    jobs is empty. *)
Theorem no_failed_status (allowed : CreateJobRequest -> Prop) (w : World) :
  node_reachable allowed w ->
  (forall x, In x (jobs w) -> j_status x <> StatusFailed) /\
  (quiet 2 w ->
   fst (GetFailedJobsCount w) = Ok (Z.of_nat (length (dead_letter_jobs w))) /\
   fst (GetFailedJobsCount w) = fst (GetDeadLetterQueueCount w) /\
   fst (ListJobsByStatus StatusFailed w) = Ok []).
Proof.
  intros Hr.
  assert (forall x, In x (jobs w) -> j_status x <> StatusFailed) as H.
  { induction Hr as [w Hj _ | w w' _ IH Hstep].
    - rewrite Hj. intros x [].
    - apply (node_step_no_failed allowed w w' Hstep IH). }
  split; [exact H|]. intros Hq.
  pose proof (quiet_1 w (quiet_le 2 1 w ltac:(lia) Hq)) as Q1.
  pose proof (quiet_2 w Hq) as Q2.
  run_query. rewrite Q1. simpl. rewrite Q2. simpl.
  unfold select_by_status. rewrite (filter_status_none _ _ H). simpl.
  auto.
Qed.

(** The theorem in the store that one submission leaves. *)
Lemma no_failed_status_witness :
  (forall x, In x (jobs (snd (CreateJob request_A world_api))) ->
             j_status x <> StatusFailed) /\
  fst (GetFailedJobsCount (snd (CreateJob request_A world_api))) = Ok 0 /\
  fst (GetFailedJobsCount (snd (CreateJob request_A world_api)))
    = fst (GetDeadLetterQueueCount (snd (CreateJob request_A world_api))) /\
  fst (ListJobsByStatus StatusFailed (snd (CreateJob request_A world_api)))
    = Ok [].
Proof.
  destruct (no_failed_status (fun _ => True)
              (snd (CreateJob request_A world_api))) as [H1 H2].
  - apply (node_next _ world_api).
    + apply node_start; reflexivity.
    + apply step_submit. exact I.
  - split; [exact H1|]. apply H2. apply quiet_nil. vm_compute. reflexivity.
Defined.

(** ** No job is lost *)

Lemma delete_where_id_absent (id : string) (t : list jobs_row) :
  ~ In id (map j_id t) -> delete_where_id id t = t.
Proof.
  unfold delete_where_id. induction t as [|a t IH]; simpl; [reflexivity|].
  intros Hn. destruct (String.eqb (j_id a) id) eqn:E; simpl.
  - apply String.eqb_eq in E. destruct Hn. left. exact E.
  - rewrite IH; [reflexivity|]. intros Hin. apply Hn. right. exact Hin.
Qed.

Lemma delete_where_id_ids (id : string) (t : list jobs_row) :
  unique_ids t -> In id (map j_id t) ->
  Permutation (id :: map j_id (delete_where_id id t)) (map j_id t).
Proof.
  unfold unique_ids. induction t as [|a t IH]; simpl; [intros _ []|].
  intros Hu Hin. inversion Hu as [|? ? Hnotin Hu']; subst.
  destruct (String.eqb (j_id a) id) eqn:E.
  - apply String.eqb_eq in E. subst id.
    unfold delete_where_id. simpl. rewrite String.eqb_refl. simpl.
    fold (delete_where_id (j_id a) t).
    rewrite (delete_where_id_absent _ _ Hnotin). reflexivity.
  - apply String.eqb_neq in E. destruct Hin as [Hin | Hin]; [contradiction|].
    unfold delete_where_id. simpl. apply String.eqb_neq in E. rewrite E. simpl.
    fold (delete_where_id id t).
    rewrite perm_swap. apply perm_skip. apply IH; assumption.
Qed.

Lemma GetTotalJobsCount_Ok (w : World) (n : Z) :
  fst (GetTotalJobsCount w) = Ok n ->
  n = Z.of_nat (length (jobs w)) + Z.of_nat (length (dead_letter_jobs w)).
Proof.
  run_query.
  destruct (hd false (faults w)); simpl; [discriminate|].
  destruct (hd false (tl (faults w))); simpl; [discriminate|].
  intros H. inversion H. reflexivity.
Qed.

(** X10.  A turn of the worker's loop loses no job and makes none up.
    When no two rows of table [jobs] have the same id (so it is in every
    reachable store), then after the turn, whatever the driver failed,
    the job ids of table [jobs] together with the job ids of the
    dead-letter records are those from before the turn, each as often as
    before; the ids of table [jobs] are still distinct; and
    [GetTotalJobsCount], when it answers, gives the same number before and
    after. *)
Theorem worker_turn_conserves_jobs
  (leaseDuration : time.Duration) (w : World) :
  unique_ids (jobs w) ->
  let w' := snd (ProcessJobs_iteration leaseDuration w) in
  Permutation
    (map j_id (jobs w') ++ map d_job_id (dead_letter_jobs w'))
    (map j_id (jobs w) ++ map d_job_id (dead_letter_jobs w)) /\
  unique_ids (jobs w') /\
  forall wa wb n m,
    jobs wa = jobs w -> dead_letter_jobs wa = dead_letter_jobs w ->
    jobs wb = jobs w' -> dead_letter_jobs wb = dead_letter_jobs w' ->
    fst (GetTotalJobsCount wa) = Ok n -> fst (GetTotalJobsCount wb) = Ok m ->
    n = m.
Proof.
  intros Hu. cbv zeta.
  assert (Permutation
            (map j_id (jobs (snd (ProcessJobs_iteration leaseDuration w))) ++
             map d_job_id
               (dead_letter_jobs (snd (ProcessJobs_iteration leaseDuration w))))
            (map j_id (jobs w) ++ map d_job_id (dead_letter_jobs w)) /\
          unique_ids (jobs (snd (ProcessJobs_iteration leaseDuration w))))
    as [Hperm Hu'].
  { apply ProcessJobs_iteration_effects.
    - intros w' -> ->. auto.
    - intros x now expires w1 Hx Hj1 Hd1 _.
      assert (map j_id (jobs w1) = map j_id (jobs w)) as Hids1
        by (rewrite Hj1; apply update_where_id_ids; reflexivity).
      assert (unique_ids (jobs w1)) as Hu1
        by (unfold unique_ids; rewrite Hids1; exact Hu).
      assert (In (j_id x) (map j_id (jobs w1))) as Hin1
        by (rewrite Hids1; apply in_map; exact Hx).
      rewrite <- Hids1, <- Hd1.
      pose proof (processJob_effects (leased_job now expires x) w1) as Hp.
      cbv zeta in Hp. simpl in Hp.
      destruct Hp as [(Hj & Hd & _) | [(_ & Hd & (t & Hj) & _)
                     | [(_ & Hd & (t & Hj) & _)
                     | [(_ & Hd & (t1 & t2 & Hj) & _)
                     | (_ & Hj & (record & Hd & Hrec) & _)]]]];
        rewrite Hj, Hd.
      + auto.
      + split; [rewrite update_where_id_ids by reflexivity; reflexivity|].
        apply update_where_id_unique_ids; [reflexivity | exact Hu1].
      + split; [rewrite update_where_id_ids by reflexivity; reflexivity|].
        apply update_where_id_unique_ids; [reflexivity | exact Hu1].
      + split; [rewrite !update_where_id_ids by reflexivity; reflexivity|].
        apply update_where_id_unique_ids; [reflexivity|].
        apply update_where_id_unique_ids; [reflexivity | exact Hu1].
      + split.
        * rewrite map_app. simpl. rewrite Hrec, app_assoc.
          rewrite <- Permutation_cons_append.
          change (Permutation
                    ((j_id x :: map j_id (delete_where_id (j_id x) (jobs w1)))
                     ++ map d_job_id (dead_letter_jobs w1))
                    (map j_id (jobs w1) ++ map d_job_id (dead_letter_jobs w1))).
          apply Permutation_app_tail.
          apply delete_where_id_ids; assumption.
        * unfold unique_ids in *. unfold delete_where_id.
          clear - Hu1. induction (jobs w1) as [|a t IH]; simpl; [constructor|].
          inversion Hu1 as [|? ? Hnotin Hu2]; subst.
          destruct (negb (String.eqb (j_id a) (j_id x))); simpl; [|auto].
          constructor; [|auto]. intros Hin. apply Hnotin.
          apply in_map_iff in Hin. destruct Hin as (y & Hy & Hin).
          apply filter_In in Hin. rewrite <- Hy. apply in_map. tauto. }
  split; [exact Hperm|]. split; [exact Hu'|].
  intros wa wb n m Hja Hda Hjb Hdb Hn Hm.
  apply GetTotalJobsCount_Ok in Hn, Hm. rewrite Hja, Hda in Hn.
  rewrite Hjb, Hdb in Hm. apply Permutation_length in Hperm.
  rewrite !length_app, !length_map in Hperm. lia.
Qed.

(** The theorem for the worker's first turn in the world of the two
    rows. *)
Lemma worker_turn_conserves_jobs_witness :
  Permutation
    (map j_id (jobs (snd (ProcessJobs_iteration (30 * time.Second)
                            world_two_rows))) ++
     map d_job_id
       (dead_letter_jobs (snd (ProcessJobs_iteration (30 * time.Second)
                                 world_two_rows))))
    ["a"; "b"]%string.
Proof.
  apply (worker_turn_conserves_jobs (30 * time.Second) world_two_rows).
  vm_compute. repeat constructor; simpl; intros H;
    repeat (destruct H as [H|H]; [discriminate H|]); exact H.
Defined.

(** ** The rate limiter, tenant by tenant *)

(** X11.  [CheckSubmissionRate] of one tenant leaves the windows of all
    other tenants, the two limits, the tables and the counters as they
    are, whether it accepts or rejects. *)
Theorem CheckSubmissionRate_other_tenants (tenantID other : string) (w : World) :
  other <> tenantID ->
  let w' := snd (CheckSubmissionRate tenantID w) in
  submissionWindows (rl w') !! other = submissionWindows (rl w) !! other /\
  maxSubmissionsPerMinute (rl w') = maxSubmissionsPerMinute (rl w) /\
  maxConcurrentRunning (rl w') = maxConcurrentRunning (rl w) /\
  jobs w' = jobs w /\ dead_letter_jobs w' = dead_letter_jobs w /\
  metrics w' = metrics w.
Proof.
  intros Hne. cbv zeta.
  destruct (CheckSubmissionRate_frame tenantID w) as (Hj & Hd & Hm & _).
  split; [|split; [|split; [|auto]]];
    unfold CheckSubmissionRate, bind, time_Now; simpl;
    destruct (submissionWindows (rl w) !! tenantID) as [win|]; simpl;
    try destruct (time.After _ _); simpl;
    try destruct (_ <=? _); simpl;
    try reflexivity;
    apply lookup_insert_ne; congruence.
Qed.

(** The theorem for a submission of tenant ["t2"] while tenant ["t1"] has
    used 8 submissions of its window. *)
Lemma CheckSubmissionRate_other_tenants_witness :
  submissionWindows
    (rl (snd (CheckSubmissionRate "t2" (world_in_window 8 (time.FromUnix 100)))))
    !! "t1"%string
  = Some (mkSubmissionWindow 8 (time.FromUnix 100)).
Proof.
  destruct (CheckSubmissionRate_other_tenants "t2" "t1"
              (world_in_window 8 (time.FromUnix 100))) as [H _].
  - intros H. discriminate H.
  - rewrite H. reflexivity.
Defined.

(** X12.  A window never counts more than the limit.  In every rate
    limiter that calls of [CheckSubmissionRate] lead to from
    [NewRateLimiter(a, b)], with [b] a Go [int], the two limits are still
    [a] and [b] and every tenant's window has [1 <= count <= max(1, b)]:
    a window is opened by an accepted submission, whatever [b] is, and
    counts the accepted submissions since. *)
Theorem window_count_bounded (a b : Z) (r : RateLimiter) :
  b < 2 ^ 63 ->
  limiter_reachable a b r ->
  maxConcurrentRunning r = a /\ maxSubmissionsPerMinute r = b /\
  forall tenantID win,
    submissionWindows r !! tenantID = Some win ->
    1 <= count win <= Z.max 1 b.
Proof.
  intros Hb Hr. induction Hr as [|t w _ (Ha & Hm & IH)].
  - split; [reflexivity|]. split; [reflexivity|].
    intros t win H. unfold NewRateLimiter in H. simpl in H.
    rewrite lookup_empty in H. discriminate.
  - unfold CheckSubmissionRate, bind, time_Now. simpl.
    destruct (submissionWindows (rl w) !! t) as [win0|] eqn:Hw; simpl;
      [destruct (time.After _ _); simpl;
       [|destruct (_ <=? _) eqn:Hfull; simpl]|];
      (split; [exact Ha|]); (split; [exact Hm|]); try exact IH;
      intros t' win Hl;
      (destruct (decide (t' = t)) as [->|Hne];
       [rewrite lookup_insert_eq in Hl; inversion Hl; subst; simpl
       |rewrite lookup_insert_ne in Hl by congruence; apply (IH t' win Hl)]);
      try lia.
    apply Z.leb_gt in Hfull. specialize (IH t win0 Hw).
    rewrite int64_inc_small; lia.
Qed.

(** The theorem after one submission to [NewRateLimiter(5, 10)]. *)
Lemma window_count_bounded_witness :
  maxConcurrentRunning (rl (snd (CheckSubmissionRate "t1" world_api))) = 5 /\
  maxSubmissionsPerMinute (rl (snd (CheckSubmissionRate "t1" world_api))) = 10 /\
  forall tenantID win,
    submissionWindows
      (rl (snd (CheckSubmissionRate "t1" world_api))) !! tenantID = Some win ->
    1 <= count win <= 10.
Proof.
  apply (window_count_bounded 5 10
           (rl (snd (CheckSubmissionRate "t1" world_api)))).
  - vm_compute. reflexivity.
  - apply limiter_check. apply limiter_new.
Defined.

(** ** The cap on running jobs *)

Lemma CheckSubmissionRate_rest (tenantID : string) (w : World) :
  let w' := snd (CheckSubmissionRate tenantID w) in
  maxConcurrentRunning (rl w') = maxConcurrentRunning (rl w) /\
  uuids w' = uuids w.
Proof.
  cbv zeta. unfold CheckSubmissionRate, bind, time_Now. simpl.
  destruct (submissionWindows (rl w) !! tenantID) as [win|]; simpl;
    [|repeat split].
  destruct (time.After _ _); simpl; [repeat split|].
  destruct (_ <=? _); simpl; repeat split.
Qed.

Lemma find_none_of (P : jobs_row -> bool) (t : list jobs_row) :
  (forall x, In x t -> P x = false) -> List.find P t = None.
Proof.
  intros H. induction t as [|a t IH]; simpl; [reflexivity|].
  rewrite (H a (or_introl eq_refl)). apply IH. intros x Hx. apply H.
  right. exact Hx.
Qed.

Lemma existsb_none_of (P : jobs_row -> bool) (t : list jobs_row) :
  (forall x, In x t -> P x = false) -> existsb P t = false.
Proof.
  intros H. induction t as [|a t IH]; simpl; [reflexivity|].
  rewrite (H a (or_introl eq_refl)). apply IH. intros x Hx. apply H.
  right. exact Hx.
Qed.

(** X13.  The cap on running jobs decides.  A submission that passed the
    submission-rate check, when the driver does not fail and no row of the
    tenant has the request's key: if the tenant has [maxConcurrentRunning]
    or more rows [RUNNING], [CreateJob] fails with [ErrRateLimitExceeded],
    stores nothing, counts nothing and draws no uuid; if it has fewer, and
    the next uuid is the id of no row, [CreateJob] returns the new job,
    stored as the last row of table [jobs], and increments [total_jobs]. *)
Theorem CreateJob_cap_decides (req : CreateJobRequest) (w w1 : World) :
  CheckSubmissionRate (ReqTenantID req) w = (Ok tt, w1) ->
  quiet 3 w ->
  (forall x, In x (jobs w) -> j_tenant_id x = ReqTenantID req ->
             j_idempotency_key x = Some (ReqIdempotencyKey req) ->
             ReqIdempotencyKey req = ""%string) ->
  let running := count_running (ReqTenantID req) (jobs w) in
  let res := CreateJob req w in
  (maxConcurrentRunning (rl w) <= running ->
   fst res = Err ErrRateLimitExceeded /\
   jobs (snd res) = jobs w /\
   dead_letter_jobs (snd res) = dead_letter_jobs w /\
   metrics (snd res) = metrics w /\
   uuids (snd res) = uuids w)
  /\
  (running < maxConcurrentRunning (rl w) ->
   (forall x, In x (jobs w) -> j_id x <> next_uuid w) ->
   let job := with_created (next_now w1) (new_job req (next_uuid w)) in
   fst res = Ok job /\
   jobs (snd res) = jobs w ++ [row_of_job job] /\
   dead_letter_jobs (snd res) = dead_letter_jobs w /\
   metrics (snd res) =
     mkMetrics (int64_inc (totalJobs (metrics w))) (completedJobs (metrics w))
       (failedJobs (metrics w)) (retriedJobs (metrics w)) /\
   uuids (snd res) = tl (uuids w)).
Proof.
  intros Hrate Hq Hno. cbv zeta.
  destruct (CheckSubmissionRate_frame (ReqTenantID req) w) as (Hj & Hd & Hm & Hf).
  destruct (CheckSubmissionRate_rest (ReqTenantID req) w) as (Hc & Hu).
  rewrite Hrate in Hj, Hd, Hm, Hf, Hc, Hu. simpl in Hj, Hd, Hm, Hf, Hc, Hu.
  pose proof (quiet_1 w (quiet_le 3 1 w ltac:(lia) Hq)) as Q1.
  pose proof (quiet_2 w (quiet_le 3 2 w ltac:(lia) Hq)) as Q2.
  pose proof (quiet_3 w Hq) as Q3.
  rewrite <- Hf in Q1, Q2, Q3. rewrite <- Hj in Hno.
  unfold next_uuid. rewrite <- Hj, <- Hd, <- Hm, <- Hc, <- Hu.
  clear Hj Hd Hm Hf Hc Hu Hq.
  assert (forall x, In x (jobs w1) ->
            idempotency_conflict
              (row_of_job (with_created (next_now w1)
                 (new_job req (hd "00000000-0000-0000-0000-000000000000"%string
                                 (uuids w1))))) x = false) as Hnc.
  { intros x Hx. apply not_true_is_false. intros Hcf.
    apply idempotency_conflict_spec in Hcf. simpl in Hcf.
    destruct Hcf as (Hk & Ht & Hkey). apply Hk. apply (Hno x Hx Ht Hkey). }
  split.
  - intros Hcap. apply Z.leb_le in Hcap.
    assert (exists w',
              CreateJob req w = (Err ErrRateLimitExceeded, w') /\
              jobs w' = jobs w1 /\ dead_letter_jobs w' = dead_letter_jobs w1 /\
              metrics w' = metrics w1 /\ uuids w' = uuids w1)
      as (w' & -> & H); [|split; [reflexivity | exact H]].
    unfold CreateJob. unfold bind at 1. rewrite Hrate.
    destruct (String.eqb (ReqIdempotencyKey req) "") eqn:Hk; simpl.
    + unfold bind at 1. unfold ret at 1. unfold bind at 1.
      unfold GetRunningJobsCountByTenant, wrap, db_Query, bind at 1, driver.
      rewrite Q1. simpl. unfold bind at 1, CheckConcurrentLimit. simpl.
      rewrite Hcap. eexists. split; [reflexivity|]. repeat split.
    + unfold bind at 1. unfold wrap at 1.
      rewrite GetJobByTenantAndIdempotencyKey_eq. cbv zeta.
      rewrite Hk, Q1. rewrite find_none_of; [simpl|].
      * unfold bind at 1.
        unfold GetRunningJobsCountByTenant, wrap, db_Query, bind at 1, driver.
        simpl. rewrite Q2. simpl. unfold bind at 1, CheckConcurrentLimit.
        simpl. rewrite Hcap. eexists. split; [reflexivity|]. repeat split.
      * intros x Hx. unfold tenant_key_equals.
        destruct (String.eqb (j_tenant_id x) (ReqTenantID req)) eqn:Et;
          [|reflexivity].
        destruct (j_idempotency_key x) as [k|] eqn:Ek; [|reflexivity].
        simpl. apply String.eqb_neq. intros ->.
        apply String.eqb_eq in Et. apply String.eqb_neq in Hk.
        apply Hk. apply (Hno x Hx Et Ek).
  - intros Hcap Hfresh. apply Z.leb_gt in Hcap.
    assert (existsb
              (fun x => String.eqb
                 (hd "00000000-0000-0000-0000-000000000000"%string (uuids w1))
                 (j_id x)) (jobs w1) = false) as Hpk.
    { apply existsb_none_of. intros x Hx. apply String.eqb_neq.
      intros Heq. apply (Hfresh x Hx). symmetry. exact Heq. }
    apply existsb_none_of in Hnc.
    assert (exists w',
              CreateJob req w =
                (Ok (with_created (next_now w1)
                       (new_job req
                          (hd "00000000-0000-0000-0000-000000000000"%string
                             (uuids w1)))), w') /\
              jobs w' =
                jobs w1 ++
                [row_of_job
                   (with_created (next_now w1)
                      (new_job req
                         (hd "00000000-0000-0000-0000-000000000000"%string
                            (uuids w1))))] /\
              dead_letter_jobs w' = dead_letter_jobs w1 /\
              metrics w' =
                mkMetrics (int64_inc (totalJobs (metrics w1)))
                  (completedJobs (metrics w1)) (failedJobs (metrics w1))
                  (retriedJobs (metrics w1)) /\
              uuids w' = tl (uuids w1))
      as (w' & -> & H); [|split; [reflexivity | exact H]].
    unfold CreateJob. unfold bind at 1. rewrite Hrate.
    destruct (String.eqb (ReqIdempotencyKey req) "") eqn:Hk; simpl.
    + unfold bind at 1. unfold ret at 1. unfold bind at 1.
      unfold GetRunningJobsCountByTenant, wrap, db_Query, bind at 1, driver.
      rewrite Q1. simpl. unfold bind at 1, CheckConcurrentLimit. simpl.
      rewrite Hcap. unfold bind at 1, uuid_New. unfold bind at 1, try.
      rewrite repo_CreateJob_eq. cbv zeta. simpl. rewrite Q2, Hpk.
      change (next_now (set_uuids (tl (uuids w1))
                          (set_faults (tl (faults w1)) w1)))
        with (next_now w1).
      unfold new_job in Hnc. rewrite Hnc.
      unfold bind, IncrementTotalJobs, ret. simpl.
      eexists. split; [reflexivity|]. repeat split.
    + unfold bind at 1. unfold wrap at 1.
      rewrite GetJobByTenantAndIdempotencyKey_eq. cbv zeta.
      rewrite Hk, Q1. rewrite find_none_of; [simpl|].
      * unfold bind at 1.
        unfold GetRunningJobsCountByTenant, wrap, db_Query, bind at 1, driver.
        simpl. rewrite Q2. simpl. unfold bind at 1, CheckConcurrentLimit.
        simpl. rewrite Hcap. unfold bind at 1, uuid_New.
        unfold bind at 1, try.
        rewrite repo_CreateJob_eq. cbv zeta. simpl. rewrite Q3, Hpk.
        change (next_now (set_uuids (tl (uuids w1))
                            (set_faults (tl (tl (faults w1)))
                               (set_faults (tl (faults w1)) w1))))
          with (next_now w1).
        unfold new_job in Hnc. rewrite Hnc.
        unfold bind, IncrementTotalJobs, ret. simpl.
        eexists. split; [reflexivity|]. repeat split.
      * intros x Hx. unfold tenant_key_equals.
        destruct (String.eqb (j_tenant_id x) (ReqTenantID req)) eqn:Et;
          [|reflexivity].
        destruct (j_idempotency_key x) as [k|] eqn:Ek; [|reflexivity].
        simpl. apply String.eqb_neq. intros ->.
        apply String.eqb_eq in Et. apply String.eqb_neq in Hk.
        apply Hk. apply (Hno x Hx Et Ek).
Qed.

(** The theorem for a submission of tenant ["t1"], which has one running
    job, to a limiter that allows one. *)
Lemma CreateJob_cap_decides_witness :
  fst (CreateJob request_A world_at_cap) = Err ErrRateLimitExceeded /\
  jobs (snd (CreateJob request_A world_at_cap)) = jobs world_at_cap.
Proof.
  destruct (proj1 (CreateJob_cap_decides request_A world_at_cap
                     (snd (CheckSubmissionRate "t1" world_at_cap))
                     ltac:(vm_compute; reflexivity)
                     (quiet_nil 3 world_at_cap eq_refl)
                     ltac:(intros x [<- | []] _ H; discriminate H)))
    as (Hres & Hjobs & _).
  - vm_compute. intros H. discriminate H.
  - split; assumption.
Defined.
